(** * Deposit tracking service: a shallow embedding and its properties

    The development embeds
    [safejet-exchange-api/src/wallet/services/deposit-tracking.service.ts]
    (class [DepositTrackingService]).  Repositories are an explicit store
    threaded through a state-and-exception monad; chain providers are
    oracles passed as arguments; logging and timer delays have no effect on
    the store and are left out. *)

From Stdlib Require Import ZArith Ascii String List Lia.
From stdpp Require Import base numbers list strings gmap pretty.

Local Open Scope string_scope.
Local Open Scope Z_scope.

(** ** JavaScript strings and numbers *)

Module Js.

(** [String.prototype.toLowerCase], on the ASCII letters. *)
Definition toLowerChar (c : ascii) : ascii :=
  let n := N_of_ascii c in
  if ((65 <=? n) && (n <=? 90))%N then ascii_of_N (n + 32) else c.

Fixpoint toLowerCase (s : string) : string :=
  match s with
  | EmptyString => EmptyString
  | String c r => String (toLowerChar c) (toLowerCase r)
  end.

(** [Number.prototype.toString] on an integer (below 1e21 in magnitude,
    where JavaScript prints plain decimal digits). *)
Definition toString (n : Z) : string := pretty n.

Definition isWhiteSpace (c : ascii) : bool :=
  let n := N_of_ascii c in
  ((n =? 32) || ((9 <=? n) && (n <=? 13)))%N.

Fixpoint trimStart (s : string) : string :=
  match s with
  | String c r => if isWhiteSpace c then trimStart r else s
  | EmptyString => EmptyString
  end.

Definition digitOf (c : ascii) : option N :=
  let n := N_of_ascii c in
  if ((48 <=? n) && (n <=? 57))%N then Some (n - 48)%N else None.

Definition hexDigitOf (c : ascii) : option N :=
  let n := N_of_ascii c in
  if ((48 <=? n) && (n <=? 57))%N then Some (n - 48)%N
  else if ((97 <=? n) && (n <=? 102))%N then Some (n - 87)%N
  else if ((65 <=? n) && (n <=? 70))%N then Some (n - 55)%N
  else None.

(** The longest prefix of digits of [s], read in base [radix] after the
    digits already accumulated in [acc]. *)
Fixpoint parseDigits (digit : ascii -> option N) (radix acc : N) (s : string) : N :=
  match s with
  | String c r =>
      match digit c with
      | Some d => parseDigits digit radix (radix * acc + d)%N r
      | None => acc
      end
  | EmptyString => acc
  end.

(** [None] stands for [NaN]: no digit could be read. *)
Definition parseMagnitude (digit : ascii -> option N) (radix : N) (s : string) : option N :=
  match s with
  | String c r =>
      match digit c with
      | Some d => Some (parseDigits digit radix d r)
      | None => None
      end
  | EmptyString => None
  end.

(** [parseInt(s)] with no radix argument: leading white space, an optional
    sign, an optional [0x] prefix, then as many digits as there are. *)
Definition parseInt (s : string) : option Z :=
  let s1 := trimStart s in
  let '(negative, s2) :=
    match s1 with
    | String "-"%char r => (true, r)
    | String "+"%char r => (false, r)
    | _ => (false, s1)
    end in
  let magnitude :=
    match s2 with
    | String "0"%char (String "x"%char r) => parseMagnitude hexDigitOf 16 r
    | String "0"%char (String "X"%char r) => parseMagnitude hexDigitOf 16 r
    | _ => parseMagnitude digitOf 10 s2
    end in
  (fun m => if negative : bool then - Z.of_N m else Z.of_N m) <$> magnitude.

(** A JavaScript [number] holding an integer or [NaN] ([None]). *)
Definition number := option Z.

(** [a >= b], where [b] may be [undefined] ([None]): the comparison is then
    false. *)
Definition geq (a : Z) (b : option Z) : bool :=
  match b with
  | Some b => b <=? a
  | None => false
  end.

End Js.

(** ** Entities *)

Inductive Status := pending | confirming | confirmed.

Global Instance Status_eq_dec : EqDecision Status.
Proof. solve_decision. Defined.

Module Token.
Record t := mk {
  id : string;
  symbol : string;
  baseSymbol : option string;
  blockchain : string;
  contractAddress : option string;
  networkVersion : string;
  decimals : Z;
  isActive : bool
}.
End Token.

Module Wallet.
Record t := mk {
  id : string;
  userId : string;
  address : string;
  blockchain : string;
  network : string
}.
End Wallet.

Module WalletBalance.
Record t := mk {
  userId : string;
  baseSymbol : string;
  type : string;
  balance : string
}.
Definition setBalance (b : t) (v : string) : t :=
  mk (userId b) (baseSymbol b) (type b) v.
End WalletBalance.

Module Deposit.
Record Metadata := mkMetadata {
  from : string;
  contractAddress : option string;
  blockHash : option string
}.

(** [createdAt] and [updatedAt] are left out: nothing reads them. *)
Record t := mk {
  id : N;
  userId : string;
  walletId : string;
  tokenId : string;
  txHash : string;
  amount : string;
  blockchain : string;
  network : string;
  networkVersion : string;
  blockNumber : option Z;
  status : Status;
  confirmations : Z;
  metadata : Metadata
}.

Definition withId (i : N) (d : t) : t :=
  mk i (userId d) (walletId d) (tokenId d) (txHash d) (amount d) (blockchain d)
     (network d) (networkVersion d) (blockNumber d) (status d) (confirmations d)
     (metadata d).

(** The partial entity of [depositRepository.update(id, {confirmations, status})]. *)
Definition setProgress (c : Z) (st : Status) (d : t) : t :=
  mk (id d) (userId d) (walletId d) (tokenId d) (txHash d) (amount d) (blockchain d)
     (network d) (networkVersion d) (blockNumber d) st c (metadata d).

(** The columns of invariant I1. *)
Definition key (d : t) : string * string * string := (txHash d, walletId d, tokenId d).
End Deposit.

(** One committed ledger transaction of [updateWalletBalance]. *)
Record Credit := mkCredit {
  creditDeposit : N;
  creditUser : string;
  creditSymbol : string;
  creditAmount : string
}.

(** ** The store behind the repositories *)

Record Store := mkStore {
  deposits : list Deposit.t;
  (** the sequence that numbers inserted deposit rows *)
  depositSeq : N;
  (** whether the [deposits] table carries the unique index on
      [(txHash, walletId, tokenId)]; the service never changes it *)
  depositsUniqueIndex : bool;
  walletBalances : list WalletBalance.t;
  tokens : list Token.t;
  wallets : list Wallet.t;
  systemSettings : gmap string string;
  (** ghost: the credit transactions committed so far, latest first; the
      service keeps no such record, it is here to count credits *)
  ledger : list Credit
}.

Definition setDeposits (ds : list Deposit.t) (n : N) (s : Store) : Store :=
  mkStore ds n (depositsUniqueIndex s) (walletBalances s) (tokens s) (wallets s)
          (systemSettings s) (ledger s).

Definition setSystemSettings (m : gmap string string) (s : Store) : Store :=
  mkStore (deposits s) (depositSeq s) (depositsUniqueIndex s) (walletBalances s)
          (tokens s) (wallets s) m (ledger s).

Definition setWalletBalances (bs : list WalletBalance.t) (l : list Credit) (s : Store) : Store :=
  mkStore (deposits s) (depositSeq s) (depositsUniqueIndex s) bs (tokens s) (wallets s)
          (systemSettings s) l.

(** ** Asynchronous methods: state and exceptions *)

Record Error := mkError {
  message : string;
  (** [error.response?.status] *)
  responseStatus : option Z
}.

Definition error (msg : string) : Error := mkError msg None.

Inductive Result (A : Type) :=
| Ok (a : A)
| Thrown (e : Error).
Arguments Ok {A} a.
Arguments Thrown {A} e.

Definition M (A : Type) : Type := Store -> Result A * Store.

Global Instance M_ret : MRet M := fun A a s => (Ok a, s).

Global Instance M_bind : MBind M := fun A B f m s =>
  match m s with
  | (Ok a, s') => f a s'
  | (Thrown e, s') => (Thrown e, s')
  end.

Definition throw {A} (e : Error) : M A := fun s => (Thrown e, s).

Definition gets {A} (f : Store -> A) : M A := fun s => (Ok (f s), s).

Definition modify (f : Store -> Store) : M unit := fun s => (Ok tt, f s).

(** [try { m } catch (error) { h error }] *)
Definition tryCatch {A} (m : M A) (h : Error -> M A) : M A := fun s =>
  match m s with
  | (Ok a, s') => (Ok a, s')
  | (Thrown e, s') => h e s'
  end.

(** [manager.transaction(async manager => m)]: a throw rolls the store back. *)
Definition transaction {A} (m : M A) : M A := fun s =>
  match m s with
  | (Ok a, s') => (Ok a, s')
  | (Thrown e, _) => (Thrown e, s)
  end.

(** [for (const x of l) { body x }]; [continue] is an early return of [body]. *)
Fixpoint forEach {X} (l : list X) (body : X -> M unit) : M unit :=
  match l with
  | [] => mret tt
  | x :: r => body x ;; forEach r body
  end.

(** The values [i] takes in [for (let i = init; i <= bound; i += step)], for
    a positive [step]: none when [bound < init], else [init] followed by
    the values of the loop from [init + step]. *)
Definition range (init bound step : Z) : list Z :=
  if bound <? init then []
  else (fun k => init + step * k) <$> seqZ 0 ((bound - init) / step + 1).

Definition store_of {A} (r : Result A * Store) : Store := snd r.
Definition result_of {A} (r : Result A * Store) : Result A := fst r.

(** An oracle's answer lifted into the monad: a rejected promise throws. *)
Definition await {A} (r : Result A) : M A := fun s => (r, s).

(** ** Libraries the service calls *)

Module Ethers.

(** [while (fraction.length < n) fraction = "0" + fraction] *)
Definition padStart (n : nat) (s : string) : string :=
  string_of_list_ascii (replicate (n - String.length s) "0"%char) +:+ s.

Fixpoint dropZeros (l : list ascii) : list ascii :=
  match l with
  | c :: r => if bool_decide (c = "0"%char) then dropZeros r else l
  | [] => []
  end.

(** The first group of the regular expression that [formatFixed] matches
    its fraction digits against: the zeros at the end are dropped, one is
    kept when nothing else is left. *)
Definition stripTrailingZeros (s : string) : string :=
  match rev (dropZeros (rev (list_ascii_of_string s))) with
  | [] => "0"
  | l => string_of_list_ascii l
  end.

(** [utils.formatUnits(value, decimals)] of ethers v5 ([formatFixed]). *)
Definition formatUnits (value decimals : Z) : string :=
  let multiplier := 10 ^ decimals in
  let negative := value <? 0 in
  let v := Z.abs value in
  let fraction :=
    stripTrailingZeros (padStart (Z.to_nat decimals) (Js.toString (v mod multiplier))) in
  let whole := Js.toString (v / multiplier) in
  let r := if decimals =? 0 then whole else whole +:+ "." +:+ fraction in
  if negative then "-" +:+ r else r.

End Ethers.

(** ** Chain providers

    What a provider answers is outside the service: each is an oracle.  A
    rejected promise is [Thrown], [null] is [None].  Calls that are retried
    take the number of the attempt. *)

Module Evm.
(** A receipt log as [contract.interface.parseLog] sees it with the ERC-20
    ABI: a [Transfer] event, or a log it cannot parse. *)
Inductive Log :=
| Transfer (from to : string) (value : Z)
| Unparsed.

Record Receipt := mkReceipt { logs : list Log }.

Record TransactionResponse := mkTx {
  hash : string;
  to : option string;
  from : string;
  data : string;
  value : Z;
  blockNumber : option Z;
  blockHash : option string;
  (** [tx.wait()] *)
  wait : Result (option Receipt)
}.

Record Block := mkBlock { transactions : list string }.

Record Provider := mkProvider {
  getBlock : Z -> Result (option Block);
  getTransaction : string -> nat -> Result (option TransactionResponse)
}.
End Evm.

Module Bitcoin.
Record Vout := mkVout {
  (** [output.value.toString()]: the amount in BTC as JSON carries it *)
  value : string;
  (** [output.scriptPubKey.addresses] *)
  addresses : option (list string)
}.

(** [vin[i].scriptSig?.addresses] *)
Record Vin := mkVin { scriptSigAddresses : option (list string) }.

Record Tx := mkTx {
  txid : string;
  vout : list Vout;
  vin : list Vin;
  blockHeight : option Z;
  blockHash : option string
}.

Record Block := mkBlock {
  tx : option (list Tx);
  height : Z;
  hash : string
}.

Record Provider := mkProvider {
  (** [getBitcoinBlockHeight]: the [getblockcount] call *)
  getblockcount : Result Z;
  (** [getBitcoinBlock]: [getblockhash] then [getblock] at verbosity 2 *)
  getblock : Z -> Result (option Block)
}.
End Bitcoin.

Module Tron.
(** [tx.raw_data.contract[0]] with its [parameter.value] *)
Record Contract := mkContract {
  type : string;
  to_address : string;
  owner_address : string;
  amount : Z;
  asset_name : option string
}.

Record Tx := mkTx {
  txID : string;
  contract0 : option Contract
}.

Record Block := mkBlock {
  (** [block.block_header.raw_data.number] *)
  number : Z;
  blockID : string;
  transactions : option (list Tx)
}.

Record TronWeb := mkTronWeb {
  getCurrentBlock : Result Block;
  getBlock : Z -> nat -> Result (option Block);
  (** [tronWeb.address.fromHex] *)
  fromHex : string -> string
}.
End Tron.

Module Xrp.
(** [Amount] is the drops string of a native payment; the amount object of
    an issued currency is outside this model. *)
Record Tx := mkTx {
  TransactionType : string;
  Account : string;
  Destination : string;
  Amount : string;
  hash : string;
  ledger_index : option Z;
  ledger_hash : option string
}.

Record Client := mkClient {
  (** [server_info]: [result.info.validated_ledger.seq] *)
  validatedLedger : Result Z;
  (** the [ledger] command: [result.ledger.transactions] *)
  ledgerTransactions : Z -> Result (option (list Tx))
}.
End Xrp.

(** [this.providers], by network. *)
Record Providers := mkProviders {
  btc : string -> option Bitcoin.Provider;
  trx : string -> option Tron.TronWeb;
  xrp : string -> option Xrp.Client
}.

(** ** Constant tables of the service *)

Definition CONFIRMATION_BLOCKS (chainKey : string) : option (string -> option Z) :=
  let row (mainnet testnet : Z) := fun network : string =>
    if bool_decide (network = "mainnet") then Some mainnet
    else if bool_decide (network = "testnet") then Some testnet
    else None in
  if bool_decide (chainKey = "eth") then Some (row 12 5)
  else if bool_decide (chainKey = "bsc") then Some (row 15 6)
  else if bool_decide (chainKey = "btc") then Some (row 3 2)
  else if bool_decide (chainKey = "trx") then Some (row 20 10)
  else if bool_decide (chainKey = "xrp") then Some (row 4 2)
  else None.

Definition CHAIN_KEYS (chain : string) : option string :=
  if bool_decide (chain = "eth") then Some "eth"
  else if bool_decide (chain = "bsc") then Some "bsc"
  else if bool_decide (chain = "bitcoin") then Some "btc"
  else if bool_decide (chain = "trx") then Some "trx"
  else if bool_decide (chain = "xrp") then Some "xrp"
  else None.

(** ** Repositories *)

(** [depositRepository.find] of the two confirmation updaters *)
Definition findPendingDeposits (chain network : string) (s : Store) : list Deposit.t :=
  filter (fun d => Deposit.blockchain d = chain /\ Deposit.network d = network /\
                   (Deposit.status d = pending \/ Deposit.status d = confirming) /\
                   Deposit.blockNumber d <> None)
         (deposits s).

(** [depositRepository.update(id, {confirmations, status})] *)
Definition updateDeposit (i : N) (c : Z) (st : Status) : M unit :=
  modify (fun s =>
    setDeposits
      ((fun d => if bool_decide (Deposit.id d = i) then Deposit.setProgress c st d else d)
         <$> deposits s)
      (depositSeq s) s).

(** Modelled from the spec: the [Deposit] entity, which declares the indexes
    of the [deposits] table, is not among the sources; the persisted schema
    of the specification gives the table a unique index on
    [(txHash, walletId, tokenId)].  [depositRepository.save] of an entity
    with no [id] is an INSERT; with the index present
    ([depositsUniqueIndex]) a row with the same three columns makes it fail. *)
Definition saveDeposit (row : Deposit.t) : M unit := fun s =>
  if depositsUniqueIndex s && bool_decide (Deposit.key row ∈ Deposit.key <$> deposits s)
  then (Thrown (error "duplicate key value violates unique constraint"), s)
  else (Ok tt, setDeposits (deposits s ++ [Deposit.withId (depositSeq s) row])
                           (N.succ (depositSeq s)) s).

(** [walletRepository.find({ where: { blockchain, network } })] *)
Definition findWallets (chain network : string) : M (list Wallet.t) :=
  gets (fun s => filter (fun w => Wallet.blockchain w = chain /\ Wallet.network w = network)
                        (wallets s)).

(** [tokenRepository.findOne({ where })] *)
Definition findOneToken (where_ : Token.t -> Prop) `{!forall t, Decision (where_ t)}
  : M (option Token.t) :=
  gets (fun s => head (filter where_ (tokens s))).

(** The entity a new deposit row is saved from; the store assigns the [id]. *)
Definition newDeposit (userId walletId tokenId txHash amount chain network networkVersion : string)
    (blockNumber : option Z) (meta : Deposit.Metadata) : Deposit.t :=
  Deposit.mk 0%N userId walletId tokenId txHash amount chain network networkVersion
             blockNumber pending 0 meta.

(** ** The service *)

Section Service.

(** [new Decimal(a).plus(b).toString()] of decimal.js; [None] when the
    library rejects an operand. *)
Variable decimalPlus : string -> string -> option string.

(** [(amount / Math.pow(10, decimals)).toString()] on JavaScript numbers. *)
Variable quotientToString : Z -> Z -> string.

Variable providers : Providers.

(** *** Checkpoints *)

Definition getLastProcessedBlock (chain network : string) : M Js.number :=
  let chainKey :=
    if bool_decide (Js.toLowerCase chain = "bitcoin") then "btc" else Js.toLowerCase chain in
  let key := "last_processed_block_" +:+ chainKey +:+ "_" +:+ network in
  setting ← gets (fun s => systemSettings s !! key);
  mret (match setting with
        | Some value => Js.parseInt value
        | None => Some 0
        end).

Definition saveLastProcessedBlock (chain network : string) (blockNumber : Z) : M unit :=
  let chainKey :=
    if bool_decide (Js.toLowerCase chain = "bitcoin") then "btc" else Js.toLowerCase chain in
  let key := "last_processed_block_" +:+ chainKey +:+ "_" +:+ network in
  tryCatch
    (modify (fun s =>
       setSystemSettings (<[key := Js.toString blockNumber]> (systemSettings s)) s) ;;
     saved ← gets (fun s => systemSettings s !! key);
     match saved with
     | Some value =>
         if bool_decide (Js.parseInt value = Some blockNumber) then mret tt
         else throw (error ("Block save verification failed for " +:+ chainKey
                              +:+ " " +:+ network))
     | None => throw (error ("Block save verification failed for " +:+ chainKey
                               +:+ " " +:+ network))
     end)
    (fun e => throw e).

(** *** Crediting and confirmations *)

(** [token.baseSymbol || token.symbol] *)
Definition balanceSymbol (token : Token.t) : string :=
  match Token.baseSymbol token with
  | Some b => if bool_decide (b = "") then Token.symbol token else b
  | None => Token.symbol token
  end.

(** The row [manager.findOne(WalletBalance, ...)] returns, by position. *)
Fixpoint findBalance (userId symbol : string) (bs : list WalletBalance.t) : option nat :=
  match bs with
  | [] => None
  | b :: r =>
      if bool_decide (WalletBalance.userId b = userId /\
                      WalletBalance.baseSymbol b = symbol /\
                      WalletBalance.type b = "spot")
      then Some O else S <$> findBalance userId symbol r
  end.

Definition updateWalletBalance (deposit : Deposit.t) : M unit :=
  transaction
    (token ← gets (fun s =>
       head (filter (fun t => Token.id t = Deposit.tokenId deposit) (tokens s)));
     match token with
     | None => throw (error "Cannot read properties of null")
     | Some token =>
         bs ← gets walletBalances;
         match findBalance (Deposit.userId deposit) (balanceSymbol token) bs with
         | None => throw (error "Wallet balance not found")
         | Some i =>
             match bs !! i with
             | None => throw (error "Wallet balance not found")
             | Some balance =>
                 match decimalPlus (WalletBalance.balance balance) (Deposit.amount deposit) with
                 | None => throw (error "[DecimalError] Invalid argument")
                 | Some sum =>
                     modify (fun s =>
                       setWalletBalances
                         (<[i := WalletBalance.setBalance balance sum]> (walletBalances s))
                         (mkCredit (Deposit.id deposit) (Deposit.userId deposit)
                                   (balanceSymbol token) (Deposit.amount deposit)
                            :: ledger s)
                         s)
                 end
             end
         end
     end).

(** The body of the loop that both updaters run on each deposit found. *)
Definition confirmDeposit (required : M (option Z)) (currentBlock : Z) (deposit : Deposit.t)
  : M unit :=
  let confirmations := currentBlock - default 0 (Deposit.blockNumber deposit) in
  requiredConfirmations ← required;
  updateDeposit (Deposit.id deposit) confirmations
    (if Js.geq confirmations requiredConfirmations then confirmed else confirming) ;;
  if Js.geq confirmations requiredConfirmations
     && negb (bool_decide (Deposit.status deposit = confirmed))
  then updateWalletBalance deposit
  else mret tt.

Definition updateEvmConfirmations (chain network : string) (currentBlock : Z) : M unit :=
  tryCatch
    (let chainKey := default chain (CHAIN_KEYS chain) in
     found ← gets (findPendingDeposits chain network);
     forEach found
       (confirmDeposit
          (match CONFIRMATION_BLOCKS chainKey with
           | Some row => mret (row network)
           | None => throw (error "Cannot read properties of undefined")
           end)
          currentBlock))
    (fun _ => mret tt).

Definition updateTronConfirmations (network : string) (currentBlock : Z) : M unit :=
  tryCatch
    (found ← gets (findPendingDeposits "trx" network);
     forEach found
       (confirmDeposit
          (mret (match CONFIRMATION_BLOCKS "trx" with
                 | Some row => row network
                 | None => None
                 end))
          currentBlock))
    (fun _ => mret tt).

(** *** EVM chains *)

(** The loop shared by [getEvmTransactionWithRetry] and
    [getTronBlockWithRetry]: attempt [i] of [retries], [remaining] more
    iterations to go; falling out of the loop returns [null]. *)
Fixpoint retryLoop {A} (call : nat -> Result (option A)) (retries i : nat) (remaining : nat)
  : Result (option A) :=
  match remaining with
  | O => Ok None
  | S k =>
      match call i with
      | Ok a => Ok a
      | Thrown e =>
          if bool_decide (i = (retries - 1)%nat) then Thrown e
          else retryLoop call retries (S i) k
      end
  end.

Definition getEvmTransactionWithRetry (provider : Evm.Provider) (txHash : string)
  : M (option Evm.TransactionResponse) :=
  await (retryLoop (Evm.getTransaction provider txHash) 3 0 3).

Definition getTokenForTransaction (chain : string) (tx : Evm.TransactionResponse)
  : M (option Token.t) :=
  tryCatch
    (match Evm.to tx with
     | None => mret None
     | Some to =>
         if bool_decide (to = "") then mret None
         else if bool_decide (Evm.data tx = "") || bool_decide (Evm.data tx = "0x") then
           findOneToken (fun t => Token.blockchain t = chain /\
                                  Token.networkVersion t = "NATIVE" /\
                                  Token.isActive t = true)
         else
           findOneToken (fun t => Token.blockchain t = chain /\
                                  Token.contractAddress t = Some (Js.toLowerCase to) /\
                                  Token.isActive t = true)
     end)
    (fun _ => mret None).

(** [logs.find(log => parseLog(log)?.name === 'Transfer')] *)
Fixpoint findTransfer (logs : list Evm.Log) : option Z :=
  match logs with
  | [] => None
  | Evm.Transfer _ _ value :: _ => Some value
  | Evm.Unparsed :: r => findTransfer r
  end.

Definition getTransactionAmount (tx : Evm.TransactionResponse) (token : Token.t)
  : M (option string) :=
  tryCatch
    (if bool_decide (Token.networkVersion token = "NATIVE") then
       mret (Some (Ethers.formatUnits (Evm.value tx) (Token.decimals token)))
     else
       receipt ← await (Evm.wait tx);
       match receipt ≫= (fun r => findTransfer (Evm.logs r)) with
       | None => mret None
       | Some value => mret (Some (Ethers.formatUnits value (Token.decimals token)))
       end)
    (fun _ => mret None).

Definition processEvmTransaction (chain network : string) (tx : Evm.TransactionResponse)
  : M unit :=
  tryCatch
    (found ← findWallets chain network;
     (* walletMap: the last wallet listed under a lowercased address wins *)
     let walletMap (a : string) :=
       last (filter (fun w => Js.toLowerCase (Wallet.address w) = a) found) in
     match Js.toLowerCase <$> Evm.to tx with
     | None => mret tt
     | Some toAddress =>
         if bool_decide (toAddress = "") then mret tt
         else
           match walletMap toAddress with
           | None => mret tt
           | Some wallet =>
               token ← getTokenForTransaction chain tx;
               match token with
               | None => mret tt
               | Some token =>
                   amount ← getTransactionAmount tx token;
                   match amount with
                   | None => mret tt
                   | Some amount =>
                       if bool_decide (amount = "") then mret tt
                       else
                         saveDeposit
                           (newDeposit (Wallet.userId wallet) (Wallet.id wallet)
                              (Token.id token) (Evm.hash tx) amount chain network
                              (Token.networkVersion token) (Evm.blockNumber tx)
                              (Deposit.mkMetadata (Evm.from tx)
                                 (Token.contractAddress token) (Evm.blockHash tx)))
                   end
               end
           end
     end)
    (fun _ => mret tt).

Definition processEvmBlock (chain network : string) (blockNumber : Z)
    (provider : Evm.Provider) : M unit :=
  tryCatch
    (block ← await (Evm.getBlock provider blockNumber);
     match block with
     | None => mret tt
     | Some block =>
         forEach (Evm.transactions block) (fun txHash =>
           tryCatch
             (tx ← getEvmTransactionWithRetry provider txHash;
              match tx with
              | Some tx => processEvmTransaction chain network tx
              | None => mret tt
              end)
             (fun _ => mret tt)) ;;
         tryCatch
           (saveLastProcessedBlock chain network blockNumber ;;
            _ ← getLastProcessedBlock chain network;
            mret tt)
           (fun e => throw e)
     end)
    (fun e => throw e).

(** One drain of the block queue of a chain, run to the end. *)
Definition processQueueForChain (chain network : string) (provider : Evm.Provider)
    (queue : list Z) : M unit :=
  forEach queue (fun blockNumber =>
    tryCatch (processEvmBlock chain network blockNumber provider) (fun _ => mret tt)).

(** *** Bitcoin *)

Definition getBitcoinTokenId : M string :=
  token ← findOneToken (fun t => Token.symbol t = "BTC" /\ Token.networkVersion t = "NATIVE");
  match token with
  | None => throw (error "Bitcoin token not found in database")
  | Some token => mret (Token.id token)
  end.

(** [tx.vin[0]?.scriptSig?.addresses?.[0] || 'unknown'] *)
Definition bitcoinSender (tx : Bitcoin.Tx) : string :=
  match head (Bitcoin.vin tx) with
  | Some input =>
      match Bitcoin.scriptSigAddresses input with
      | Some (a :: _) => if bool_decide (a = "") then "unknown" else a
      | _ => "unknown"
      end
  | None => "unknown"
  end.

Definition processBitcoinTransaction (chain network : string) (tx : Bitcoin.Tx) : M unit :=
  tryCatch
    (found ← findWallets chain network;
     forEach (Bitcoin.vout tx) (fun output =>
       forEach (default [] (Bitcoin.addresses output)) (fun address =>
         if bool_decide (address ∈ Wallet.address <$> found) then
           match head (filter (fun w => Wallet.address w = address) found) with
           | None => mret tt
           | Some wallet =>
               tokenId ← getBitcoinTokenId;
               saveDeposit
                 (newDeposit (Wallet.userId wallet) (Wallet.id wallet) tokenId
                    (Bitcoin.txid tx) (Bitcoin.value output) chain network "NATIVE"
                    (Bitcoin.blockHeight tx)
                    (Deposit.mkMetadata (bitcoinSender tx) None (Bitcoin.blockHash tx)))
           end
         else mret tt)))
    (fun e => throw e).

Definition processBitcoinBlock (chain network : string) (block : Bitcoin.Block) : M unit :=
  match Bitcoin.tx block with
  | None => mret tt
  | Some txs =>
      tryCatch
        (forEach txs (processBitcoinTransaction chain network) ;;
         saveLastProcessedBlock chain network (Bitcoin.height block) ;;
         _ ← getLastProcessedBlock chain network;
         mret tt)
        (fun e => throw e)
  end.

Definition checkBitcoinBlocks (network : string) : M unit :=
  tryCatch
    (let chain := "bitcoin" in
     match btc providers network with
     | None => mret tt
     | Some provider =>
         currentHeight ← await (Bitcoin.getblockcount provider);
         lastProcessedBlock ← getLastProcessedBlock chain network;
         match lastProcessedBlock with
         | None => mret tt
         | Some lastProcessedBlock =>
             let batchSize := 50 in
             forEach (range (lastProcessedBlock + 1) currentHeight batchSize) (fun height =>
               let endBlock := Z.min (height + batchSize - 1) currentHeight in
               forEach (range height endBlock 1) (fun blockNum =>
                 block ← await (Bitcoin.getblock provider blockNum);
                 match block with
                 | None => mret tt
                 | Some block => processBitcoinBlock chain network block
                 end))
         end
     end)
    (fun e => throw e).

(** *** Tron *)

Definition getTronBlockWithRetry (tronWeb : Tron.TronWeb) (height : Z) (maxRetries : nat)
  : M (option Tron.Block) :=
  await (retryLoop (Tron.getBlock tronWeb height) maxRetries 0 maxRetries).

Definition getTronToken (contractType : string) (assetName : option string)
  : M (option Token.t) :=
  if bool_decide (contractType = "TransferContract") then
    findOneToken (fun t => Token.blockchain t = "trx" /\
                           Token.networkVersion t = "NATIVE" /\
                           Token.isActive t = true)
  else
    match assetName with
    | Some name =>
        if bool_decide (contractType = "TransferAssetContract") && negb (bool_decide (name = ""))
        then findOneToken (fun t => Token.blockchain t = "trx" /\
                                    Token.networkVersion t = "TRC20" /\
                                    Token.symbol t = name /\
                                    Token.isActive t = true)
        else mret None
    | None => mret None
    end.

Definition processTronBlock (network : string) (block : Tron.Block) : M unit :=
  tryCatch
    (found ← findWallets "trx" network;
     let tronWeb := trx providers network in
     forEach (default [] (Tron.transactions block)) (fun tx =>
       match Tron.contract0 tx with
       | None => mret tt
       | Some contract =>
           if bool_decide (Tron.type contract = "TransferContract")
              || bool_decide (Tron.type contract = "TransferAssetContract")
           then
             match tronWeb with
             | None => throw (error "Cannot read properties of undefined")
             | Some tronWeb =>
                 let toAddress := Tron.fromHex tronWeb (Tron.to_address contract) in
                 if bool_decide (toAddress ∈ Wallet.address <$> found) then
                   match head (filter (fun w => Wallet.address w = toAddress) found) with
                   | None => mret tt
                   | Some wallet =>
                       token ← getTronToken (Tron.type contract) (Tron.asset_name contract);
                       match token with
                       | None => mret tt
                       | Some token =>
                           saveDeposit
                             (newDeposit (Wallet.userId wallet) (Wallet.id wallet)
                                (Token.id token) (Tron.txID tx)
                                (quotientToString (Tron.amount contract) (Token.decimals token))
                                "trx" network (Token.networkVersion token)
                                (Some (Tron.number block))
                                (Deposit.mkMetadata
                                   (Tron.fromHex tronWeb (Tron.owner_address contract))
                                   (Token.contractAddress token)
                                   (Some (Tron.blockID block))))
                       end
                   end
                 else mret tt
             end
           else mret tt
       end))
    (fun _ => mret tt).

Definition checkTronBlocks (network : string) (tronWeb : Tron.TronWeb) : M unit :=
  tryCatch
    (currentBlock ← await (Tron.getCurrentBlock tronWeb);
     lastProcessedBlock ← getLastProcessedBlock "trx" network;
     let currentBlockNumber := Tron.number currentBlock in
     match lastProcessedBlock with
     | None => mret tt
     | Some lastProcessedBlock =>
         let batchSize := 5 in
         let startBlock := lastProcessedBlock + 1 in
         let endBlock := Z.min (startBlock + batchSize) currentBlockNumber in
         forEach (range startBlock endBlock 1) (fun height =>
           tryCatch
             (block ← getTronBlockWithRetry tronWeb height 3;
              match block with
              | None => mret tt
              | Some block =>
                  processTronBlock network block ;;
                  updateTronConfirmations network height ;;
                  saveLastProcessedBlock "trx" network height
              end)
             (fun e =>
                (* a 403 waits two seconds, anything else is logged: the loop goes on *)
                if bool_decide (responseStatus e = Some 403) then mret tt else mret tt))
     end)
    (fun _ => mret tt).

(** *** XRP Ledger *)

Definition getXrpTokenId : M string :=
  token ← findOneToken (fun t => Token.symbol t = "XRP" /\ Token.networkVersion t = "NATIVE");
  match token with
  | None => throw (error "XRP token not found in database")
  | Some token => mret (Token.id token)
  end.

Definition processXrpTransaction (chain network : string) (tx : Xrp.Tx) : M unit :=
  tryCatch
    (if negb (bool_decide (Xrp.TransactionType tx = "Payment")) then mret tt
     else
       found ← findWallets chain network;
       if bool_decide (Xrp.Destination tx ∈ Wallet.address <$> found) then
         match head (filter (fun w => Wallet.address w = Xrp.Destination tx) found) with
         | None => mret tt
         | Some wallet =>
             tokenId ← getXrpTokenId;
             saveDeposit
               (newDeposit (Wallet.userId wallet) (Wallet.id wallet) tokenId (Xrp.hash tx)
                  (Xrp.Amount tx) chain network "NATIVE" (Xrp.ledger_index tx)
                  (Deposit.mkMetadata (Xrp.Account tx) None (Xrp.ledger_hash tx)))
         end
       else mret tt)
    (fun _ => mret tt).

Definition processXrpLedger (chain network : string) (ledgerIndex : Z) : M unit :=
  tryCatch
    (match xrp providers network with
     | None => throw (error "Cannot read properties of undefined")
     | Some provider =>
         transactions ← await (Xrp.ledgerTransactions provider ledgerIndex);
         forEach (default [] transactions) (processXrpTransaction chain network)
     end)
    (fun _ => mret tt).

Definition checkXrpBlocks (network : string) : M unit :=
  tryCatch
    (match xrp providers network with
     | None => mret tt
     | Some provider =>
         currentLedger ← await (Xrp.validatedLedger provider);
         lastProcessedBlock ← getLastProcessedBlock "xrp" network;
         match lastProcessedBlock with
         | None => mret tt
         | Some lastProcessedBlock =>
             forEach (range (lastProcessedBlock + 1) currentLedger 1) (fun ledgerIndex =>
               processXrpLedger "xrp" network ledgerIndex ;;
               saveLastProcessedBlock "xrp" network ledgerIndex)
         end
     end)
    (fun _ => mret tt).

End Service.

(** ** Reference instances for the examples

    Exact decimal arithmetic on plain numerals, to run the service on
    concrete stores.  decimal.js computes the same sum when it has at most
    twenty significant digits; JavaScript prints the same quotient when the
    exact expansion is also the shortest numeral of the double. *)

Module Reference.

Fixpoint digitsValue (acc : Z) (l : list ascii) : option Z :=
  match l with
  | [] => Some acc
  | c :: r =>
      match Js.digitOf c with
      | Some d => digitsValue (10 * acc + Z.of_N d) r
      | None => None
      end
  end.

Fixpoint splitAtPoint (l : list ascii) : list ascii * list ascii :=
  match l with
  | [] => ([], [])
  | c :: r =>
      if bool_decide (c = "."%char) then ([], r)
      else let '(w, f) := splitAtPoint r in (c :: w, f)
  end.

(** A numeral as mantissa and number of fraction digits. *)
Definition parse (s : string) : option (Z * nat) :=
  let '(negative, body) :=
    match list_ascii_of_string s with
    | "-"%char :: r => (true, r)
    | l => (false, l)
    end in
  let '(w, f) := splitAtPoint body in
  match (w ++ f)%list with
  | [] => None
  | ds => (fun m => (if negative : bool then - m else m, length f)) <$> digitsValue 0 ds
  end.

Definition dropPointZero (s : string) : string :=
  match rev (list_ascii_of_string s) with
  | "0"%char :: "."%char :: r => string_of_list_ascii (rev r)
  | _ => s
  end.

Definition print (m : Z) (scale : nat) : string :=
  dropPointZero (Ethers.formatUnits m (Z.of_nat scale)).

Definition decimalPlus (a b : string) : option string :=
  match parse a, parse b with
  | Some (ma, sa), Some (mb, sb) =>
      let s := Nat.max sa sb in
      Some (print (ma * 10 ^ Z.of_nat (s - sa) + mb * 10 ^ Z.of_nat (s - sb)) s)
  | _, _ => None
  end.

Definition quotientToString (amount decimals : Z) : string :=
  print amount (Z.to_nat decimals).

End Reference.

(** ** Notions used to state the properties *)

(** Running [m] from a store where [P] holds gives a store where it holds,
    whether [m] returns or throws. *)
Definition preserves {A} (P : Store -> Prop) (m : M A) : Prop :=
  forall s, P s -> P (store_of (m s)).

(** The checkpoint key as the specification words it. *)
Definition specChainKey (name : string) : string :=
  if bool_decide (name = "bitcoin") then "btc" else name.

Definition specCheckpointKey (chainKey network : string) : string :=
  "last_processed_block_" +:+ chainKey +:+ "_" +:+ network.

(** The stored checkpoint of a chain, as [getLastProcessedBlock] reads it. *)
Definition checkpoint (chain network : string) (s : Store) : Js.number :=
  match systemSettings s !! specCheckpointKey (specChainKey (Js.toLowerCase chain)) network with
  | Some value => Js.parseInt value
  | None => Some 0
  end.

(** Rows added by block processing: pending, no confirmation yet. *)
Definition fresh (d : Deposit.t) : Prop :=
  Deposit.status d = pending /\ Deposit.confirmations d = 0.

(** *** Confirmation passes *)

(** The required confirmations as [updateEvmConfirmations] looks them up:
    a missing chain key makes the lookup throw, a missing network gives
    [undefined]. *)
Definition evmRequired (chain network : string) : Result (option Z) :=
  match CONFIRMATION_BLOCKS (default chain (CHAIN_KEYS chain)) with
  | Some row => Ok (row network)
  | None => Thrown (error "Cannot read properties of undefined")
  end.

(** What [depositRepository.update] does to a row. *)
Definition updated (i : N) (c : Z) (st : Status) (d : Deposit.t) : Deposit.t :=
  if bool_decide (Deposit.id d = i) then Deposit.setProgress c st d else d.

(** The status the updater writes for [confirmations]. *)
Definition statusFor (confirmations : Z) (required : option Z) : Status :=
  if Js.geq confirmations required then confirmed else confirming.

(** The credits of a deposit in the ledger. *)
Definition creditsOf (i : N) (s : Store) : list Credit :=
  filter (fun c => creditDeposit c = i) (ledger s).

(** Deposit [i] is stored and confirmed. *)
Definition confirmedIn (i : N) (s : Store) : Prop :=
  (exists d, d ∈ deposits s /\ Deposit.id d = i)
  /\ forall d, d ∈ deposits s -> Deposit.id d = i -> Deposit.status d = confirmed.

(** The primary key of [deposits]: distinct ids, all below the sequence. *)
Definition wfIds (s : Store) : Prop :=
  NoDup (Deposit.id <$> deposits s)
  /\ forall d, d ∈ deposits s -> (Deposit.id d < depositSeq s)%N.

(** No deposit has two credits, and each credit is that of a stored,
    confirmed deposit, for its amount. *)
Definition creditedOnce (s : Store) : Prop :=
  wfIds s
  /\ NoDup (creditDeposit <$> ledger s)
  /\ forall c, c ∈ ledger s ->
       exists d, d ∈ deposits s /\ Deposit.id d = creditDeposit c
                 /\ Deposit.amount d = creditAmount c /\ Deposit.status d = confirmed.

(** Deposit [i] is confirmed and its credits are [credits]. *)
Definition settled (i : N) (credits : list Credit) (s : Store) : Prop :=
  wfIds s /\ confirmedIn i s /\ creditsOf i s = credits.

(** After a pass at a height below the block [b] of deposit [d], from store
    [s]: the rows of [d] are as they were found or carry the negative
    difference with status [confirming], and [d] got no credit. *)
Definition negativeKept (currentBlock b : Z) (d : Deposit.t) (s s' : Store) : Prop :=
  (forall row, row ∈ deposits s' -> Deposit.id row = Deposit.id d ->
               row = d \/ row = Deposit.setProgress (currentBlock - b) confirming d)
  /\ creditsOf (Deposit.id d) s' = creditsOf (Deposit.id d) s.

(** *** Pull-mode ticks *)

(** The windows of heights of one Bitcoin tick, in the order of the loops of
    [checkBitcoinBlocks]. *)
Definition bitcoinBatches (lastProcessedBlock currentHeight : Z) : list (list Z) :=
  (fun height => range height (Z.min (height + 50 - 1) currentHeight) 1)
    <$> range (lastProcessedBlock + 1) currentHeight 50.

(** The body of the inner loop of [checkBitcoinBlocks]. *)
Definition bitcoinBlockAt (provider : Bitcoin.Provider) (network : string) (blockNum : Z)
  : M unit :=
  block ← await (Bitcoin.getblock provider blockNum);
  match block with
  | None => mret tt
  | Some block => processBitcoinBlock "bitcoin" network block
  end.

(** The heights one Tron tick goes through. *)
Definition tronHeights (lastProcessedBlock currentBlockNumber : Z) : list Z :=
  range (lastProcessedBlock + 1) (Z.min (lastProcessedBlock + 1 + 5) currentBlockNumber) 1.

(** The body of the loop of [checkTronBlocks]. *)
Definition tronBlockAt (decimalPlus : string -> string -> option string)
    (quotientToString : Z -> Z -> string) (providers : Providers) (network : string)
    (tronWeb : Tron.TronWeb) (height : Z) : M unit :=
  tryCatch
    (block ← getTronBlockWithRetry tronWeb height 3;
     match block with
     | None => mret tt
     | Some block =>
         processTronBlock quotientToString providers network block ;;
         updateTronConfirmations decimalPlus network height ;;
         saveLastProcessedBlock "trx" network height
     end)
    (fun e => if bool_decide (responseStatus e = Some 403) then mret tt else mret tt).

(** The body of the loop of [checkXrpBlocks]. *)
Definition xrpLedgerAt (providers : Providers) (network : string) (ledgerIndex : Z) : M unit :=
  processXrpLedger providers "xrp" network ledgerIndex ;;
  saveLastProcessedBlock "xrp" network ledgerIndex.

(** Properties of the store that only look at [system_settings]. *)
Definition settingsOnly (P : Store -> Prop) : Prop :=
  forall s s', systemSettings s' = systemSettings s -> P s -> P s'.

(** Where a tick that started in [s] may leave the checkpoint, [s'] being
    the store after it: where it was, or at a height after it and up to the
    tip that the tick went through.  For Bitcoin and Tron the block of that
    height was fetched; for the XRP Ledger the height is enough. *)
Definition bitcoinReached (providers : Providers) (network : string) (s s' : Store) : Prop :=
  checkpoint "bitcoin" network s' = checkpoint "bitcoin" network s
  \/ exists provider tip last h block,
       btc providers network = Some provider /\
       Bitcoin.getblockcount provider = Ok tip /\
       checkpoint "bitcoin" network s = Some last /\
       last < h <= tip /\
       Bitcoin.getblock provider h = Ok (Some block) /\
       checkpoint "bitcoin" network s' = Some (Bitcoin.height block).

(** The same with the range of heights given: the checkpoint is where it was
    or at the height recorded in a block fetched at a height [h],
    [low < h <= high]. *)
Definition bitcoinFetched (provider : Bitcoin.Provider) (network : string) (low high : Z)
    (s s' : Store) : Prop :=
  checkpoint "bitcoin" network s' = checkpoint "bitcoin" network s
  \/ exists h block,
       low < h <= high /\
       Bitcoin.getblock provider h = Ok (Some block) /\
       checkpoint "bitcoin" network s' = Some (Bitcoin.height block).

Definition tronReached (tronWeb : Tron.TronWeb) (network : string) (s s' : Store) : Prop :=
  checkpoint "trx" network s' = checkpoint "trx" network s
  \/ exists current last h block,
       Tron.getCurrentBlock tronWeb = Ok current /\
       checkpoint "trx" network s = Some last /\
       last < h <= Tron.number current /\
       getTronBlockWithRetry tronWeb h 3 s = (Ok (Some block), s) /\
       checkpoint "trx" network s' = Some h.

Definition xrpReached (providers : Providers) (network : string) (s s' : Store) : Prop :=
  checkpoint "xrp" network s' = checkpoint "xrp" network s
  \/ exists client tip last h,
       xrp providers network = Some client /\
       Xrp.validatedLedger client = Ok tip /\
       checkpoint "xrp" network s = Some last /\
       last < h <= tip /\
       checkpoint "xrp" network s' = Some h.

(** ** Stores and providers of the examples *)

Module Scenario.

Definition emptyStore : Store := mkStore [] 1 true [] [] [] ∅ [].

Definition noProviders : Providers :=
  mkProviders (fun _ => None) (fun _ => None) (fun _ => None).

(** *** Pull-mode chains with empty blocks *)

Definition checkpointAt (key : string) (n : Z) : Store :=
  mkStore [] 1 true [] [] [] {[ key := Js.toString n ]} [].

(** Every height up to [tip] has a block, none has a transaction. *)
Definition quietBitcoin (tip : Z) : Bitcoin.Provider :=
  Bitcoin.mkProvider (Ok tip) (fun h => Ok (Some (Bitcoin.mkBlock (Some []) h "hash"))).

(** The same, but the node has no block at height [missing]. *)
Definition gapBitcoin (tip missing : Z) : Bitcoin.Provider :=
  Bitcoin.mkProvider (Ok tip)
    (fun h => if h =? missing then Ok None
              else Ok (Some (Bitcoin.mkBlock (Some []) h "hash"))).

(** The same, but the call for the block at height [broken] fails. *)
Definition brokenBitcoin (tip broken : Z) : Bitcoin.Provider :=
  Bitcoin.mkProvider (Ok tip)
    (fun h => if h =? broken then Thrown (error "timeout")
              else Ok (Some (Bitcoin.mkBlock (Some []) h "hash"))).

Definition quietTron (tip : Z) : Tron.TronWeb :=
  Tron.mkTronWeb (Ok (Tron.mkBlock tip "id" None))
    (fun h _ => Ok (Some (Tron.mkBlock h "id" None)))
    (fun a => a).

(** A client whose [ledger] command fails at every index. *)
Definition failingXrp (tip : Z) : Xrp.Client :=
  Xrp.mkClient (Ok tip) (fun _ => Thrown (error "timeout")).

Definition bitcoinOnly (p : Bitcoin.Provider) : Providers :=
  mkProviders (fun _ => Some p) (fun _ => None) (fun _ => None).

Definition xrpOnly (c : Xrp.Client) : Providers :=
  mkProviders (fun _ => None) (fun _ => None) (fun _ => Some c).

(** *** An ETH transfer and an ERC-20 transfer on mainnet *)

Definition eth : Token.t := Token.mk "tok-eth" "ETH" None "eth" None "NATIVE" 18 true.
Definition usdt : Token.t :=
  Token.mk "tok-usdt" "USDT" None "eth" (Some "0xc") "ERC20" 6 true.
Definition aliceEth : Wallet.t := Wallet.mk "w-eth" "alice" "0xAbC" "eth" "mainnet".

Definition evmStore : Store :=
  mkStore [] 1 true
    [WalletBalance.mk "alice" "ETH" "spot" "0"; WalletBalance.mk "alice" "USDT" "spot" "0"]
    [eth; usdt] [aliceEth] ∅ [].

Definition nativeTx : Evm.TransactionResponse :=
  Evm.mkTx "0xt1" (Some "0xabc") "0x1" "0x" (10 ^ 18) (Some 1000) (Some "0xb1000")
    (Ok (Some (Evm.mkReceipt []))).

(** A call of the token contract [0xC] whose receipt logs a transfer of
    5 000 000 units to the wallet [0xabc]. *)
Definition erc20Tx : Evm.TransactionResponse :=
  Evm.mkTx "0xt2" (Some "0xC") "0x1" "0xa9059cbb" 0 (Some 1000) (Some "0xb1000")
    (Ok (Some (Evm.mkReceipt [Evm.Transfer "0x1" "0xabc" 5000000]))).

(** Block 1000 holds the native transfer, every other block is empty. *)
Definition ethProvider : Evm.Provider :=
  Evm.mkProvider
    (fun n => Ok (Some (Evm.mkBlock (if n =? 1000 then ["0xt1"] else []))))
    (fun h _ => if bool_decide (h = "0xt1") then Ok (Some nativeTx) else Ok None).

(** The same store, had the table no unique index. *)
Definition evmStoreNoIndex : Store :=
  mkStore [] 1 false (walletBalances evmStore) (tokens evmStore) (wallets evmStore) ∅ [].

(** *** Three TRX deposits of block 1 on testnet, 10 confirmations required *)

Definition trxToken : Token.t := Token.mk "tok-trx" "TRX" None "trx" None "NATIVE" 6 true.

Definition trxDeposit (i : N) (user wallet txHash amount : string) : Deposit.t :=
  Deposit.mk i user wallet "tok-trx" txHash amount "trx" "testnet" "NATIVE" (Some 1)
    pending 0 (Deposit.mkMetadata "TSender" None (Some "id1")).

(** Alice and Carol have a spot balance in TRX, Bob has none. *)
Definition tronStore : Store :=
  mkStore
    [trxDeposit 1 "alice" "w-alice" "tx-a" "2.5";
     trxDeposit 2 "bob" "w-bob" "tx-b" "4";
     trxDeposit 3 "carol" "w-carol" "tx-c" "1"]
    4 true
    [WalletBalance.mk "alice" "TRX" "spot" "10"; WalletBalance.mk "carol" "TRX" "spot" "0"]
    [trxToken]
    [Wallet.mk "w-alice" "alice" "TAlice" "trx" "testnet";
     Wallet.mk "w-bob" "bob" "TBob" "trx" "testnet";
     Wallet.mk "w-carol" "carol" "TCarol" "trx" "testnet"]
    ∅ [].

(** The same store with the Tron checkpoint of testnet at 10. *)
Definition tronStoreAt10 : Store :=
  mkStore (deposits tronStore) 4 true (walletBalances tronStore) (tokens tronStore)
    (wallets tronStore) {[ "last_processed_block_trx_testnet" := "10" ]} [].

(** A node whose block 1 pays 2.5 TRX to Alice, for a store with no deposit yet. *)
Definition payingTron (tip : Z) : Tron.TronWeb :=
  Tron.mkTronWeb (Ok (Tron.mkBlock tip "id" None))
    (fun h _ =>
       Ok (Some (Tron.mkBlock h "id"
                   (if h =? 1
                    then Some [Tron.mkTx "tx-a"
                                 (Some (Tron.mkContract "TransferContract" "TAlice" "TSender"
                                          2500000 None))]
                    else None))))
    (fun a => a).

Definition tronOnly (t : Tron.TronWeb) : Providers :=
  mkProviders (fun _ => None) (fun _ => Some t) (fun _ => None).

Definition tronStoreEmpty : Store :=
  mkStore [] 1 true (walletBalances tronStore) (tokens tronStore) (wallets tronStore) ∅ [].

(** *** An XRP payment of one XRP, 1 000 000 drops *)

Definition xrpToken : Token.t := Token.mk "tok-xrp" "XRP" None "xrp" None "NATIVE" 6 true.
Definition aliceXrp : Wallet.t := Wallet.mk "w-xrp" "alice" "rAlice" "xrp" "mainnet".

Definition xrpStore : Store :=
  mkStore [] 1 true [WalletBalance.mk "alice" "XRP" "spot" "0"] [xrpToken] [aliceXrp] ∅ [].

Definition payment : Xrp.Tx :=
  Xrp.mkTx "Payment" "rBob" "rAlice" "1000000" "F00D" (Some 70) (Some "ABCD").

End Scenario.

(** ** Runs of the service *)

(** The methods of the service that touch the store.  A tick that is cut
    short (a restart) is a run of the methods it had completed. *)
Inductive Call :=
| ProcessQueueForChain (chain network : string) (provider : Evm.Provider) (queue : list Z)
| ProcessEvmBlock (chain network : string) (blockNumber : Z) (provider : Evm.Provider)
| ProcessEvmTransaction (chain network : string) (tx : Evm.TransactionResponse)
| UpdateEvmConfirmations (chain network : string) (currentBlock : Z)
| CheckBitcoinBlocks (network : string)
| ProcessBitcoinBlock (chain network : string) (block : Bitcoin.Block)
| ProcessBitcoinTransaction (chain network : string) (tx : Bitcoin.Tx)
| CheckTronBlocks (network : string) (tronWeb : Tron.TronWeb)
| ProcessTronBlock (network : string) (block : Tron.Block)
| UpdateTronConfirmations (network : string) (currentBlock : Z)
| CheckXrpBlocks (network : string)
| ProcessXrpLedger (chain network : string) (ledgerIndex : Z)
| ProcessXrpTransaction (chain network : string) (tx : Xrp.Tx)
| SaveLastProcessedBlock (chain network : string) (blockNumber : Z).

Section Runs.
Variable decimalPlus : string -> string -> option string.
Variable quotientToString : Z -> Z -> string.
Variable providers : Providers.

Definition exec (c : Call) : M unit :=
  match c with
  | ProcessQueueForChain chain network provider queue =>
      processQueueForChain chain network provider queue
  | ProcessEvmBlock chain network blockNumber provider =>
      processEvmBlock chain network blockNumber provider
  | ProcessEvmTransaction chain network tx => processEvmTransaction chain network tx
  | UpdateEvmConfirmations chain network currentBlock =>
      updateEvmConfirmations decimalPlus chain network currentBlock
  | CheckBitcoinBlocks network => checkBitcoinBlocks providers network
  | ProcessBitcoinBlock chain network block => processBitcoinBlock chain network block
  | ProcessBitcoinTransaction chain network tx => processBitcoinTransaction chain network tx
  | CheckTronBlocks network tronWeb =>
      checkTronBlocks decimalPlus quotientToString providers network tronWeb
  | ProcessTronBlock network block => processTronBlock quotientToString providers network block
  | UpdateTronConfirmations network currentBlock =>
      updateTronConfirmations decimalPlus network currentBlock
  | CheckXrpBlocks network => checkXrpBlocks providers network
  | ProcessXrpLedger chain network ledgerIndex =>
      processXrpLedger providers chain network ledgerIndex
  | ProcessXrpTransaction chain network tx => processXrpTransaction chain network tx
  | SaveLastProcessedBlock chain network blockNumber =>
      saveLastProcessedBlock chain network blockNumber
  end.

Definition run (calls : list Call) (s : Store) : Store :=
  foldl (fun s c => store_of (exec c s)) s calls.
End Runs.

(** Invariant I1: no two rows agree on [(txHash, walletId, tokenId)]. *)
Definition uniqueKeys (s : Store) : Prop :=
  depositsUniqueIndex s = true /\ NoDup (Deposit.key <$> deposits s).

(** What block processing may do to the store [s0]: add fresh rows. *)
Definition appended (s0 s : Store) : Prop :=
  exists added,
    deposits s = (deposits s0 ++ added)%list /\ Forall fresh added /\
    ledger s = ledger s0 /\ walletBalances s = walletBalances s0.

(** A pass from [s] that stopped at deposit [d], whose credit failed after
    it was written as confirmed with [confirmations], [post] being the
    deposits found after it, and [s'] the store the pass left.  The
    deposits of [post] are as they were and got no credit; [d] is stored as
    confirmed and got no credit; in every run from [s'] it gets none, stays
    confirmed and is not found by any updater. *)
Definition abortedAt (decimalPlus : string -> string -> option string)
    (quotientToString : Z -> Z -> string) (providers : Providers)
    (d : Deposit.t) (confirmations : Z) (post : list Deposit.t) (s s' : Store) : Prop :=
  (forall x, x ∈ post ->
     x ∈ deposits s' /\ creditsOf (Deposit.id x) s' = creditsOf (Deposit.id x) s)
  /\ Deposit.setProgress confirmations confirmed d ∈ deposits s'
  /\ creditsOf (Deposit.id d) s' = creditsOf (Deposit.id d) s
  /\ forall calls,
       let s'' := run decimalPlus quotientToString providers calls s' in
       creditsOf (Deposit.id d) s'' = creditsOf (Deposit.id d) s
       /\ confirmedIn (Deposit.id d) s''
       /\ forall chain network x,
            x ∈ findPendingDeposits chain network s'' -> Deposit.id x <> Deposit.id d.

(** ** The memory of the service: provider registry and block queues

    [this.providers] and [this.blockQueues] live in the service object, not
    in the database.  What a node answers at start-up is an oracle, as for
    the chain providers above. *)

Module Text.

(** [s.startsWith(p)] *)
Definition startsWith (p s : string) : bool := String.prefix p s.

(** [s.split(sep)] for a separator of one character. *)
Fixpoint split (sep : ascii) (s : string) : list string :=
  match s with
  | EmptyString => [EmptyString]
  | String c r =>
      if bool_decide (c = sep) then EmptyString :: split sep r
      else match split sep r with
           | part :: parts => String c part :: parts
           | [] => [String c EmptyString]
           end
  end.

(** A value inside a template literal: [undefined] prints as such. *)
Definition template (v : option string) : string := default "undefined" v.

(** [!v] is false: a string that is neither [undefined] nor empty. *)
Definition truthy (v : option string) : option string :=
  match v with
  | Some s => if bool_decide (s = "") then None else Some s
  | None => None
  end.

End Text.

Module Rpc.

(** [data.result] of a JSON-RPC answer, as far as the service looks. *)
Inductive Json :=
| JNull
| JNumber (n : Z)
| JString (s : string).

(** The body of an answer: [data.error?.message] and [data.result]. *)
Record Response := mkResponse {
  error : option string;
  result : Json
}.

End Rpc.

Module Registry.

(** The objects [initializeProviders] builds, by what they are built from. *)
Inductive Provider :=
| Evm (websocket : bool) (rpcUrl : string)
| Bitcoin (url username password : option string)
| Tron (apiUrl : option string) (apiKey : string)
| Xrp (rpcUrl : option string).

(** One entry of [this.blockQueues]. *)
Record BlockQueue := mkBlockQueue {
  isProcessing : bool;
  queue : list Z
}.

(** A ['block'] handler registered by [monitorEvmChains]: the two parts of
    the provider key it closes over, and the provider. *)
Record Handler := mkHandler {
  chain : string;
  network : option string;
  provider : Provider
}.

(** A [setInterval] callback. *)
Inductive Timer :=
| CheckBitcoin (network : string)
| CheckTron (network : string) (tronWeb : Provider)
| CheckXrp (network : string).

Record t := mk {
  providers : gmap string Provider;
  blockQueues : gmap string BlockQueue;
  handlers : list Handler;
  timers : list Timer
}.

(** The key of the queue a handler pushes to: [`${chain}_${network}`]. *)
Definition queueKey (h : Handler) : string :=
  chain h +:+ "_" +:+ Text.template (network h).

End Registry.

Module World.

(** The nodes as they answer at one time. *)
Record t := mk {
  (** [provider.getBlockNumber()] of the WebSocket or JSON-RPC provider built
      for a URL; building it may throw as well *)
  getBlockNumber : bool -> string -> Result Z;
  (** [fetch(url, ...)] of a JSON-RPC method, then [response.json()] *)
  fetchJson : option string -> string -> list Rpc.Json -> Result Rpc.Response;
  (** [new TronWeb(...)] for a URL and an API key, then
      [trx.getCurrentBlock()]; [None] is a falsy answer *)
  getCurrentBlock : option string -> string -> Result (option Tron.Block);
  (** [new Client(url)], [connect()] and the [server_info] request; [None]
      when the answer names no validated ledger *)
  serverInfo : option string -> Result (option Z)
}.

End World.

Section Startup.

Variable world : World.t.

(** [this.configService.get(key)] *)
Variable config : string -> option string.

(** [bitcoinRpcCall(provider, method, params)]; a provider that is not the
    object built for Bitcoin has no [url]. *)
Definition bitcoinRpcCall (provider : option Registry.Provider) (method : string)
    (params : list Rpc.Json) : Result Rpc.Json :=
  match provider with
  | None => Thrown (error "Cannot read properties of undefined")
  | Some provider =>
      let url := match provider with
                 | Registry.Bitcoin url _ _ => url
                 | _ => None
                 end in
      match World.fetchJson world url method params with
      | Thrown e => Thrown e
      | Ok data =>
          match Rpc.error data with
          | Some message => Thrown (error message)
          | None => Ok (Rpc.result data)
          end
      end
  end.

Definition initializeProviders (providers : gmap string Registry.Provider)
  : gmap string Registry.Provider :=
  let evmNetworks :=
    [("eth", [("mainnet", config "ETHEREUM_MAINNET_RPC");
              ("testnet", config "ETHEREUM_TESTNET_RPC")]);
     ("bsc", [("mainnet", config "BSC_MAINNET_RPC");
              ("testnet", config "BSC_TESTNET_RPC")])] in
  let providers :=
    foldl (fun providers '(chain, networks) =>
      foldl (fun providers '(network, rpcUrl) =>
        let providerKey := chain +:+ "_" +:+ network in
        match rpcUrl with
        | Some rpcUrl =>
            let websocket := Text.startsWith "ws" rpcUrl in
            match World.getBlockNumber world websocket rpcUrl with
            | Ok _ => <[providerKey := Registry.Evm websocket rpcUrl]> providers
            | Thrown _ => providers
            end
        | None => providers
        end) providers (networks : list (string * option string)))
      providers evmNetworks in
  let bitcoinNetworks :=
    [("mainnet", config "BITCOIN_MAINNET_RPC"); ("testnet", config "BITCOIN_TESTNET_RPC")] in
  let providers :=
    foldl (fun providers '(network, rpcUrl) =>
      let providerKey := "btc_" +:+ network in
      let provider :=
        Registry.Bitcoin rpcUrl (config "BITCOIN_RPC_USER") (config "BITCOIN_RPC_PASS") in
      match bitcoinRpcCall (Some provider) "getblockcount" [] with
      | Ok _ => <[providerKey := provider]> providers
      | Thrown _ => providers
      end) providers bitcoinNetworks in
  let tronNetworks :=
    [("mainnet", config "TRON_MAINNET_API"); ("testnet", config "TRON_TESTNET_API")] in
  let providers :=
    foldl (fun providers '(network, apiUrl) =>
      let providerKey := "trx_" +:+ network in
      match Text.truthy (config "TRON_API_KEY") with
      | None => providers
      | Some apiKey =>
          match World.getCurrentBlock world apiUrl apiKey with
          | Ok (Some _) => <[providerKey := Registry.Tron apiUrl apiKey]> providers
          | Ok None => providers
          | Thrown _ => providers
          end
      end) providers tronNetworks in
  let xrpNetworks :=
    [("mainnet", config "XRP_MAINNET_RPC"); ("testnet", config "XRP_TESTNET_RPC")] in
  foldl (fun providers '(network, rpcUrl) =>
    let providerKey := "xrp_" +:+ network in
    match World.serverInfo world rpcUrl with
    (* the provider is set before the log line reads the validated ledger *)
    | Ok _ => <[providerKey := Registry.Xrp rpcUrl]> providers
    | Thrown _ => providers
    end) providers xrpNetworks.

(** The handlers [monitorEvmChains] registers, one for each provider whose
    key has [eth] or [bsc] before its first underscore.  The map is gone
    through key by key; the order in which handlers are registered has no
    effect. *)
Definition monitorEvmChains (providers : gmap string Registry.Provider)
  : list Registry.Handler :=
  omap (fun '(providerKey, provider) =>
          let parts := Text.split "_" providerKey in
          match parts !! 0%nat with
          | Some chain =>
              if bool_decide (chain ∈ ["eth"; "bsc"])
              then Some (Registry.mkHandler chain (parts !! 1%nat) provider)
              else None
          | None => None
          end)
       (map_to_list providers).

(** A timer for each network, whether a provider is registered or not. *)
Definition monitorBitcoin (providers : gmap string Registry.Provider) : list Registry.Timer :=
  (fun network => Registry.CheckBitcoin network) <$> ["mainnet"; "testnet"].

(** A timer for each network that has a provider. *)
Definition monitorTron (providers : gmap string Registry.Provider) : list Registry.Timer :=
  omap (fun network =>
          match providers !! ("trx_" +:+ network) with
          | Some tronWeb => Some (Registry.CheckTron network tronWeb)
          | None => None
          end)
       ["mainnet"; "testnet"].

Definition monitorXrp (providers : gmap string Registry.Provider) : list Registry.Timer :=
  omap (fun network =>
          match providers !! ("xrp_" +:+ network) with
          | Some _ => Some (Registry.CheckXrp network)
          | None => None
          end)
       ["mainnet"; "testnet"].

(** [onModuleInit]: the four queues, then the providers, then
    [startMonitoring]. *)
Definition onModuleInit : Registry.t :=
  let blockQueues :=
    foldl (fun queues chain => <[chain := Registry.mkBlockQueue false []]> queues)
          (∅ : gmap string Registry.BlockQueue)
          ["eth_mainnet"; "eth_testnet"; "bsc_mainnet"; "bsc_testnet"] in
  let providers := initializeProviders ∅ in
  Registry.mk providers blockQueues
    (monitorEvmChains providers)
    (monitorBitcoin providers ++ monitorTron providers ++ monitorXrp providers)%list.

End Startup.

(** What [testConnection] returns. *)
Record Connection := mkConnection {
  connectionBlockNumber : Rpc.Json;
  connectionNetwork : string
}.

(** [testConnection(chain)], against the nodes as they answer then. *)
Definition testConnection (world : World.t) (providers : gmap string Registry.Provider)
    (chain : string) : Result Connection :=
  if bool_decide (chain = "ethereum") || bool_decide (chain = "bsc") then
    match providers !! (chain +:+ "_mainnet") with
    | Some (Registry.Evm websocket rpcUrl) =>
        match World.getBlockNumber world websocket rpcUrl with
        | Ok blockNumber => Ok (mkConnection (Rpc.JNumber blockNumber) "mainnet")
        | Thrown e => Thrown e
        end
    | Some _ => Thrown (error "provider.getBlockNumber is not a function")
    | None => Thrown (error "Cannot read properties of undefined")
    end
  else if bool_decide (chain = "bitcoin") then
    match bitcoinRpcCall world (providers !! "btc_mainnet") "getblockcount" [] with
    | Ok blockCount => Ok (mkConnection blockCount "mainnet")
    | Thrown e => Thrown e
    end
  else if bool_decide (chain = "trx") then
    match providers !! "trx_mainnet" with
    | Some (Registry.Tron apiUrl apiKey) =>
        match World.getCurrentBlock world apiUrl apiKey with
        | Ok (Some block) => Ok (mkConnection (Rpc.JNumber (Tron.number block)) "mainnet")
        | Ok None => Thrown (error "Cannot read properties of null")
        | Thrown e => Thrown e
        end
    | Some _ => Thrown (error "Cannot read properties of undefined")
    | None => Thrown (error "Cannot read properties of undefined")
    end
  else Thrown (error ("Unsupported chain: " +:+ chain)).

(** [getChainKey(blockchain)]: [this.CHAIN_KEYS[blockchain] || blockchain] *)
Definition getChainKey (blockchain : string) : string :=
  default blockchain (CHAIN_KEYS blockchain).

(** The provider keys [initializeProviders] can set, with the kind of
    object each holds. *)
Definition registered (providerKey : string) (provider : Registry.Provider) : Prop :=
  match provider with
  | Registry.Evm _ _ =>
      providerKey ∈ ["eth_mainnet"; "eth_testnet"; "bsc_mainnet"; "bsc_testnet"]
  | Registry.Bitcoin _ _ _ => providerKey ∈ ["btc_mainnet"; "btc_testnet"]
  | Registry.Tron _ _ => providerKey ∈ ["trx_mainnet"; "trx_testnet"]
  | Registry.Xrp _ => providerKey ∈ ["xrp_mainnet"; "xrp_testnet"]
  end.

(** ** The block queue of an EVM chain

    [processQueueForChain] is entered by every ['block'] event; one entry
    at a time runs the loop, suspended while a block is processed.  The
    state is the queue with what the suspended entry holds: the block it
    awaits.  An event that arrives while a block is processed only pushes
    to the queue, which the processing of a block does not read. *)

Module Queue.

Record t := mk {
  blockQueue : Registry.BlockQueue;
  (** [blockNumber] of the suspended loop body, if an entry is suspended *)
  awaiting : option Z;
  (** ghost: the blocks whose processing has ended, oldest first *)
  processed : list Z;
  store : Store
}.

Definition idle (s : Store) : t := mk (Registry.mkBlockQueue false []) None [] s.

Section Chain.

Variables (chain network : string) (provider : Evm.Provider).

(** The head of [while (queue.queue.length > 0)]: the next block is shifted
    and its processing awaited; or the loop ends and [finally] clears the
    flag, where the queue it checks is the empty one that ended the loop. *)
Definition whileLoop (q : t) : t :=
  match Registry.queue (blockQueue q) with
  | blockNumber :: rest =>
      mk (Registry.mkBlockQueue (Registry.isProcessing (blockQueue q)) rest)
         (Some blockNumber) (processed q) (store q)
  | [] => mk (Registry.mkBlockQueue false []) None (processed q) (store q)
  end.

(** [processQueueForChain], from its entry to its first [await]. *)
Definition processQueueForChain (q : t) : t :=
  if Registry.isProcessing (blockQueue q) then q
  else whileLoop (mk (Registry.mkBlockQueue true (Registry.queue (blockQueue q)))
                     (awaiting q) (processed q) (store q)).

(** The ['block'] handler of [monitorEvmChains]. *)
Definition onBlock (blockNumber : Z) (q : t) : t :=
  processQueueForChain
    (mk (Registry.mkBlockQueue (Registry.isProcessing (blockQueue q))
           (Registry.queue (blockQueue q) ++ [blockNumber]))
        (awaiting q) (processed q) (store q)).

(** The suspended entry goes on: the block it awaited is processed, an
    error of it caught and logged, and the loop is back at its head. *)
Definition resume (q : t) : t :=
  match awaiting q with
  | Some blockNumber =>
      whileLoop
        (mk (blockQueue q) None (processed q ++ [blockNumber])
            (store_of (tryCatch (processEvmBlock chain network blockNumber provider)
                                (fun _ => mret tt) (store q))))
  | None => q
  end.

Inductive Event :=
| Block (blockNumber : Z)
| Resumed.

Definition step (q : t) (ev : Event) : t :=
  match ev with
  | Block blockNumber => onBlock blockNumber q
  | Resumed => resume q
  end.

(** The block numbers of the events, in the order they arrived. *)
Definition arrivals (evs : list Event) : list Z :=
  omap (fun ev => match ev with Block n => Some n | Resumed => None end) evs.

End Chain.

End Queue.

(** What holds of the queue [q] of a chain that the events [evs] lead to from
    the store [s0]: the blocks processed, the one in processing and the ones
    queued are the arrivals, in this order; the flag is set exactly while a
    block is in processing; a clear flag means an empty queue; the store is
    the one a single loop over the processed blocks leaves. *)
Definition disciplined (chain network : string) (provider : Evm.Provider) (s0 : Store)
    (evs : list Queue.Event) (q : Queue.t) : Prop :=
  (Queue.processed q ++ option_list (Queue.awaiting q)
     ++ Registry.queue (Queue.blockQueue q))%list = Queue.arrivals evs
  /\ (Registry.isProcessing (Queue.blockQueue q) = true <-> is_Some (Queue.awaiting q))
  /\ (Registry.isProcessing (Queue.blockQueue q) = false ->
      Registry.queue (Queue.blockQueue q) = [])
  /\ Queue.store q
     = store_of (processQueueForChain chain network provider (Queue.processed q) s0).

(** ** Nodes and settings of the start-up examples *)

Module Nodes.

(** Only the BSC mainnet endpoint is configured. *)
Definition bscConfig (key : string) : option string :=
  if bool_decide (key = "BSC_MAINNET_RPC") then Some "https://bsc.example" else None.

(** Every node that has a URL answers; block 7 is the current one. *)
Definition up : World.t :=
  World.mk (fun _ _ => Ok 7)
           (fun url _ _ =>
              match url with
              | Some _ => Ok (Rpc.mkResponse None (Rpc.JNumber 7))
              | None => Thrown (error "Invalid URL")
              end)
           (fun apiUrl _ =>
              match apiUrl with
              | Some _ => Ok (Some (Tron.mkBlock 7 "id" None))
              | None => Thrown (error "Invalid URL")
              end)
           (fun rpcUrl =>
              match rpcUrl with
              | Some _ => Ok (Some 7)
              | None => Thrown (error "Invalid URL")
              end).

(** No node can be reached. *)
Definition down : World.t :=
  World.mk (fun _ _ => Thrown (error "timeout"))
           (fun _ _ _ => Thrown (error "timeout"))
           (fun _ _ => Thrown (error "timeout"))
           (fun _ => Thrown (error "timeout")).

End Nodes.

(** Every entry of the registry is under a key of its kind. *)
Definition allRegistered (providers : gmap string Registry.Provider) : Prop :=
  forall providerKey provider,
    providers !! providerKey = Some provider -> registered providerKey provider.

(** ** Notions used to state where a tick leaves the checkpoint *)

(** The node has a block at this number. *)
Definition evmBlockFound (provider : Evm.Provider) (blockNumber : Z) : bool :=
  match Evm.getBlock provider blockNumber with
  | Ok (Some _) => true
  | _ => false
  end.

(** [getTronBlockWithRetry(tronWeb, height, 3)] returns a block. *)
Definition tronBlockFetched (tronWeb : Tron.TronWeb) (height : Z) : bool :=
  match retryLoop (Tron.getBlock tronWeb height) 3 0 3 with
  | Ok (Some _) => true
  | _ => false
  end.

(** The last element of [l] that [found] holds of, or [fallback]. *)
Definition lastFound (found : Z -> bool) (l : list Z) (fallback : Js.number) : Js.number :=
  match last (filter (fun h => found h = true) l) with
  | Some h => Some h
  | None => fallback
  end.

(** ** Notions used to state what crediting and confirmation passes touch *)

(** The [where] of the balance row that [updateWalletBalance] looks up. *)
Definition spotBalanceOf (userId symbol : string) (b : WalletBalance.t) : Prop :=
  WalletBalance.userId b = userId /\ WalletBalance.baseSymbol b = symbol
  /\ WalletBalance.type b = "spot".

(** Row [i] is the first spot balance row of the user for the symbol. *)
Definition creditTarget (userId symbol : string) (bs : list WalletBalance.t)
    (i : nat) (balance : WalletBalance.t) : Prop :=
  bs !! i = Some balance
  /\ spotBalanceOf userId symbol balance
  /\ forall j b, (j < i)%nat -> bs !! j = Some b -> ~ spotBalanceOf userId symbol b.

(** What [updateWalletBalance] needs to go through for deposit [d] in [s]:
    the token of the deposit, the balance row, the sum. *)
Definition creditable (decimalPlus : string -> string -> option string) (d : Deposit.t)
    (s : Store) (token : Token.t) (i : nat) (balance : WalletBalance.t) (sum : string) : Prop :=
  head (filter (fun t => Token.id t = Deposit.tokenId d) (tokens s)) = Some token
  /\ creditTarget (Deposit.userId d) (balanceSymbol token) (walletBalances s) i balance
  /\ decimalPlus (WalletBalance.balance balance) (Deposit.amount d) = Some sum.

(** What a pass that found [found] may have done to the row [d]: nothing,
    or written confirmations and a status other than pending if it found
    it. *)
Definition progressOnly (found : list Deposit.t) (d d' : Deposit.t) : Prop :=
  d' = d \/ (d ∈ found /\ exists c st, st <> pending /\ d' = Deposit.setProgress c st d).

(** What a pass from [s] over [found] keeps, [s'] being the store it
    leaves: the rows, but for the progress of rows it found; the tables
    it does not write; the number of balance rows. *)
Definition passFrame (found : list Deposit.t) (s s' : Store) : Prop :=
  Forall2 (progressOnly found) (deposits s) (deposits s')
  /\ depositSeq s' = depositSeq s
  /\ systemSettings s' = systemSettings s
  /\ tokens s' = tokens s
  /\ wallets s' = wallets s
  /\ length (walletBalances s') = length (walletBalances s).

(** ** Notions used to state what the rows of [deposits] refer to *)

(** Running [m] from a store where [P] holds gives a store where it holds,
    and a value of which [Q] holds if [m] returns. *)
Definition yields {A} (P : Store -> Prop) (m : M A) (Q : A -> Prop) : Prop :=
  forall s, P s -> P (store_of (m s)) /\ forall a, result_of (m s) = Ok a -> Q a.

(** The row is that of a wallet of [ws], with its user, chain and network,
    and of a token of [ts], with its network version. *)
Definition rowBacked (ws : list Wallet.t) (ts : list Token.t) (d : Deposit.t) : Prop :=
  (exists w, w ∈ ws /\ Wallet.id w = Deposit.walletId d /\ Wallet.userId w = Deposit.userId d
             /\ Wallet.blockchain w = Deposit.blockchain d
             /\ Wallet.network w = Deposit.network d)
  /\ (exists t, t ∈ ts /\ Token.id t = Deposit.tokenId d
                /\ Token.networkVersion t = Deposit.networkVersion d).

(** The wallets are [ws], the tokens [ts], and every deposit row is backed
    by them. *)
Definition backedBy (ws : list Wallet.t) (ts : list Token.t) (s : Store) : Prop :=
  wallets s = ws /\ tokens s = ts /\ Forall (rowBacked ws ts) (deposits s).

Definition backed (s : Store) : Prop := backedBy (wallets s) (tokens s) s.

(** ** Notions used to state which rows a transaction adds *)

(** The token [getTokenForTransaction] can return for a transaction sent to
    [to]: the active native token of the chain when the transaction carries
    no data, the active token registered under the lowercased address
    otherwise. *)
Definition evmTokenOf (chain : string) (tx : Evm.TransactionResponse) (to : string)
    (token : Token.t) : Prop :=
  Token.blockchain token = chain /\ Token.isActive token = true
  /\ if bool_decide (Evm.data tx = "") || bool_decide (Evm.data tx = "0x")
     then Token.networkVersion token = "NATIVE"
     else Token.contractAddress token = Some (Js.toLowerCase to).

(** The amount [getTransactionAmount] returns: the value of the transaction
    for a native token, else the value of the first [Transfer] log of the
    receipt, in units of the token. *)
Definition evmAmountOf (tx : Evm.TransactionResponse) (token : Token.t) (amount : string)
  : Prop :=
  if bool_decide (Token.networkVersion token = "NATIVE")
  then amount = Ethers.formatUnits (Evm.value tx) (Token.decimals token)
  else exists receipt value,
         Evm.wait tx = Ok (Some receipt)
         /\ findTransfer (Evm.logs receipt) = Some value
         /\ amount = Ethers.formatUnits value (Token.decimals token).

(** The entity [processEvmTransaction] saves. *)
Definition evmDeposit (chain network : string) (tx : Evm.TransactionResponse)
    (wallet : Wallet.t) (token : Token.t) (amount : string) : Deposit.t :=
  newDeposit (Wallet.userId wallet) (Wallet.id wallet) (Token.id token) (Evm.hash tx) amount
    chain network (Token.networkVersion token) (Evm.blockNumber tx)
    (Deposit.mkMetadata (Evm.from tx) (Token.contractAddress token) (Evm.blockHash tx)).

(** The store after one more row. *)
Definition inserted (row : Deposit.t) (s : Store) : Store :=
  setDeposits (deposits s ++ [Deposit.withId (depositSeq s) row]) (N.succ (depositSeq s)) s.

(** What block processing from [s0] does: it adds rows saved from entities
    of which [R] holds, and writes nothing else. *)
Definition grows (R : Deposit.t -> Prop) (s0 s : Store) : Prop :=
  exists added,
    deposits s = (deposits s0 ++ added)%list
    /\ Forall (fun row => exists entity, R entity /\ row = Deposit.withId (Deposit.id row) entity)
              added
    /\ wallets s = wallets s0 /\ tokens s = tokens s0
    /\ walletBalances s = walletBalances s0 /\ ledger s = ledger s0
    /\ systemSettings s = systemSettings s0.

(** The token [getTronToken] can return for the contract of a transaction. *)
Definition tronTokenOf (contract : Tron.Contract) (token : Token.t) : Prop :=
  Token.blockchain token = "trx" /\ Token.isActive token = true
  /\ ((Tron.type contract = "TransferContract" /\ Token.networkVersion token = "NATIVE")
      \/ (Tron.type contract = "TransferAssetContract"
          /\ Token.networkVersion token = "TRC20"
          /\ Tron.asset_name contract = Some (Token.symbol token))).

(** The entity [processTronBlock] saves for a transaction of the block. *)
Definition tronDeposit (quotientToString : Z -> Z -> string) (tronWeb : Tron.TronWeb)
    (network : string) (block : Tron.Block) (tx : Tron.Tx) (contract : Tron.Contract)
    (wallet : Wallet.t) (token : Token.t) : Deposit.t :=
  newDeposit (Wallet.userId wallet) (Wallet.id wallet) (Token.id token) (Tron.txID tx)
    (quotientToString (Tron.amount contract) (Token.decimals token))
    "trx" network (Token.networkVersion token) (Some (Tron.number block))
    (Deposit.mkMetadata (Tron.fromHex tronWeb (Tron.owner_address contract))
       (Token.contractAddress token) (Some (Tron.blockID block))).

(** The entities a Tron block can be saved as, with the wallets and tokens
    of [s0]: one for a transaction whose first contract is a transfer to the
    address of a monitored wallet, as [fromHex] gives it. *)
Definition tronEntity (quotientToString : Z -> Z -> string) (tronWeb : Tron.TronWeb)
    (network : string) (block : Tron.Block) (s0 : Store) (entity : Deposit.t) : Prop :=
  exists tx contract wallet token,
    tx ∈ default [] (Tron.transactions block)
    /\ Tron.contract0 tx = Some contract
    /\ wallet ∈ wallets s0 /\ Wallet.blockchain wallet = "trx"
    /\ Wallet.network wallet = network
    /\ Wallet.address wallet = Tron.fromHex tronWeb (Tron.to_address contract)
    /\ token ∈ tokens s0 /\ tronTokenOf contract token
    /\ entity = tronDeposit quotientToString tronWeb network block tx contract wallet token.

(** The entities a Bitcoin transaction can be saved as: one for an address
    of an output that is the address of a monitored wallet, for the amount
    of the output as the node prints it. *)
Definition bitcoinEntity (chain network : string) (tx : Bitcoin.Tx) (s0 : Store)
    (entity : Deposit.t) : Prop :=
  exists output address wallet token,
    output ∈ Bitcoin.vout tx
    /\ address ∈ default [] (Bitcoin.addresses output)
    /\ wallet ∈ wallets s0 /\ Wallet.blockchain wallet = chain
    /\ Wallet.network wallet = network /\ Wallet.address wallet = address
    /\ token ∈ tokens s0 /\ Token.symbol token = "BTC"
    /\ Token.networkVersion token = "NATIVE"
    /\ entity = newDeposit (Wallet.userId wallet) (Wallet.id wallet) (Token.id token)
                  (Bitcoin.txid tx) (Bitcoin.value output) chain network "NATIVE"
                  (Bitcoin.blockHeight tx)
                  (Deposit.mkMetadata (bitcoinSender tx) None (Bitcoin.blockHash tx)).

(** ** Notions used to state what a missing token row does *)

(** An output of the transaction lists the address of a monitored wallet
    of the chain and network. *)
Definition paysMonitored (chain network : string) (tx : Bitcoin.Tx) (s : Store) : bool :=
  existsb (fun output =>
             existsb (fun address =>
                        bool_decide
                          (address ∈ Wallet.address
                             <$> filter (fun w => Wallet.blockchain w = chain
                                                  /\ Wallet.network w = network)
                                        (wallets s)))
                     (default [] (Bitcoin.addresses output)))
          (Bitcoin.vout tx).

(** The tokens table has no row with this symbol and network version
    [NATIVE]. *)
Definition noNativeToken (symbol : string) (s : Store) : Prop :=
  forall t, t ∈ tokens s -> ~ (Token.symbol t = symbol /\ Token.networkVersion t = "NATIVE").

(** ** Stores and nodes of further examples *)

Module Cases.

(** A monitored XRP wallet, and no token row for XRP. *)
Definition xrpStoreNoToken : Store :=
  mkStore [] 1 true [] [] [Scenario.aliceXrp]
    {[ "last_processed_block_xrp_mainnet" := "10" ]} [].

(** Ledger 11 is validated and holds the payment of one XRP to Alice. *)
Definition payingXrp : Xrp.Client :=
  Xrp.mkClient (Ok 11) (fun _ => Ok (Some [Scenario.payment])).

(** A checkpoint that is not a number. *)
Definition unreadable : Store :=
  mkStore [] 1 true [] [] [] {[ "last_processed_block_xrp_mainnet" := "n/a" ]} [].

End Cases.

(** No entry of the registry is a TronWeb instance. *)
Definition noTron (providers : gmap string Registry.Provider) : Prop :=
  forall providerKey provider,
    providers !! providerKey = Some provider ->
    forall apiUrl apiKey, provider <> Registry.Tron apiUrl apiKey.

(** ** Notions used to state that rows persist *)

(** The order of the statuses: pending, then confirming, then confirmed. *)
Definition rank (st : Status) : nat :=
  match st with
  | pending => 0
  | confirming => 1
  | confirmed => 2
  end.

(** [d'] is the row [d] later: the same in every column but confirmations
    and status, and with a status that is not before that of [d]. *)
Definition laterRow (d d' : Deposit.t) : Prop :=
  d' = Deposit.setProgress (Deposit.confirmations d') (Deposit.status d') d
  /\ (rank (Deposit.status d) <= rank (Deposit.status d'))%nat.

(** Every row of [s] is in [s'], later. *)
Definition persists (s s' : Store) : Prop :=
  forall d, d ∈ deposits s -> exists d', d' ∈ deposits s' /\ laterRow d d'.

(** The entity [processXrpTransaction] saves. *)
Definition xrpDeposit (chain network : string) (tx : Xrp.Tx) (wallet : Wallet.t)
    (token : Token.t) : Deposit.t :=
  newDeposit (Wallet.userId wallet) (Wallet.id wallet) (Token.id token) (Xrp.hash tx)
    (Xrp.Amount tx) chain network "NATIVE" (Xrp.ledger_index tx)
    (Deposit.mkMetadata (Xrp.Account tx) None (Xrp.ledger_hash tx)).

(** * Properties *)

(** ** The monad *)

Section MonadLemmas.
Context {A B : Type}.

Lemma bind_ok (m : M A) (f : A -> M B) s a s' :
  m s = (Ok a, s') -> (m ≫= f) s = f a s'.
Proof. unfold mbind, M_bind. intros ->. reflexivity. Qed.

Lemma bind_thrown (m : M A) (f : A -> M B) s e s' :
  m s = (Thrown e, s') -> (m ≫= f) s = (Thrown e, s').
Proof. unfold mbind, M_bind. intros ->. reflexivity. Qed.

Lemma preserves_ret P (a : A) : preserves P (mret a).
Proof. intros s Hs. exact Hs. Qed.

Lemma preserves_throw P e : preserves P (@throw A e).
Proof. intros s Hs. exact Hs. Qed.

Lemma preserves_gets P (f : Store -> A) : preserves P (gets f).
Proof. intros s Hs. exact Hs. Qed.

Lemma preserves_await P (r : Result A) : preserves P (await r).
Proof. intros s Hs. exact Hs. Qed.

Lemma preserves_bind P (m : M A) (f : A -> M B) :
  preserves P m -> (forall a, preserves P (f a)) -> preserves P (m ≫= f).
Proof.
  intros Hm Hf s Hs. specialize (Hm s Hs).
  unfold mbind, M_bind. destruct (m s) as [[a | e] s']; simpl in *.
  - apply (Hf a), Hm.
  - exact Hm.
Qed.

(** The continuation of an awaited answer may use what the answer was. *)
Lemma preserves_bind_await P (r : Result A) (f : A -> M B) :
  (forall a, r = Ok a -> preserves P (f a)) -> preserves P (await r ≫= f).
Proof.
  intros Hf s Hs. unfold mbind, M_bind, await. destruct r as [a | e]; simpl.
  - apply (Hf a eq_refl), Hs.
  - exact Hs.
Qed.

Lemma preserves_tryCatch P (m : M A) (h : Error -> M A) :
  preserves P m -> (forall e, preserves P (h e)) -> preserves P (tryCatch m h).
Proof.
  intros Hm Hh s Hs. specialize (Hm s Hs).
  unfold tryCatch. destruct (m s) as [[a | e] s']; simpl in *.
  - exact Hm.
  - apply (Hh e), Hm.
Qed.

Lemma preserves_transaction P (m : M A) :
  preserves P m -> preserves P (transaction m).
Proof.
  intros Hm s Hs. specialize (Hm s Hs).
  unfold transaction. destruct (m s) as [[a | e] s']; simpl in *; assumption.
Qed.

Lemma preserves_modify P (f : Store -> Store) :
  (forall s, P s -> P (f s)) -> preserves P (modify f).
Proof. intros Hf s Hs. apply Hf, Hs. Qed.

End MonadLemmas.

Lemma preserves_forEach {A} P (l : list A) (body : A -> M unit) :
  (forall x, x ∈ l -> preserves P (body x)) -> preserves P (forEach l body).
Proof.
  induction l as [| x l IH]; intros Hbody.
  - apply preserves_ret.
  - simpl. apply preserves_bind.
    + apply Hbody. constructor.
    + intros _. apply IH. intros y Hy. apply Hbody. constructor. exact Hy.
Qed.


Create HintDb preserves.

(** Splits a goal [preserves P m] along the structure of [m]; methods whose
    preservation is already known are not entered. *)
Ltac preserve_step :=
  first
    [ solve [eauto with preserves]
    | apply preserves_ret
    | apply preserves_throw
    | apply preserves_gets
    | apply preserves_await
    | apply preserves_bind_await; intros ? ?
    | apply preserves_bind; [| intros ?]
    | apply preserves_tryCatch; [| intros ?]
    | apply preserves_transaction
    | apply preserves_forEach; intros ? ?
    | match goal with
      | |- preserves _ (match ?x with _ => _ end) => destruct x eqn:?
      | |- preserves _ (let _ := _ in _) => cbv zeta
      end ].

Ltac preserve := repeat preserve_step.

Section AppendOnly.
Variable P : Store -> Prop.
Variable providers : Providers.
Variable quotientToString : Z -> Z -> string.

Hypothesis P_save :
  forall u w t h a c n v b meta, preserves P (saveDeposit (newDeposit u w t h a c n v b meta)).
Hypothesis P_checkpoint :
  forall chain network n, preserves P (saveLastProcessedBlock chain network n).

Local Hint Resolve P_save P_checkpoint : preserves.

Lemma getLastProcessedBlock_preserves chain network :
  preserves P (getLastProcessedBlock chain network).
Proof. unfold getLastProcessedBlock. preserve. Qed.
Local Hint Resolve getLastProcessedBlock_preserves : preserves.

Lemma findOneToken_preserves (w : Token.t -> Prop) `{!forall t, Decision (w t)} :
  preserves P (findOneToken w).
Proof. unfold findOneToken. preserve. Qed.
Local Hint Resolve findOneToken_preserves : preserves.

Lemma processEvmTransaction_preserves chain network tx :
  preserves P (processEvmTransaction chain network tx).
Proof.
  unfold processEvmTransaction, findWallets, getTokenForTransaction, getTransactionAmount,
    findOneToken.
  preserve.
Qed.
Local Hint Resolve processEvmTransaction_preserves : preserves.

Lemma processEvmBlock_preserves chain network blockNumber provider :
  preserves P (processEvmBlock chain network blockNumber provider).
Proof.
  unfold processEvmBlock, getEvmTransactionWithRetry.
  preserve.
Qed.
Local Hint Resolve processEvmBlock_preserves : preserves.

Lemma processQueueForChain_preserves chain network provider queue :
  preserves P (processQueueForChain chain network provider queue).
Proof.
  unfold processQueueForChain. preserve.
Qed.
Local Hint Resolve processQueueForChain_preserves : preserves.

Lemma processBitcoinTransaction_preserves chain network tx :
  preserves P (processBitcoinTransaction chain network tx).
Proof.
  unfold processBitcoinTransaction, findWallets, getBitcoinTokenId, findOneToken.
  preserve.
Qed.
Local Hint Resolve processBitcoinTransaction_preserves : preserves.

Lemma processBitcoinBlock_preserves chain network block :
  preserves P (processBitcoinBlock chain network block).
Proof.
  unfold processBitcoinBlock.
  preserve.
Qed.
Local Hint Resolve processBitcoinBlock_preserves : preserves.

Lemma checkBitcoinBlocks_preserves network :
  preserves P (checkBitcoinBlocks providers network).
Proof.
  unfold checkBitcoinBlocks.
  preserve.
Qed.
Local Hint Resolve checkBitcoinBlocks_preserves : preserves.

Lemma processTronBlock_preserves network block :
  preserves P (processTronBlock quotientToString providers network block).
Proof.
  unfold processTronBlock, findWallets, getTronToken, findOneToken.
  preserve.
Qed.
Local Hint Resolve processTronBlock_preserves : preserves.

Lemma processXrpTransaction_preserves chain network tx :
  preserves P (processXrpTransaction chain network tx).
Proof.
  unfold processXrpTransaction, findWallets, getXrpTokenId, findOneToken.
  preserve.
Qed.
Local Hint Resolve processXrpTransaction_preserves : preserves.

Lemma processXrpLedger_preserves chain network ledgerIndex :
  preserves P (processXrpLedger providers chain network ledgerIndex).
Proof.
  unfold processXrpLedger. preserve.
Qed.
Local Hint Resolve processXrpLedger_preserves : preserves.

Lemma checkXrpBlocks_preserves network :
  preserves P (checkXrpBlocks providers network).
Proof.
  unfold checkXrpBlocks.
  preserve.
Qed.
Local Hint Resolve checkXrpBlocks_preserves : preserves.
End AppendOnly.

Section Passes.
Variable P : Store -> Prop.
Variable decimalPlus : string -> string -> option string.

Hypothesis P_update : forall i c st, preserves P (updateDeposit i c st).
Hypothesis P_credit : forall d, preserves P (updateWalletBalance decimalPlus d).

Local Hint Resolve P_update P_credit : preserves.

Lemma updateEvmConfirmations_preserves chain network currentBlock :
  preserves P (updateEvmConfirmations decimalPlus chain network currentBlock).
Proof. unfold updateEvmConfirmations, confirmDeposit. preserve. Qed.

Lemma updateTronConfirmations_preserves network currentBlock :
  preserves P (updateTronConfirmations decimalPlus network currentBlock).
Proof. unfold updateTronConfirmations, confirmDeposit. preserve. Qed.
End Passes.

Section RunPreservation.
Variable P : Store -> Prop.
Variable decimalPlus : string -> string -> option string.
Variable quotientToString : Z -> Z -> string.
Variable providers : Providers.

Hypothesis P_save :
  forall u w t h a c n v b meta, preserves P (saveDeposit (newDeposit u w t h a c n v b meta)).
Hypothesis P_checkpoint :
  forall chain network n, preserves P (saveLastProcessedBlock chain network n).
Hypothesis P_evm :
  forall chain network h, preserves P (updateEvmConfirmations decimalPlus chain network h).

(** The Tron updater is the updater of the EVM chains run on [trx]. *)
Lemma updateTronConfirmations_as_evm network currentBlock :
  updateTronConfirmations decimalPlus network currentBlock
  = updateEvmConfirmations decimalPlus "trx" network currentBlock.
Proof. reflexivity. Qed.

Lemma tron_updater_preserves network h : preserves P (updateTronConfirmations decimalPlus network h).
Proof. rewrite updateTronConfirmations_as_evm. apply P_evm. Qed.

Local Hint Resolve P_save P_checkpoint P_evm tron_updater_preserves : preserves.
Local Hint Resolve getLastProcessedBlock_preserves processTronBlock_preserves : preserves.

Lemma checkTronBlocks_preserves network tronWeb :
  preserves P (checkTronBlocks decimalPlus quotientToString providers network tronWeb).
Proof. unfold checkTronBlocks, getTronBlockWithRetry. preserve. Qed.

(** Every method of the service keeps an invariant that the two inserts
    and the two updaters keep. *)
Lemma exec_preserves (c : Call) :
  preserves P (exec decimalPlus quotientToString providers c).
Proof.
  destruct c; simpl;
    eauto using processQueueForChain_preserves, processEvmBlock_preserves,
      processEvmTransaction_preserves, checkBitcoinBlocks_preserves,
      processBitcoinBlock_preserves, processBitcoinTransaction_preserves,
      checkTronBlocks_preserves, processTronBlock_preserves,
      checkXrpBlocks_preserves, processXrpLedger_preserves,
      processXrpTransaction_preserves, tron_updater_preserves.
Qed.

Lemma run_preserves (calls : list Call) (s : Store) :
  P s -> P (run decimalPlus quotientToString providers calls s).
Proof.
  revert s. induction calls as [| c calls IH]; intros s Hs; simpl.
  - exact Hs.
  - apply IH, (exec_preserves c), Hs.
Qed.
End RunPreservation.

(** ** Numbers written to and read from [system_settings] *)

Lemma digitOf_pretty_N_char (d : N) :
  (d < 10)%N -> Js.digitOf (pretty_N_char d) = Some d.
Proof.
  intros Hd.
  assert (d = 0 \/ d = 1 \/ d = 2 \/ d = 3 \/ d = 4 \/ d = 5 \/ d = 6 \/ d = 7 \/ d = 8 \/ d = 9)%N
    as Hcases by lia.
  repeat destruct Hcases as [-> | Hcases]; try subst d; reflexivity.
Qed.

(** Reading the digits printed for [x] continues the number read so far. *)
Lemma parseDigits_pretty_N_go (x : N) :
  (0 < x)%N ->
  exists k : N, forall (acc : N) (s : string),
    Js.parseDigits Js.digitOf 10 acc (pretty_N_go x s)
    = Js.parseDigits Js.digitOf 10 (acc * 10 ^ k + x)%N s.
Proof.
  induction (N.lt_wf_0 x) as [x _ IH]. intros Hx.
  destruct (decide (x < 10)%N) as [Hsmall | Hbig].
  - exists 1%N. intros acc s.
    rewrite pretty_N_go_step by done.
    rewrite N.div_small, N.mod_small by done.
    rewrite pretty_N_go_0. simpl. rewrite digitOf_pretty_N_char by done.
    f_equal. lia.
  - destruct (IH (x `div` 10)%N) as [k Hk].
    + apply N.div_lt; lia.
    + apply N.div_str_pos; lia.
    + exists (k + 1)%N. intros acc s.
      rewrite pretty_N_go_step by done. rewrite Hk. simpl.
      rewrite digitOf_pretty_N_char by (apply N.mod_lt; lia).
      f_equal. rewrite N.pow_add_r, N.pow_1_r.
      pose proof (N.div_mod x 10). lia.
Qed.

(** A positive number prints with a leading digit that is not zero. *)
Lemma pretty_N_go_head (x : N) (s : string) :
  (0 < x)%N ->
  exists (d : N) (r : string), (0 < d < 10)%N /\ pretty_N_go x s = String (pretty_N_char d) r.
Proof.
  revert s. induction (N.lt_wf_0 x) as [x _ IH]. intros s Hx.
  rewrite pretty_N_go_step by done.
  destruct (decide (x < 10)%N) as [Hsmall | Hbig].
  - rewrite N.div_small, N.mod_small by done. rewrite pretty_N_go_0.
    exists x, s. split; [lia | done].
  - apply IH.
    + apply N.div_lt; lia.
    + apply N.div_str_pos; lia.
Qed.

Lemma parseInt_positive (p : positive) (neg : bool) :
  Js.parseInt (if neg then String "-" (pretty_N_go (N.pos p) "") else pretty_N_go (N.pos p) "")
  = Some (if neg then Z.neg p else Z.pos p).
Proof.
  destruct (pretty_N_go_head (N.pos p) "") as (d & r & Hd & Hshape); [lia |].
  destruct (parseDigits_pretty_N_go (N.pos p)) as [k Hk]; [lia |].
  specialize (Hk 0%N ""). rewrite Hshape in Hk |- *.
  simpl in Hk. rewrite digitOf_pretty_N_char in Hk by lia.
  replace (10 * 0 + d)%N with d in Hk by lia.
  replace (0 * 10 ^ k + N.pos p)%N with (N.pos p) in Hk by lia.
  assert (d = 1 \/ d = 2 \/ d = 3 \/ d = 4 \/ d = 5 \/ d = 6 \/ d = 7 \/ d = 8 \/ d = 9)%N
    as Hcases by lia.
  destruct neg;
    repeat destruct Hcases as [-> | Hcases]; try subst d;
    (cbv -[Js.parseDigits]; cbv -[Js.parseDigits] in Hk; rewrite Hk; reflexivity).
Qed.

(** [parseInt(n.toString()) === n] for every integer. *)
Lemma parseInt_toString (n : Z) : Js.parseInt (Js.toString n) = Some n.
Proof.
  destruct n as [| p | p].
  - reflexivity.
  - apply (parseInt_positive p false).
  - apply (parseInt_positive p true).
Qed.

(** ** Checkpoints *)

Section Checkpoints.
Variables (chain network : string).

Lemma getLastProcessedBlock_run (s : Store) :
  getLastProcessedBlock chain network s = (Ok (checkpoint chain network s), s).
Proof. reflexivity. Qed.

Lemma saveLastProcessedBlock_run (n : Z) (s : Store) :
  saveLastProcessedBlock chain network n s
  = (Ok tt,
     setSystemSettings
       (<[specCheckpointKey (specChainKey (Js.toLowerCase chain)) network := Js.toString n]>
          (systemSettings s)) s).
Proof.
  unfold saveLastProcessedBlock, tryCatch, mbind, M_bind, modify, gets. simpl.
  fold (specChainKey (Js.toLowerCase chain)).
  fold (specCheckpointKey (specChainKey (Js.toLowerCase chain)) network).
  rewrite lookup_insert_eq, parseInt_toString.
  rewrite bool_decide_eq_true_2 by reflexivity. reflexivity.
Qed.

Lemma checkpoint_saved (n : Z) (s : Store) :
  checkpoint chain network (store_of (saveLastProcessedBlock chain network n s)) = Some n.
Proof.
  rewrite saveLastProcessedBlock_run. unfold checkpoint. simpl.
  rewrite lookup_insert_eq. apply parseInt_toString.
Qed.
End Checkpoints.

(** C9. Writer and reader of a checkpoint use the key
    [last_processed_block_{chainKey}_{network}], with [bitcoin] turned into
    [btc] (after lowercasing the chain name): the writer stores the block
    number under it without throwing, the reader reads the same key, so a
    read after a write returns the number written, and a key that was never
    written reads as 0. *)
Theorem checkpoint_key_shared (chain network : string) (blockNumber : Z) (s : Store) :
  let key := specCheckpointKey (specChainKey (Js.toLowerCase chain)) network in
  saveLastProcessedBlock chain network blockNumber s
    = (Ok tt, setSystemSettings (<[key := Js.toString blockNumber]> (systemSettings s)) s)
  /\ getLastProcessedBlock chain network s
     = (Ok (match systemSettings s !! key with
            | Some value => Js.parseInt value
            | None => Some 0
            end), s)
  /\ result_of (getLastProcessedBlock chain network
                  (store_of (saveLastProcessedBlock chain network blockNumber s)))
     = Ok (Some blockNumber)
  /\ (systemSettings s !! key = None ->
      result_of (getLastProcessedBlock chain network s) = Ok (Some 0))
  /\ (Js.toLowerCase chain = "bitcoin" -> key = "last_processed_block_btc_" +:+ network).
Proof.
  intros key. split; [| split; [| split; [| split]]].
  - apply saveLastProcessedBlock_run.
  - apply getLastProcessedBlock_run.
  - rewrite getLastProcessedBlock_run. simpl. f_equal. apply checkpoint_saved.
  - intros Hnone. rewrite getLastProcessedBlock_run. simpl. unfold checkpoint.
    fold key. rewrite Hnone. reflexivity.
  - intros Hbtc. unfold key. rewrite Hbtc. reflexivity.
Qed.

Lemma checkpoint_key_shared_witness :
  result_of (getLastProcessedBlock "bitcoin" "mainnet" Scenario.emptyStore) = Ok (Some 0)
  /\ specCheckpointKey (specChainKey (Js.toLowerCase "bitcoin")) "mainnet"
     = "last_processed_block_btc_mainnet".
Proof.
  pose proof (checkpoint_key_shared "bitcoin" "mainnet" 0 Scenario.emptyStore)
    as (_ & _ & _ & Hunwritten & Hbtc).
  split.
  - apply Hunwritten. reflexivity.
  - apply Hbtc. reflexivity.
Defined.

(** ** Writes that leave the deposits alone *)

Lemma updateWalletBalance_deposits decimalPlus d s :
  deposits (store_of (updateWalletBalance decimalPlus d s)) = deposits s
  /\ depositSeq (store_of (updateWalletBalance decimalPlus d s)) = depositSeq s
  /\ depositsUniqueIndex (store_of (updateWalletBalance decimalPlus d s)) = depositsUniqueIndex s.
Proof.
  pose (P := fun s' => deposits s' = deposits s /\ depositSeq s' = depositSeq s
                       /\ depositsUniqueIndex s' = depositsUniqueIndex s).
  assert (preserves P (updateWalletBalance decimalPlus d)) as Hp.
  { unfold updateWalletBalance. preserve. apply preserves_modify. intros s' Hs'. exact Hs'. }
  apply (Hp s). unfold P. auto.
Qed.

(** ** Invariant I1 under the unique index *)

Lemma saveDeposit_duplicate row s :
  depositsUniqueIndex s = true ->
  Deposit.key row ∈ Deposit.key <$> deposits s ->
  exists e, saveDeposit row s = (Thrown e, s).
Proof.
  intros Hidx Hin. unfold saveDeposit. rewrite Hidx.
  rewrite bool_decide_eq_true_2 by exact Hin. simpl. eauto.
Qed.

Lemma saveDeposit_uniqueKeys row : preserves uniqueKeys (saveDeposit row).
Proof.
  intros s [Hidx Hnodup]. unfold saveDeposit. rewrite Hidx. simpl.
  destruct (bool_decide_reflect (Deposit.key row ∈ Deposit.key <$> deposits s)) as [Hin | Hout].
  - split; assumption.
  - split; [exact Hidx |]. simpl. rewrite fmap_app. simpl.
    apply NoDup_app. split; [exact Hnodup |]. split.
    + intros k Hk Hk'. apply list_elem_of_singleton in Hk'. subst k. exact (Hout Hk).
    + apply NoDup_singleton.
Qed.

Lemma updateDeposit_keys i c st s :
  Deposit.key <$> deposits (store_of (updateDeposit i c st s)) = Deposit.key <$> deposits s.
Proof.
  simpl. rewrite <- list_fmap_compose. apply list_fmap_ext.
  intros _ d _. simpl. destruct (bool_decide _); reflexivity.
Qed.

Lemma updateDeposit_uniqueKeys i c st : preserves uniqueKeys (updateDeposit i c st).
Proof.
  intros s [Hidx Hnodup]. split; [exact Hidx |]. rewrite updateDeposit_keys. exact Hnodup.
Qed.

Lemma saveLastProcessedBlock_uniqueKeys chain network n :
  preserves uniqueKeys (saveLastProcessedBlock chain network n).
Proof. intros s Hs. rewrite saveLastProcessedBlock_run. exact Hs. Qed.

Lemma updateWalletBalance_uniqueKeys decimalPlus d :
  preserves uniqueKeys (updateWalletBalance decimalPlus d).
Proof.
  intros s [Hidx Hnodup].
  destruct (updateWalletBalance_deposits decimalPlus d s) as (Hd & _ & Hi).
  unfold uniqueKeys. rewrite Hd, Hi. split; assumption.
Qed.

(** C2. With the unique index on [(txHash, walletId, tokenId)] in place, a
    store that has at most one row for every triple keeps that property
    through every run of the service, and saving a deposit whose triple is
    already there adds no row: reprocessing a transaction or a range of
    blocks cannot create a second row. *)
Theorem deposit_key_unique decimalPlus quotientToString providers (s : Store) :
  uniqueKeys s ->
  (forall row, Deposit.key row ∈ Deposit.key <$> deposits s ->
     deposits (store_of (saveDeposit row s)) = deposits s)
  /\ (forall calls, uniqueKeys (run decimalPlus quotientToString providers calls s)).
Proof.
  intros Hs. split.
  - intros row Hin. destruct Hs as [Hidx _].
    destruct (saveDeposit_duplicate row s Hidx Hin) as [e ->]. reflexivity.
  - intros calls. apply run_preserves; try exact Hs; intros.
    + apply saveDeposit_uniqueKeys.
    + apply saveLastProcessedBlock_uniqueKeys.
    + apply updateEvmConfirmations_preserves;
        auto using updateDeposit_uniqueKeys, updateWalletBalance_uniqueKeys.
Qed.

Lemma deposit_key_unique_witness :
  uniqueKeys
    (run Reference.decimalPlus Reference.quotientToString Scenario.noProviders
       [ProcessEvmBlock "eth" "mainnet" 1000 Scenario.ethProvider;
        ProcessEvmBlock "eth" "mainnet" 1000 Scenario.ethProvider]
       Scenario.evmStore).
Proof.
  apply (deposit_key_unique Reference.decimalPlus Reference.quotientToString
           Scenario.noProviders Scenario.evmStore).
  split; [reflexivity | constructor].
Defined.

(** Block 1000 processed twice: one row with the index, two without it; the
    service itself looks for no earlier row before it saves. *)
Example reprocessing_block_1000 :
  let twice := [ProcessEvmBlock "eth" "mainnet" 1000 Scenario.ethProvider;
                ProcessEvmBlock "eth" "mainnet" 1000 Scenario.ethProvider] in
  let go := run Reference.decimalPlus Reference.quotientToString Scenario.noProviders twice in
  Deposit.key <$> deposits (go Scenario.evmStore) = [("0xt1", "w-eth", "tok-eth")]
  /\ Deposit.key <$> deposits (go Scenario.evmStoreNoIndex)
     = [("0xt1", "w-eth", "tok-eth"); ("0xt1", "w-eth", "tok-eth")].
Proof. vm_compute. split; reflexivity. Qed.

(** ** Block processing without a confirmation updater *)

Lemma appended_refl s : appended s s.
Proof. exists []. rewrite app_nil_r. repeat split. constructor. Qed.

Lemma saveDeposit_appended s0 u w t h a c n v b meta :
  preserves (appended s0) (saveDeposit (newDeposit u w t h a c n v b meta)).
Proof.
  intros s (added & Hd & Hfresh & Hl & Hb). unfold saveDeposit.
  destruct (_ && _); simpl.
  - exists added. auto.
  - exists (added ++ [Deposit.withId (depositSeq s) (newDeposit u w t h a c n v b meta)])%list.
    rewrite Hd, app_assoc. repeat split; try assumption.
    apply Forall_app. split; [exact Hfresh |]. repeat constructor.
Qed.

Lemma saveLastProcessedBlock_appended s0 chain network n :
  preserves (appended s0) (saveLastProcessedBlock chain network n).
Proof. intros s Hs. rewrite saveLastProcessedBlock_run. exact Hs. Qed.

(** Draining the block queue of an EVM chain only adds fresh rows: no stored
    deposit gets confirmations or a new status, no balance is credited. *)
Lemma processQueueForChain_appended chain network provider queue s :
  appended s (store_of (processQueueForChain chain network provider queue s)).
Proof.
  apply (processQueueForChain_preserves (appended s));
    auto using saveDeposit_appended, saveLastProcessedBlock_appended, appended_refl.
Qed.

(** The same holds for a whole Bitcoin tick and a whole XRP tick. *)
Lemma checkBitcoinBlocks_appended providers network s :
  appended s (store_of (checkBitcoinBlocks providers network s)).
Proof.
  apply (checkBitcoinBlocks_preserves (appended s));
    auto using saveDeposit_appended, saveLastProcessedBlock_appended, appended_refl.
Qed.

Lemma checkXrpBlocks_appended providers network s :
  appended s (store_of (checkXrpBlocks providers network s)).
Proof.
  apply (checkXrpBlocks_preserves (appended s));
    auto using saveDeposit_appended, saveLastProcessedBlock_appended, appended_refl.
Qed.

(** C3, on the code: the ETH deposit of block 1000 (12 confirmations
    required on mainnet) after blocks 1000 to 1012 have been processed.  The
    checkpoint is at 1012, the deposit is still pending with 0
    confirmations and nothing was credited: [processEvmBlock] never runs
    [updateEvmConfirmations]. *)
Theorem evm_deposit_stays_pending :
  let s := store_of (processQueueForChain "eth" "mainnet" Scenario.ethProvider
                       (seqZ 1000 13) Scenario.evmStore) in
  checkpoint "eth" "mainnet" s = Some 1012
  /\ (fun d => (Deposit.blockNumber d, Deposit.status d, Deposit.confirmations d))
       <$> deposits s = [(Some 1000, pending, 0)]
  /\ ledger s = []
  /\ CONFIRMATION_BLOCKS "eth" ≫= (fun row => row "mainnet") = Some 12.
Proof. vm_compute. repeat split. Qed.

(** ** ERC-20 transfers *)

(** A transaction whose [to], the token contract for an ERC-20 transfer, is
    not the address of a monitored wallet changes nothing, whatever its
    receipt logs. *)
Lemma processEvmTransaction_to_unmonitored chain network tx to s :
  Evm.to tx = Some to ->
  (forall w, w ∈ wallets s -> Wallet.blockchain w = chain -> Wallet.network w = network ->
             Js.toLowerCase (Wallet.address w) <> Js.toLowerCase to) ->
  processEvmTransaction chain network tx s = (Ok tt, s).
Proof.
  intros Hto Hnone. unfold processEvmTransaction, tryCatch, findWallets, mbind, M_bind, gets.
  rewrite Hto. simpl.
  destruct (bool_decide _); [reflexivity |].
  destruct (last _) as [w |] eqn:Hlast; [| reflexivity].
  exfalso. apply last_Some in Hlast as [l' Hl'].
  assert (w ∈ filter (fun w => Js.toLowerCase (Wallet.address w) = Js.toLowerCase to)
                (filter (fun w => Wallet.blockchain w = chain /\ Wallet.network w = network)
                        (wallets s))) as Hw.
  { rewrite Hl'. apply elem_of_app. right. constructor. }
  apply list_elem_of_filter in Hw as [Haddr Hw].
  apply list_elem_of_filter in Hw as [[Hc Hn] Hw].
  exact (Hnone w Hw Hc Hn Haddr).
Qed.

(** C4, on the code: the call of token contract [0xC] whose receipt logs
    [Transfer(0x1, 0xabc, 5000000)], with [0xabc] a monitored wallet and the
    token (6 decimals) registered under [0xc].  No deposit is created: the
    wallet is looked up under [tx.to], the contract, and the recipient of
    the log is never read. *)
Theorem erc20_transfer_not_recorded :
  processEvmTransaction "eth" "mainnet" Scenario.erc20Tx Scenario.evmStore
    = (Ok tt, Scenario.evmStore)
  /\ Ethers.formatUnits 5000000 6 = "5.0".
Proof. vm_compute. split; reflexivity. Qed.

(** ** XRP amounts *)

(** Every row a payment adds carries [tx.Amount] as it came, not scaled by
    the decimals of the token. *)
Lemma processXrpTransaction_amount chain network tx s :
  exists added,
    deposits (store_of (processXrpTransaction chain network tx s)) = (deposits s ++ added)%list
    /\ Forall (fun row => Deposit.amount row = Xrp.Amount tx) added.
Proof.
  pose (P := fun s' => exists added, deposits s' = (deposits s ++ added)%list
                       /\ Forall (fun row => Deposit.amount row = Xrp.Amount tx) added).
  assert (preserves P (processXrpTransaction chain network tx)) as Hp.
  { unfold processXrpTransaction, findWallets, getXrpTokenId, findOneToken. preserve.
    intros s' (added & Hd & Hall). unfold saveDeposit. destruct (_ && _); simpl.
    - exists added. auto.
    - eexists (added ++ [_])%list. rewrite Hd, app_assoc. split; [reflexivity |].
      apply Forall_app. split; [exact Hall |]. repeat constructor. }
  apply (Hp s). exists []. rewrite app_nil_r. split; [reflexivity | constructor].
Qed.

(** C6, on the code: a payment of one XRP, 1 000 000 drops, to a monitored
    wallet, the XRP token having 6 decimals.  The amount stored is the raw
    number of drops, where the decimal form of the token is 1.0. *)
Theorem xrp_amount_stored_in_drops :
  Deposit.amount
    <$> deposits (store_of (processXrpTransaction "xrp" "mainnet" Scenario.payment
                              Scenario.xrpStore))
    = ["1000000"]
  /\ Ethers.formatUnits 1000000 (Token.decimals Scenario.xrpToken) = "1.0".
Proof. vm_compute. split; reflexivity. Qed.

(** ** Loops over heights *)

Lemma range_nil (init bound step : Z) : bound < init -> range init bound step = [].
Proof. intros H. unfold range. destruct (Z.ltb_spec bound init); [reflexivity | lia]. Qed.

Lemma range_one (init bound : Z) : range init bound 1 = seqZ init (bound - init + 1).
Proof.
  unfold range. destruct (Z.ltb_spec bound init).
  - rewrite seqZ_nil by lia. reflexivity.
  - rewrite Z.div_1_r.
    assert (seqZ init (bound - init + 1) = Z.add init <$> seqZ 0 (bound - init + 1)) as ->
      by (rewrite fmap_add_seqZ; f_equal; lia).
    apply list_fmap_ext. intros _ k _. lia.
Qed.

Lemma range_unfold (init bound step : Z) :
  0 < step -> init <= bound ->
  range init bound step = init :: range (init + step) bound step.
Proof.
  intros Hstep Hle. unfold range at 1.
  destruct (Z.ltb_spec bound init); [lia |].
  assert (0 <= (bound - init) / step) by (apply Z.div_pos; lia).
  rewrite seqZ_cons by lia. simpl. f_equal; [lia |].
  unfold range. destruct (Z.ltb_spec bound (init + step)) as [Hend | Hmore].
  - rewrite Z.div_small by lia. reflexivity.
  - replace (Z.pred ((bound - init) / step + 1)) with ((bound - (init + step)) / step + 1).
    + assert (forall n, seqZ (Z.succ 0) n = Z.add 1 <$> seqZ 0 n) as ->
        by (intros n; rewrite fmap_add_seqZ; reflexivity).
      rewrite <- list_fmap_compose.
      apply list_fmap_ext. intros _ k _. simpl. lia.
    + replace (bound - init) with (bound - (init + step) + 1 * step) by lia.
      rewrite Z.div_add by lia. lia.
Qed.

Lemma elem_of_range (h init bound step : Z) :
  0 < step -> h ∈ range init bound step -> init <= h <= bound.
Proof.
  intros Hstep. unfold range. destruct (Z.ltb_spec bound init); [intros Hin; inversion Hin |].
  intros Hin. apply list_elem_of_fmap in Hin as (k & -> & Hk).
  apply elem_of_seqZ in Hk.
  assert (step * k <= step * ((bound - init) / step)) by nia.
  pose proof (Z.mul_div_le (bound - init) step Hstep). nia.
Qed.

Lemma forEach_fmap {X Y} (f : X -> Y) (l : list X) (body : Y -> M unit) :
  forEach (f <$> l) body = forEach l (fun x => body (f x)).
Proof.
  induction l as [| x l IH]; [reflexivity |].
  rewrite fmap_cons. cbn [forEach]. rewrite IH. reflexivity.
Qed.

Lemma forEach_app {X} (l1 l2 : list X) (body : X -> M unit) (s : Store) :
  forEach (l1 ++ l2)%list body s
  = match forEach l1 body s with
    | (Ok _, s1) => forEach l2 body s1
    | (Thrown e, s1) => (Thrown e, s1)
    end.
Proof.
  revert s. induction l1 as [| x l1 IH]; intros s; [reflexivity |].
  simpl. unfold mbind, M_bind. destruct (body x s) as [[[] | e] s1]; [apply IH | reflexivity].
Qed.

Lemma tryCatch_congr {A} (m m' : M A) (h : Error -> M A) (s : Store) :
  m s = m' s -> tryCatch m h s = tryCatch m' h s.
Proof. unfold tryCatch. intros ->. reflexivity. Qed.

(** ** The windows of a Bitcoin tick *)

Lemma bitcoinBatches_nil (last tip : Z) : tip <= last -> bitcoinBatches last tip = [].
Proof. intros H. unfold bitcoinBatches. rewrite range_nil by lia. reflexivity. Qed.

Lemma bitcoinBatches_unfold (last tip : Z) :
  last < tip ->
  bitcoinBatches last tip
  = seqZ (last + 1) (Z.min 50 (tip - last)) :: bitcoinBatches (last + 50) tip.
Proof.
  intros H. unfold bitcoinBatches. rewrite range_unfold by lia. simpl.
  rewrite range_one. f_equal.
  - f_equal. lia.
  - replace (last + 1 + 50) with (last + 50 + 1) by lia. reflexivity.
Qed.

Lemma bitcoinBatches_shape (n : nat) :
  forall last tip : Z, Z.to_nat (tip - last) = n ->
    concat (bitcoinBatches last tip) = seqZ (last + 1) (tip - last)
    /\ Forall (fun b => (0 < length b <= 50)%nat) (bitcoinBatches last tip)
    /\ (forall i b, bitcoinBatches last tip !! i = Some b ->
                    (S i < length (bitcoinBatches last tip))%nat -> length b = 50%nat).
Proof.
  induction n as [n IH] using lt_wf_ind. intros last tip Hn.
  destruct (Z.le_gt_cases tip last) as [Hdone | Hmore].
  - rewrite bitcoinBatches_nil by exact Hdone. rewrite seqZ_nil by lia.
    repeat split; [constructor | intros i b Hi; inversion Hi].
  - rewrite bitcoinBatches_unfold by exact Hmore.
    destruct (IH (Z.to_nat (tip - (last + 50))) ltac:(lia) (last + 50) tip eq_refl)
      as (Hconcat & Hsizes & Hfull).
    split; [| split].
    + simpl. rewrite Hconcat.
      destruct (Z.le_gt_cases (tip - last) 50) as [Hshort | Hlong].
      * rewrite (seqZ_nil (last + 50 + 1)) by lia. rewrite app_nil_r. f_equal. lia.
      * replace (Z.min 50 (tip - last)) with 50 by lia.
        replace (last + 50 + 1) with (last + 1 + 50) by lia.
        rewrite <- seqZ_app by lia. f_equal. lia.
    + constructor; [| exact Hsizes]. rewrite length_seqZ. lia.
    + intros [| i] b Hb Hi; simpl in *.
      * inversion Hb; subst b. rewrite length_seqZ.
        destruct (Z.le_gt_cases tip (last + 50)) as [Hend | Hnext].
        -- rewrite bitcoinBatches_nil in Hi by exact Hend. simpl in Hi. lia.
        -- lia.
      * apply (Hfull i b Hb). lia.
Qed.

Lemma checkBitcoinBlocks_unfold providers network provider tip last s :
  btc providers network = Some provider ->
  Bitcoin.getblockcount provider = Ok tip ->
  checkpoint "bitcoin" network s = Some last ->
  checkBitcoinBlocks providers network s
  = tryCatch
      (forEach (bitcoinBatches last tip)
         (fun batch => forEach batch (bitcoinBlockAt provider network)))
      (fun e => throw e) s.
Proof.
  intros Hprovider Htip Hlast.
  unfold checkBitcoinBlocks, bitcoinBatches. rewrite forEach_fmap.
  rewrite Hprovider, Htip. apply tryCatch_congr.
  erewrite bind_ok by reflexivity.
  erewrite bind_ok by apply getLastProcessedBlock_run.
  rewrite Hlast. reflexivity.
Qed.



(** *** The heights of a Tron tick *)

Lemma checkTronBlocks_unfold decimalPlus quotientToString providers network tronWeb current last s :
  Tron.getCurrentBlock tronWeb = Ok current ->
  checkpoint "trx" network s = Some last ->
  checkTronBlocks decimalPlus quotientToString providers network tronWeb s
  = tryCatch
      (forEach (tronHeights last (Tron.number current))
         (tronBlockAt decimalPlus quotientToString providers network tronWeb))
      (fun _ => mret tt) s.
Proof.
  intros Hcurrent Hlast. unfold checkTronBlocks, tronHeights.
  rewrite Hcurrent. apply tryCatch_congr.
  erewrite bind_ok by reflexivity.
  erewrite bind_ok by apply getLastProcessedBlock_run.
  rewrite Hlast. reflexivity.
Qed.

Lemma checkXrpBlocks_unfold providers network client tip last s :
  xrp providers network = Some client ->
  Xrp.validatedLedger client = Ok tip ->
  checkpoint "xrp" network s = Some last ->
  checkXrpBlocks providers network s
  = tryCatch (forEach (range (last + 1) tip 1) (xrpLedgerAt providers network))
             (fun _ => mret tt) s.
Proof.
  intros Hclient Htip Hlast. unfold checkXrpBlocks.
  rewrite Hclient, Htip. apply tryCatch_congr.
  erewrite bind_ok by reflexivity.
  erewrite bind_ok by apply getLastProcessedBlock_run.
  rewrite Hlast. reflexivity.
Qed.

(** With six or more blocks to catch up, a Tron tick goes through six
    heights: the loop runs from [startBlock] to [startBlock + batchSize]
    inclusive. *)
Lemma tronHeights_length (last tip : Z) :
  length (tronHeights last tip) = Z.to_nat (Z.min 6 (tip - last)).
Proof. unfold tronHeights. rewrite range_one, length_seqZ. lia. Qed.


(** ** Where a pull-mode tick leaves the checkpoint *)

Lemma updateWalletBalance_settings decimalPlus d s :
  systemSettings (store_of (updateWalletBalance decimalPlus d s)) = systemSettings s.
Proof.
  pose (P := fun s' => systemSettings s' = systemSettings s).
  assert (preserves P (updateWalletBalance decimalPlus d)) as Hp.
  { unfold updateWalletBalance. preserve. apply preserves_modify. intros s' Hs'. exact Hs'. }
  apply (Hp s). reflexivity.
Qed.

Section SettingsOnly.
Variable P : Store -> Prop.
Hypothesis P_settings : settingsOnly P.

Lemma saveDeposit_settingsOnly row : preserves P (saveDeposit row).
Proof.
  intros s Hs. unfold saveDeposit. destruct (_ && _); simpl; [exact Hs |].
  apply (P_settings s); [reflexivity | exact Hs].
Qed.

Lemma updateDeposit_settingsOnly i c st : preserves P (updateDeposit i c st).
Proof. intros s Hs. apply (P_settings s); [reflexivity | exact Hs]. Qed.

Lemma updateWalletBalance_settingsOnly decimalPlus d :
  preserves P (updateWalletBalance decimalPlus d).
Proof.
  intros s Hs. apply (P_settings s); [apply updateWalletBalance_settings | exact Hs].
Qed.

Lemma updateTronConfirmations_settingsOnly decimalPlus network h :
  preserves P (updateTronConfirmations decimalPlus network h).
Proof.
  apply updateTronConfirmations_preserves;
    auto using updateDeposit_settingsOnly, updateWalletBalance_settingsOnly.
Qed.
End SettingsOnly.

Lemma bitcoinReached_settingsOnly providers network s :
  settingsOnly (bitcoinReached providers network s).
Proof.
  intros s1 s2 Heq H. unfold bitcoinReached, checkpoint in *. rewrite Heq. exact H.
Qed.

Lemma tronReached_settingsOnly tronWeb network s : settingsOnly (tronReached tronWeb network s).
Proof.
  intros s1 s2 Heq H. unfold tronReached, checkpoint in *. rewrite Heq. exact H.
Qed.

Lemma xrpReached_settingsOnly providers network s : settingsOnly (xrpReached providers network s).
Proof.
  intros s1 s2 Heq H. unfold xrpReached, checkpoint in *. rewrite Heq. exact H.
Qed.

Lemma elem_of_bitcoinBatches (h : Z) (batch : list Z) (last tip : Z) :
  batch ∈ bitcoinBatches last tip -> h ∈ batch -> last < h <= tip.
Proof.
  intros Hbatch Hh.
  destruct (bitcoinBatches_shape _ last tip eq_refl) as (Hconcat & _ & _).
  assert (In h (concat (bitcoinBatches last tip))) as Hin.
  { apply in_concat. exists batch. split; apply list_elem_of_In; assumption. }
  rewrite Hconcat in Hin. apply list_elem_of_In, elem_of_seqZ in Hin. lia.
Qed.

Lemma checkBitcoinBlocks_reached providers network s :
  bitcoinReached providers network s (store_of (checkBitcoinBlocks providers network s)).
Proof.
  destruct (btc providers network) as [provider |] eqn:Hprovider.
  2: { left. unfold checkBitcoinBlocks. rewrite Hprovider. reflexivity. }
  destruct (Bitcoin.getblockcount provider) as [tip | e] eqn:Htip.
  2: { left. unfold checkBitcoinBlocks. rewrite Hprovider, Htip. reflexivity. }
  destruct (checkpoint "bitcoin" network s) as [last |] eqn:Hlast.
  2: { left. unfold checkBitcoinBlocks. rewrite Hprovider, Htip.
       erewrite tryCatch_congr.
       2: { erewrite bind_ok by reflexivity.
            erewrite bind_ok by apply getLastProcessedBlock_run.
            rewrite Hlast. reflexivity. }
       reflexivity. }
  rewrite (checkBitcoinBlocks_unfold _ _ _ _ _ _ Hprovider Htip Hlast).
  pose proof (bitcoinReached_settingsOnly providers network s) as Hframe.
  assert (preserves (bitcoinReached providers network s)
            (tryCatch
               (forEach (bitcoinBatches last tip)
                  (fun batch => forEach batch (bitcoinBlockAt provider network)))
               (fun e => throw e))) as Hkeeps.
  { apply preserves_tryCatch; [| intros; apply preserves_throw].
    apply preserves_forEach. intros batch Hbatch.
    apply preserves_forEach. intros h Hh.
    pose proof (elem_of_bitcoinBatches h batch last tip Hbatch Hh) as Hrange.
    unfold bitcoinBlockAt. apply preserves_bind_await. intros [block |] Hfetch.
    2: apply preserves_ret.
    unfold processBitcoinBlock. destruct (Bitcoin.tx block); [| apply preserves_ret].
    apply preserves_tryCatch; [| intros; apply preserves_throw].
    apply preserves_bind.
    { apply preserves_forEach. intros tx _. apply processBitcoinTransaction_preserves.
      intros. apply saveDeposit_settingsOnly, Hframe. }
    intros _. apply preserves_bind.
    { intros s1 _. right. exists provider, tip, last, h, block.
      repeat split; try assumption; try lia.
      apply checkpoint_saved. }
    intros _. apply preserves_bind; [| intros; apply preserves_ret].
    unfold getLastProcessedBlock. preserve. }
  apply Hkeeps. left. reflexivity.
Qed.

Lemma checkTronBlocks_reached decimalPlus quotientToString providers network tronWeb s :
  tronReached tronWeb network s
    (store_of (checkTronBlocks decimalPlus quotientToString providers network tronWeb s)).
Proof.
  destruct (Tron.getCurrentBlock tronWeb) as [current | e] eqn:Hcurrent.
  2: { left. unfold checkTronBlocks. rewrite Hcurrent. reflexivity. }
  destruct (checkpoint "trx" network s) as [last |] eqn:Hlast.
  2: { left. unfold checkTronBlocks. rewrite Hcurrent.
       erewrite tryCatch_congr.
       2: { erewrite bind_ok by reflexivity.
            erewrite bind_ok by apply getLastProcessedBlock_run.
            rewrite Hlast. reflexivity. }
       reflexivity. }
  rewrite (checkTronBlocks_unfold _ _ _ _ _ _ _ _ Hcurrent Hlast).
  pose proof (tronReached_settingsOnly tronWeb network s) as Hframe.
  assert (preserves (tronReached tronWeb network s)
            (tryCatch
               (forEach (tronHeights last (Tron.number current))
                  (tronBlockAt decimalPlus quotientToString providers network tronWeb))
               (fun _ => mret tt))) as Hkeeps.
  { apply preserves_tryCatch; [| intros; apply preserves_ret].
    apply preserves_forEach. intros h Hh.
    apply elem_of_range in Hh; [| lia].
    unfold tronBlockAt.
    apply preserves_tryCatch; [| intros; destruct (bool_decide _); apply preserves_ret].
    unfold getTronBlockWithRetry at 1.
    apply preserves_bind_await. intros [block |] Hfetch.
    2: apply preserves_ret.
    apply preserves_bind.
    { apply processTronBlock_preserves. intros. apply saveDeposit_settingsOnly, Hframe. }
    intros _. apply preserves_bind.
    { apply updateTronConfirmations_settingsOnly, Hframe. }
    intros _ s1 _. right. exists current, last, h, block.
    repeat split; try assumption; try lia.
    - unfold getTronBlockWithRetry, await. rewrite Hfetch. reflexivity.
    - apply checkpoint_saved. }
  apply Hkeeps. left. reflexivity.
Qed.

Lemma checkXrpBlocks_reached providers network s :
  xrpReached providers network s (store_of (checkXrpBlocks providers network s)).
Proof.
  destruct (xrp providers network) as [client |] eqn:Hclient.
  2: { left. unfold checkXrpBlocks. rewrite Hclient. reflexivity. }
  destruct (Xrp.validatedLedger client) as [tip | e] eqn:Htip.
  2: { left. unfold checkXrpBlocks. rewrite Hclient, Htip. reflexivity. }
  destruct (checkpoint "xrp" network s) as [last |] eqn:Hlast.
  2: { left. unfold checkXrpBlocks. rewrite Hclient, Htip.
       erewrite tryCatch_congr.
       2: { erewrite bind_ok by reflexivity.
            erewrite bind_ok by apply getLastProcessedBlock_run.
            rewrite Hlast. reflexivity. }
       reflexivity. }
  rewrite (checkXrpBlocks_unfold _ _ _ _ _ _ Hclient Htip Hlast).
  pose proof (xrpReached_settingsOnly providers network s) as Hframe.
  assert (preserves (xrpReached providers network s)
            (tryCatch (forEach (range (last + 1) tip 1) (xrpLedgerAt providers network))
                      (fun _ => mret tt))) as Hkeeps.
  { apply preserves_tryCatch; [| intros; apply preserves_ret].
    apply preserves_forEach. intros h Hh.
    apply elem_of_range in Hh; [| lia].
    unfold xrpLedgerAt. apply preserves_bind.
    { apply processXrpLedger_preserves. intros. apply saveDeposit_settingsOnly, Hframe. }
    intros _ s1 _. right. exists client, tip, last, h.
    repeat split; try assumption; try lia.
    apply checkpoint_saved. }
  apply Hkeeps. left. reflexivity.
Qed.

(** *** A Bitcoin fetch that throws *)

Lemma forEach_concat {X} (ls : list (list X)) (body : X -> M unit) (s : Store) :
  forEach ls (fun l => forEach l body) s = forEach (concat ls) body s.
Proof.
  revert s. induction ls as [| l ls IH]; intros s; [reflexivity |].
  simpl. rewrite forEach_app. unfold mbind, M_bind.
  destruct (forEach l body s) as [[[] | e] s1]; [apply IH | reflexivity].
Qed.

Lemma bitcoinBlockAt_fetched provider network low high s h :
  low < h <= high ->
  preserves (bitcoinFetched provider network low high s) (bitcoinBlockAt provider network h).
Proof.
  intros Hrange.
  assert (settingsOnly (bitcoinFetched provider network low high s)) as Hframe.
  { intros s1 s2 Heq H. unfold bitcoinFetched, checkpoint in *. rewrite Heq. exact H. }
  unfold bitcoinBlockAt. apply preserves_bind_await. intros [block |] Hfetch.
  2: apply preserves_ret.
  unfold processBitcoinBlock. destruct (Bitcoin.tx block); [| apply preserves_ret].
  apply preserves_tryCatch; [| intros; apply preserves_throw].
  apply preserves_bind.
  { apply preserves_forEach. intros tx _. apply processBitcoinTransaction_preserves.
    intros. apply saveDeposit_settingsOnly, Hframe. }
  intros _. apply preserves_bind.
  { intros s1 _. right. exists h, block. repeat split; try assumption; try lia.
    apply checkpoint_saved. }
  intros _. apply preserves_bind; [| intros; apply preserves_ret].
  unfold getLastProcessedBlock. preserve.
Qed.

(** When the fetch of height [H] throws, the tick throws, and the checkpoint
    is where it was or at the height recorded in a block fetched below [H]. *)
Lemma checkBitcoinBlocks_error_stops providers network provider tip last H e s :
  btc providers network = Some provider ->
  Bitcoin.getblockcount provider = Ok tip ->
  checkpoint "bitcoin" network s = Some last ->
  last < H <= tip ->
  Bitcoin.getblock provider H = Thrown e ->
  (exists e', result_of (checkBitcoinBlocks providers network s) = Thrown e')
  /\ bitcoinFetched provider network last (H - 1) s
       (store_of (checkBitcoinBlocks providers network s)).
Proof.
  intros Hprovider Htip Hlast Hrange Hfetch.
  rewrite (checkBitcoinBlocks_unfold _ _ _ _ _ _ Hprovider Htip Hlast).
  unfold tryCatch. rewrite forEach_concat.
  destruct (bitcoinBatches_shape _ last tip eq_refl) as (-> & _ & _).
  replace (tip - last) with ((H - 1 - last) + (tip - (H - 1))) by lia.
  rewrite seqZ_app by lia. rewrite forEach_app.
  pose proof (preserves_forEach (bitcoinFetched provider network last (H - 1) s)
                (seqZ (last + 1) (H - 1 - last)) (bitcoinBlockAt provider network)) as Hbelow.
  specialize (Hbelow ltac:(intros h Hh; apply bitcoinBlockAt_fetched;
                           apply elem_of_seqZ in Hh; lia) s ltac:(left; reflexivity)).
  destruct (forEach (seqZ (last + 1) (H - 1 - last)) (bitcoinBlockAt provider network) s)
    as [[[] | e0] s1]; simpl in Hbelow.
  - rewrite seqZ_cons by lia. cbn [forEach].
    replace (last + 1 + (H - 1 - last)) with H by lia.
    erewrite bind_thrown.
    2: { unfold bitcoinBlockAt. erewrite bind_thrown; [reflexivity |].
         unfold await. rewrite Hfetch. reflexivity. }
    simpl. split; [eauto | exact Hbelow].
  - simpl. split; [eauto | exact Hbelow].
Qed.



(** The tick of the witness: block 11 is processed, the fetch of block 12
    throws, the checkpoint stays at 11. *)
Example bitcoin_tick_stops_at_error :
  checkpoint "bitcoin" "mainnet"
    (store_of (checkBitcoinBlocks (Scenario.bitcoinOnly (Scenario.brokenBitcoin 13 12)) "mainnet"
                 (Scenario.checkpointAt "last_processed_block_btc_mainnet" 10)))
  = Some 11.
Proof. vm_compute. reflexivity. Qed.


(** ** One step of a confirmation pass *)

Section Step.
Variable decimalPlus : string -> string -> option string.

(** The ledger transaction either throws and leaves the store as it was,
    or adds the amount to one balance row and commits one credit. *)
Lemma updateWalletBalance_cases (d : Deposit.t) (s : Store) :
  (exists e, updateWalletBalance decimalPlus d s = (Thrown e, s))
  \/ (exists token i balance sum,
        head (filter (fun t => Token.id t = Deposit.tokenId d) (tokens s)) = Some token
        /\ findBalance (Deposit.userId d) (balanceSymbol token) (walletBalances s) = Some i
        /\ walletBalances s !! i = Some balance
        /\ decimalPlus (WalletBalance.balance balance) (Deposit.amount d) = Some sum
        /\ updateWalletBalance decimalPlus d s
           = (Ok tt,
              setWalletBalances
                (<[i := WalletBalance.setBalance balance sum]> (walletBalances s))
                (mkCredit (Deposit.id d) (Deposit.userId d) (balanceSymbol token)
                          (Deposit.amount d) :: ledger s)
                s)).
Proof.
  unfold updateWalletBalance, transaction, mbind, M_bind, gets, throw, modify.
  destruct (head _) as [token |] eqn:Htoken; [| left; eauto].
  destruct (findBalance _ _ _) as [i |] eqn:Hi; [| left; eauto].
  destruct (walletBalances s !! i) as [balance |] eqn:Hbalance; [| left; eauto].
  destruct (decimalPlus _ _) as [sum |] eqn:Hsum; [| left; eauto].
  right. exists token, i, balance, sum. repeat split; assumption.
Qed.

Lemma confirmDeposit_thrown e currentBlock d s :
  confirmDeposit decimalPlus (await (Thrown e)) currentBlock d s = (Thrown e, s).
Proof. reflexivity. Qed.

Lemma confirmDeposit_ok r currentBlock d s :
  confirmDeposit decimalPlus (await (Ok r)) currentBlock d s
  = let confirmations := currentBlock - default 0 (Deposit.blockNumber d) in
    let s1 := setDeposits (updated (Deposit.id d) confirmations (statusFor confirmations r)
                             <$> deposits s) (depositSeq s) s in
    if Js.geq confirmations r && negb (bool_decide (Deposit.status d = confirmed))
    then updateWalletBalance decimalPlus d s1
    else (Ok tt, s1).
Proof.
  unfold confirmDeposit, mbind, M_bind, await, updateDeposit, modify. cbv zeta.
  fold (statusFor (currentBlock - default 0 (Deposit.blockNumber d)) r).
  destruct (_ && _); reflexivity.
Qed.

(** The three things a step can do to the store: nothing (the required
    count could not be looked up), write the progress of the deposit, or
    write it as confirmed and commit its credit. *)
Lemma confirmDeposit_effect required currentBlock d s :
  let confirmations := currentBlock - default 0 (Deposit.blockNumber d) in
  let s' := store_of (confirmDeposit decimalPlus (await required) currentBlock d s) in
  s' = s
  \/ (exists r,
        required = Ok r
        /\ s' = setDeposits (updated (Deposit.id d) confirmations (statusFor confirmations r)
                               <$> deposits s) (depositSeq s) s)
  \/ (exists r bs token,
        required = Ok r /\ Js.geq confirmations r = true /\ Deposit.status d <> confirmed
        /\ result_of (confirmDeposit decimalPlus (await required) currentBlock d s) = Ok tt
        /\ s' = setWalletBalances bs
                  (mkCredit (Deposit.id d) (Deposit.userId d) (balanceSymbol token)
                            (Deposit.amount d) :: ledger s)
                  (setDeposits (updated (Deposit.id d) confirmations confirmed <$> deposits s)
                               (depositSeq s) s)).
Proof.
  intros confirmations s'. subst s'.
  destruct required as [r | e]; [| left; reflexivity].
  rewrite confirmDeposit_ok. fold confirmations. cbv zeta.
  destruct (Js.geq confirmations r) eqn:Hgeq; simpl.
  - destruct (bool_decide_reflect (Deposit.status d = confirmed)) as [Hst | Hst]; simpl.
    + right. left. exists r. split; reflexivity.
    + match goal with
      | |- context [updateWalletBalance decimalPlus d ?s1] =>
          destruct (updateWalletBalance_cases d s1)
            as [[e ->] | (token & i & balance & sum & _ & _ & _ & _ & ->)]
      end.
      * right. left. exists r. split; reflexivity.
      * right. right. exists r. eexists. exists token.
        unfold statusFor. rewrite Hgeq. repeat split; try assumption; reflexivity.
  - right. left. exists r. split; reflexivity.
Qed.
End Step.

(** ** A pass as a loop of steps *)

Section Pass.
Variable decimalPlus : string -> string -> option string.

Lemma updateEvmConfirmations_unfold chain network currentBlock s :
  updateEvmConfirmations decimalPlus chain network currentBlock s
  = (Ok tt,
     store_of (forEach (findPendingDeposits chain network s)
                 (confirmDeposit decimalPlus (await (evmRequired chain network)) currentBlock)
                 s)).
Proof.
  unfold updateEvmConfirmations, evmRequired, tryCatch. cbv zeta.
  erewrite bind_ok by reflexivity.
  destruct (CONFIRMATION_BLOCKS _) as [row |].
  - change (@mret M _ _ (row network)) with (await (Ok (row network))).
    destruct (forEach _ _ s) as [[[] | e] s']; reflexivity.
  - change (@throw (option Z) ?e) with (await (@Thrown (option Z) e)).
    destruct (forEach _ _ s) as [[[] | e] s']; reflexivity.
Qed.

Lemma found_in chain network s d :
  d ∈ findPendingDeposits chain network s ->
  d ∈ deposits s /\ Deposit.status d <> confirmed.
Proof.
  unfold findPendingDeposits. intros Hd.
  apply list_elem_of_filter in Hd as [(_ & _ & Hst & _) Hin].
  split; [exact Hin |]. destruct Hst as [-> | ->]; discriminate.
Qed.

Lemma found_NoDup chain network s :
  NoDup (Deposit.id <$> deposits s) ->
  NoDup (Deposit.id <$> findPendingDeposits chain network s).
Proof.
  intros Hnodup. eapply sublist_NoDup; [exact Hnodup |].
  apply fmap_sublist, sublist_filter.
Qed.

Lemma updated_id i c st d : Deposit.id (updated i c st d) = Deposit.id d.
Proof. unfold updated. destruct (bool_decide _); reflexivity. Qed.

Lemma updated_other i c st d : Deposit.id d <> i -> updated i c st d = d.
Proof. intros H. unfold updated. rewrite bool_decide_eq_false_2 by exact H. reflexivity. Qed.

Lemma updated_ids i c st (l : list Deposit.t) :
  Deposit.id <$> (updated i c st <$> l) = Deposit.id <$> l.
Proof.
  rewrite <- list_fmap_compose. apply list_fmap_ext. intros _ d _. apply updated_id.
Qed.

(** A step leaves the rows of the other deposits as they are. *)
Lemma confirmDeposit_frame required currentBlock d s d' :
  d' ∈ deposits s -> Deposit.id d' <> Deposit.id d ->
  d' ∈ deposits (store_of (confirmDeposit decimalPlus (await required) currentBlock d s)).
Proof.
  intros Hin Hne.
  destruct (confirmDeposit_effect decimalPlus required currentBlock d s)
    as [-> | [(r & _ & ->) | (r & bs & token & _ & _ & _ & _ & ->)]]; simpl.
  - exact Hin.
  - eapply list_elem_of_fmap_2' ; [exact Hin | symmetry; apply updated_other, Hne].
  - eapply list_elem_of_fmap_2' ; [exact Hin | symmetry; apply updated_other, Hne].
Qed.

(** A property kept by the step of every deposit found is kept by the
    loop, which stops at the first step that throws. *)
Lemma pass_induction (R : Store -> Prop) (F : Deposit.t -> Prop) required currentBlock :
  (forall d s, F d -> R s -> d ∈ deposits s ->
               R (store_of (confirmDeposit decimalPlus (await required) currentBlock d s))) ->
  forall found s,
    R s -> NoDup (Deposit.id <$> found) ->
    (forall d, d ∈ found -> F d /\ d ∈ deposits s) ->
    R (store_of (forEach found (confirmDeposit decimalPlus (await required) currentBlock) s)).
Proof.
  intros Hstep found. induction found as [| d rest IH]; intros s Hs Hnodup Hfound.
  - exact Hs.
  - rewrite fmap_cons in Hnodup. apply NoDup_cons in Hnodup as [Hfresh Hnodup].
    destruct (Hfound d) as [HF Hin]; [constructor |].
    pose proof (Hstep d s HF Hs Hin) as Hs1.
    cbn [forEach]. unfold mbind, M_bind.
    destruct (confirmDeposit decimalPlus (await required) currentBlock d s)
      as [[[] | e] s1] eqn:Hrun; simpl in Hs1; [| exact Hs1].
    apply IH; [exact Hs1 | exact Hnodup |].
    intros d' Hd'. destruct (Hfound d') as [HF' Hin']; [constructor; exact Hd' |].
    split; [exact HF' |].
    replace s1 with
      (store_of (confirmDeposit decimalPlus (await required) currentBlock d s))
      by (rewrite Hrun; reflexivity).
    apply confirmDeposit_frame; [exact Hin' |].
    intros Heq. apply Hfresh. rewrite <- Heq. apply list_elem_of_fmap_2, Hd'.
Qed.

(** The same for a whole pass of the updater. *)
Lemma pass_keeps (R : Store -> Prop) chain network currentBlock s :
  (forall d s', Deposit.status d <> confirmed -> R s' -> d ∈ deposits s' ->
     R (store_of (confirmDeposit decimalPlus (await (evmRequired chain network))
                    currentBlock d s'))) ->
  NoDup (Deposit.id <$> deposits s) -> R s ->
  R (store_of (updateEvmConfirmations decimalPlus chain network currentBlock s)).
Proof.
  intros Hstep Hnodup Hs. rewrite updateEvmConfirmations_unfold. simpl.
  apply (pass_induction R (fun d => Deposit.status d <> confirmed)).
  - exact Hstep.
  - exact Hs.
  - apply found_NoDup, Hnodup.
  - intros d Hd. destruct (found_in _ _ _ _ Hd). split; assumption.
Qed.
End Pass.

(** ** Crediting at most once *)

Lemma same_id_same_row (l : list Deposit.t) (x y : Deposit.t) :
  NoDup (Deposit.id <$> l) -> x ∈ l -> y ∈ l -> Deposit.id x = Deposit.id y -> x = y.
Proof.
  intros Hnodup Hx Hy Heq.
  apply list_elem_of_lookup in Hx as [i Hi]. apply list_elem_of_lookup in Hy as [j Hj].
  assert (i = j) as ->.
  { apply (NoDup_lookup (Deposit.id <$> l) i j (Deposit.id x)); [exact Hnodup | |].
    - rewrite list_lookup_fmap, Hi. reflexivity.
    - rewrite list_lookup_fmap, Hj, Heq. reflexivity. }
  congruence.
Qed.

Lemma wfIds_updated i c st s :
  wfIds s -> wfIds (setDeposits (updated i c st <$> deposits s) (depositSeq s) s).
Proof.
  intros [Hnodup Hbelow]. split; simpl.
  - rewrite updated_ids. exact Hnodup.
  - intros d Hd. apply list_elem_of_fmap in Hd as (d0 & -> & Hd0).
    rewrite updated_id. apply Hbelow, Hd0.
Qed.

Section CreditedOnce.
Variable decimalPlus : string -> string -> option string.

(** The row behind an old credit is not the row of a deposit that is
    not confirmed yet, so the step leaves it alone. *)
Lemma credit_row_kept s d c0 conf st :
  creditedOnce s -> d ∈ deposits s -> Deposit.status d <> confirmed -> c0 ∈ ledger s ->
  exists row, row ∈ (updated (Deposit.id d) conf st <$> deposits s)
              /\ Deposit.id row = creditDeposit c0
              /\ Deposit.amount row = creditAmount c0 /\ Deposit.status row = confirmed.
Proof.
  intros ([Hnodup _] & _ & Hrows) Hd Hst Hc0.
  destruct (Hrows c0 Hc0) as (row & Hrow & Hid & Hamount & Hconfirmed).
  exists row. repeat split; try assumption.
  eapply list_elem_of_fmap_2'; [exact Hrow |]. symmetry. apply updated_other.
  intros Heq. apply Hst.
  rewrite <- (same_id_same_row _ row d Hnodup Hrow Hd Heq). exact Hconfirmed.
Qed.

Lemma confirmDeposit_creditedOnce required currentBlock d s :
  Deposit.status d <> confirmed -> creditedOnce s -> d ∈ deposits s ->
  creditedOnce (store_of (confirmDeposit decimalPlus (await required) currentBlock d s)).
Proof.
  intros Hst Hs Hd.
  destruct (confirmDeposit_effect decimalPlus required currentBlock d s)
    as [-> | [(r & _ & ->) | (r & bs & token & _ & _ & _ & _ & ->)]].
  - exact Hs.
  - pose proof Hs as (Hwf & Hledger & Hrows).
    split; [apply wfIds_updated, Hwf |]. split; [exact Hledger |].
    intros c0 Hc0. simpl. apply credit_row_kept; assumption.
  - pose proof Hs as (Hwf & Hledger & Hrows).
    split; [apply wfIds_updated, Hwf |]. simpl. split.
    + apply NoDup_cons. split; [| exact Hledger]. simpl.
      intros Hin. apply list_elem_of_fmap in Hin as (c0 & Hid0 & Hc0).
      destruct (Hrows c0 Hc0) as (row & Hrow & Hid & _ & Hconfirmed).
      apply Hst. destruct Hwf as [Hnodup _].
      rewrite (same_id_same_row _ d row Hnodup Hd Hrow); [exact Hconfirmed | congruence].
    + intros c0 Hc0. apply elem_of_cons in Hc0 as [-> | Hc0].
      * exists (Deposit.setProgress (currentBlock - default 0 (Deposit.blockNumber d))
                  confirmed d).
        repeat split. eapply list_elem_of_fmap_2'; [exact Hd |].
        unfold updated. rewrite bool_decide_eq_true_2 by reflexivity. reflexivity.
      * apply credit_row_kept; assumption.
Qed.

Lemma updateEvmConfirmations_creditedOnce chain network currentBlock :
  preserves creditedOnce (updateEvmConfirmations decimalPlus chain network currentBlock).
Proof.
  intros s Hs. apply pass_keeps; [| apply Hs | exact Hs].
  intros d s' Hst Hs' Hd. apply confirmDeposit_creditedOnce; assumption.
Qed.
End CreditedOnce.

Lemma wfIds_saved s row :
  wfIds s ->
  wfIds (setDeposits (deposits s ++ [Deposit.withId (depositSeq s) row])
                     (N.succ (depositSeq s)) s).
Proof.
  intros [Hnodup Hbelow]. split; simpl.
  - rewrite fmap_app. apply NoDup_app. split; [exact Hnodup |]. split.
    + intros i Hi Hi'. apply list_elem_of_singleton in Hi'. simpl in Hi'. subst i.
      apply list_elem_of_fmap in Hi as (d & Hid & Hd). specialize (Hbelow d Hd). lia.
    + apply NoDup_singleton.
  - intros d Hd. apply elem_of_app in Hd as [Hd | Hd].
    + specialize (Hbelow d Hd). lia.
    + apply list_elem_of_singleton in Hd. subst d. simpl. lia.
Qed.

Lemma saveDeposit_creditedOnce row : preserves creditedOnce (saveDeposit row).
Proof.
  intros s Hs. unfold saveDeposit. destruct (_ && _); simpl; [exact Hs |].
  destruct Hs as (Hwf & Hledger & Hrows).
  split; [apply wfIds_saved, Hwf |]. split; [exact Hledger |].
  intros c Hc. destruct (Hrows c Hc) as (d & Hd & Hrest).
  exists d. split; [| exact Hrest]. simpl. apply elem_of_app. left. exact Hd.
Qed.

Lemma saveLastProcessedBlock_creditedOnce chain network n :
  preserves creditedOnce (saveLastProcessedBlock chain network n).
Proof. intros s Hs. rewrite saveLastProcessedBlock_run. exact Hs. Qed.

(** Every run of the service keeps [creditedOnce]. *)
Lemma run_creditedOnce decimalPlus quotientToString providers calls s :
  creditedOnce s -> creditedOnce (run decimalPlus quotientToString providers calls s).
Proof.
  intros Hs. apply run_preserves; try exact Hs; intros.
  - apply saveDeposit_creditedOnce.
  - apply saveLastProcessedBlock_creditedOnce.
  - apply updateEvmConfirmations_creditedOnce.
Qed.

(** ** A confirmed deposit is left alone *)

Section Settled.
Variable decimalPlus : string -> string -> option string.
Variables (i : N) (credits : list Credit).

Lemma settled_not_found s d :
  settled i credits s -> d ∈ deposits s -> Deposit.status d <> confirmed -> Deposit.id d <> i.
Proof. intros (_ & [_ Hall] & _) Hd Hst Heq. exact (Hst (Hall d Hd Heq)). Qed.

Lemma confirmedIn_updated j c st s :
  j <> i -> confirmedIn i s ->
  confirmedIn i (setDeposits (updated j c st <$> deposits s) (depositSeq s) s).
Proof.
  intros Hne [(d0 & Hd0 & Hid0) Hall]. split; simpl.
  - exists d0. split; [| exact Hid0].
    eapply list_elem_of_fmap_2'; [exact Hd0 |]. symmetry. apply updated_other. congruence.
  - intros row Hrow Hid. apply list_elem_of_fmap in Hrow as (row0 & -> & Hrow0).
    rewrite updated_id in Hid. rewrite updated_other by congruence. apply Hall; assumption.
Qed.

Lemma confirmDeposit_settled required currentBlock d s :
  Deposit.status d <> confirmed -> settled i credits s -> d ∈ deposits s ->
  settled i credits (store_of (confirmDeposit decimalPlus (await required) currentBlock d s)).
Proof.
  intros Hst Hs Hd. pose proof (settled_not_found s d Hs Hd Hst) as Hne.
  destruct Hs as (Hwf & Hconfirmed & Hcredits).
  destruct (confirmDeposit_effect decimalPlus required currentBlock d s)
    as [-> | [(r & _ & ->) | (r & bs & token & _ & _ & _ & _ & ->)]].
  - split; [exact Hwf | split; [exact Hconfirmed | exact Hcredits]].
  - split; [apply wfIds_updated, Hwf |].
    split; [apply confirmedIn_updated; assumption | exact Hcredits].
  - split; [apply wfIds_updated, Hwf |].
    split; [apply (confirmedIn_updated _ _ _ s); assumption |].
    unfold creditsOf. simpl. rewrite filter_cons_False by exact Hne. exact Hcredits.
Qed.

Lemma updateEvmConfirmations_settled chain network currentBlock :
  preserves (settled i credits)
    (updateEvmConfirmations decimalPlus chain network currentBlock).
Proof.
  intros s Hs. apply pass_keeps; [| apply Hs | exact Hs].
  intros d s' Hst Hs' Hd. apply confirmDeposit_settled; assumption.
Qed.

Lemma saveDeposit_settled row : preserves (settled i credits) (saveDeposit row).
Proof.
  intros s Hs. unfold saveDeposit. destruct (_ && _); simpl; [exact Hs |].
  destruct Hs as (Hwf & [(d0 & Hd0 & Hid0) Hall] & Hcredits).
  split; [apply wfIds_saved, Hwf |]. split; [| exact Hcredits]. split; simpl.
  - exists d0. split; [apply elem_of_app; left; exact Hd0 | exact Hid0].
  - intros d Hd Hid. apply elem_of_app in Hd as [Hd | Hd]; [apply Hall; assumption |].
    apply list_elem_of_singleton in Hd. subst d. simpl in Hid.
    destruct Hwf as [_ Hbelow]. specialize (Hbelow d0 Hd0). lia.
Qed.

Lemma saveLastProcessedBlock_settled chain network n :
  preserves (settled i credits) (saveLastProcessedBlock chain network n).
Proof. intros s Hs. rewrite saveLastProcessedBlock_run. exact Hs. Qed.

(** No run of the service credits a deposit that is already confirmed, or
    takes it out of [confirmed]. *)
Lemma run_settled quotientToString providers calls s :
  settled i credits s -> settled i credits (run decimalPlus quotientToString providers calls s).
Proof.
  intros Hs. apply run_preserves; try exact Hs; intros.
  - apply saveDeposit_settled.
  - apply saveLastProcessedBlock_settled.
  - apply updateEvmConfirmations_settled.
Qed.
End Settled.



(** The run of the witness: the deposit of block 1 is confirmed by the
    second tick, credited then, and not again by the third. *)
Example tron_deposit_credited_once :
  let s := run Reference.decimalPlus Reference.quotientToString
             (Scenario.tronOnly (Scenario.payingTron 100))
             [CheckTronBlocks "testnet" (Scenario.payingTron 100);
              CheckTronBlocks "testnet" (Scenario.payingTron 100);
              CheckTronBlocks "testnet" (Scenario.payingTron 100)]
             Scenario.tronStoreEmpty in
  (fun d => (Deposit.amount d, Deposit.status d, Deposit.confirmations d)) <$> deposits s
    = [("2.5", confirmed, 10)]
  /\ ledger s = [mkCredit 1 "alice" "TRX" "2.5"]
  /\ WalletBalance.balance <$> walletBalances s = ["12.5"; "0"].
Proof. vm_compute. repeat split. Qed.


(** ** Heights below the block of a deposit *)

Lemma evmRequired_positive chain network n :
  evmRequired chain network = Ok (Some n) -> 0 < n.
Proof.
  unfold evmRequired, CONFIRMATION_BLOCKS.
  repeat (destruct (bool_decide _); simpl); intros H; inversion H; lia.
Qed.

(** A negative difference never reaches the required count. *)
Lemma negative_below_required chain network r c :
  evmRequired chain network = Ok r -> c < 0 -> Js.geq c r = false.
Proof.
  intros Hr Hc. destruct r as [n |]; [| reflexivity].
  apply evmRequired_positive in Hr. simpl. apply Z.leb_gt. lia.
Qed.

Section Negative.
Variable decimalPlus : string -> string -> option string.
Variables (chain network : string) (currentBlock b : Z) (d : Deposit.t) (s : Store).
Hypothesis d_block : Deposit.blockNumber d = Some b.
Hypothesis negative : currentBlock - b < 0.

Lemma confirmDeposit_negativeKept x s' :
  negativeKept currentBlock b d s s' -> x ∈ deposits s' ->
  negativeKept currentBlock b d s (store_of (confirmDeposit decimalPlus (await (evmRequired chain network))
                            currentBlock x s')).
Proof.
  intros [Hrows Hcredits] Hx.
  assert (Deposit.id x = Deposit.id d ->
          currentBlock - default 0 (Deposit.blockNumber x) = currentBlock - b) as Hconf.
  { intros Hid. destruct (Hrows x Hx Hid) as [-> | ->]; simpl; rewrite d_block; reflexivity. }
  destruct (confirmDeposit_effect decimalPlus (evmRequired chain network) currentBlock x s')
    as [-> | [(r & Hr & ->) | (r & bs & token & Hr & Hgeq & _ & _ & ->)]].
  - split; assumption.
  - split; [| exact Hcredits]. simpl. intros row Hrow Hid.
    apply list_elem_of_fmap in Hrow as (row0 & -> & Hrow0). rewrite updated_id in Hid.
    unfold updated. destruct (bool_decide_reflect (Deposit.id row0 = Deposit.id x)) as [Hsame | Hother].
    + right. rewrite Hconf by congruence.
      unfold statusFor. rewrite (negative_below_required _ _ _ _ Hr negative).
      destruct (Hrows row0 Hrow0 Hid) as [-> | ->]; reflexivity.
    + apply Hrows; assumption.
  - destruct (decide (Deposit.id x = Deposit.id d)) as [Hid | Hid].
    { rewrite (Hconf Hid), (negative_below_required _ _ _ _ Hr negative) in Hgeq.
      discriminate. }
    split; simpl.
    + intros row Hrow Hrowid.
      apply list_elem_of_fmap in Hrow as (row0 & -> & Hrow0). rewrite updated_id in Hrowid.
      rewrite updated_other by congruence. apply Hrows; assumption.
    + unfold creditsOf in *. simpl. rewrite filter_cons_False by exact Hid. exact Hcredits.
Qed.
End Negative.

(** C7, as amended.  In a pass at a height below the block of a deposit,
    the step of that deposit writes the negative difference itself as its
    confirmations, with status [confirming], and credits nothing; after the
    pass its row is as it was found (the pass stopped before it) or carries
    the negative difference, and it got no credit.  The Tron updater is the
    same pass on chain [trx]. *)
Theorem negative_confirmations_persisted decimalPlus chain network currentBlock s d b :
  NoDup (Deposit.id <$> deposits s) ->
  d ∈ findPendingDeposits chain network s ->
  Deposit.blockNumber d = Some b ->
  currentBlock - b < 0 ->
  (forall r, evmRequired chain network = Ok r ->
     confirmDeposit decimalPlus (await (evmRequired chain network)) currentBlock d s
     = (Ok tt,
        setDeposits (updated (Deposit.id d) (currentBlock - b) confirming <$> deposits s)
                    (depositSeq s) s))
  /\ negativeKept currentBlock b d s
       (store_of (updateEvmConfirmations decimalPlus chain network currentBlock s))
  /\ updateTronConfirmations decimalPlus network currentBlock
     = updateEvmConfirmations decimalPlus "trx" network currentBlock.
Proof.
  intros Hnodup Hfound Hblock Hneg. split; [| split].
  - intros r Hr. rewrite Hr, confirmDeposit_ok. cbv zeta. rewrite Hblock. simpl.
    unfold statusFor. rewrite (negative_below_required _ _ _ _ Hr Hneg). reflexivity.
  - apply (pass_keeps decimalPlus (negativeKept currentBlock b d s)).
    + intros x s' _ Hkept Hx. apply confirmDeposit_negativeKept; assumption.
    + exact Hnodup.
    + split; [| reflexivity]. intros row Hrow Hid. left.
      apply found_in in Hfound as [Hd _].
      apply (same_id_same_row (deposits s)); assumption.
  - reflexivity.
Qed.

Lemma negative_confirmations_persisted_witness :
  negativeKept 0 1 (Scenario.trxDeposit 1 "alice" "w-alice" "tx-a" "2.5") Scenario.tronStore
    (store_of (updateTronConfirmations Reference.decimalPlus "testnet" 0 Scenario.tronStore)).
Proof.
  apply (negative_confirmations_persisted Reference.decimalPlus "trx" "testnet" 0
           Scenario.tronStore (Scenario.trxDeposit 1 "alice" "w-alice" "tx-a" "2.5") 1).
  - compute_done.
  - vm_compute. constructor.
  - reflexivity.
  - reflexivity.
Defined.

(** C7 as stated fails.  A pass at height 0 over deposits of block 1 stores
    the confirmations as -1, not as zero. *)
Lemma negative_confirmations_counterexample :
  (fun d => (Deposit.status d, Deposit.confirmations d))
    <$> deposits (store_of (updateTronConfirmations Reference.decimalPlus "testnet" 0
                              Scenario.tronStore))
  = [(confirming, -1); (confirming, -1); (confirming, -1)].
Proof. vm_compute. reflexivity. Qed.

(** ** A credit that fails in the middle of a pass *)

Section Aborted.
Variable decimalPlus : string -> string -> option string.

Lemma confirmDeposit_wfIds required currentBlock d s :
  wfIds s ->
  wfIds (store_of (confirmDeposit decimalPlus (await required) currentBlock d s)).
Proof.
  intros Hwf.
  destruct (confirmDeposit_effect decimalPlus required currentBlock d s)
    as [-> | [(r & _ & ->) | (r & bs & token & _ & _ & _ & _ & ->)]].
  - exact Hwf.
  - apply wfIds_updated, Hwf.
  - apply (wfIds_updated _ _ _ s), Hwf.
Qed.

Lemma confirmDeposit_credits_other required currentBlock d s i :
  Deposit.id d <> i ->
  creditsOf i (store_of (confirmDeposit decimalPlus (await required) currentBlock d s))
  = creditsOf i s.
Proof.
  intros Hne.
  destruct (confirmDeposit_effect decimalPlus required currentBlock d s)
    as [-> | [(r & _ & ->) | (r & bs & token & _ & _ & _ & _ & ->)]];
    try reflexivity.
  unfold creditsOf. simpl. rewrite filter_cons_False by exact Hne. reflexivity.
Qed.

(** The steps of the deposits found first leave alone the deposits found
    later. *)
Lemma earlier_steps_frame required currentBlock (pre later : list Deposit.t) s :
  wfIds s ->
  NoDup (Deposit.id <$> (pre ++ later)%list) ->
  (forall x, x ∈ (pre ++ later)%list -> x ∈ deposits s) ->
  let s1 := store_of (forEach pre (confirmDeposit decimalPlus (await required) currentBlock) s) in
  wfIds s1
  /\ forall x, x ∈ later ->
       x ∈ deposits s1 /\ creditsOf (Deposit.id x) s1 = creditsOf (Deposit.id x) s.
Proof.
  intros Hwf Hnodup Hin.
  rewrite fmap_app in Hnodup. apply NoDup_app in Hnodup as (Hpre & Hdisjoint & _).
  apply (pass_induction decimalPlus
           (fun s1 => wfIds s1 /\ forall x, x ∈ later ->
                        x ∈ deposits s1
                        /\ creditsOf (Deposit.id x) s1 = creditsOf (Deposit.id x) s)
           (fun y => forall x, x ∈ later -> Deposit.id y <> Deposit.id x)).
  - intros y s1 Hy [Hwf1 Hlater] Hy1. split; [apply confirmDeposit_wfIds, Hwf1 |].
    intros x Hx. destruct (Hlater x Hx) as [Hx1 Hcredits]. split.
    + apply confirmDeposit_frame; [exact Hx1 |]. intros Heq. exact (Hy x Hx (eq_sym Heq)).
    + rewrite confirmDeposit_credits_other by exact (Hy x Hx). exact Hcredits.
  - split; [exact Hwf |]. intros x Hx. split; [| reflexivity].
    apply Hin, elem_of_app. right. exact Hx.
  - exact Hpre.
  - intros y Hy. split.
    + intros x Hx Heq. apply (Hdisjoint (Deposit.id y)).
      * apply list_elem_of_fmap_2, Hy.
      * rewrite Heq. apply list_elem_of_fmap_2, Hx.
    + apply Hin, elem_of_app. left. exact Hy.
Qed.
End Aborted.



(** The pass of the witness: Alice is credited, Bob's deposit is confirmed
    and not credited, Carol's deposit is still pending with no
    confirmation; the next pass credits Carol and leaves Bob out. *)
Example pass_aborted_at_bob :
  let pass h s := store_of (updateTronConfirmations Reference.decimalPlus "testnet" h s) in
  let view s := (fun d => (Deposit.userId d, Deposit.status d, Deposit.confirmations d))
                  <$> deposits s in
  view (pass 11 Scenario.tronStore)
    = [("alice", confirmed, 10); ("bob", confirmed, 10); ("carol", pending, 0)]
  /\ creditUser <$> ledger (pass 11 Scenario.tronStore) = ["alice"]
  /\ view (pass 12 (pass 11 Scenario.tronStore))
     = [("alice", confirmed, 10); ("bob", confirmed, 10); ("carol", confirmed, 11)]
  /\ creditUser <$> ledger (pass 12 (pass 11 Scenario.tronStore)) = ["carol"; "alice"].
Proof. vm_compute. repeat split. Qed.


(** ** A pass that goes through *)

Section Completed.
Variable decimalPlus : string -> string -> option string.
Variables (r : option Z) (currentBlock : Z).

Local Abbreviation step := (confirmDeposit decimalPlus (await (Ok r)) currentBlock).

Lemma steps_keep_row (found : list Deposit.t) (row : Deposit.t) (s : Store) :
  NoDup (Deposit.id <$> found) ->
  (forall d, d ∈ found -> d ∈ deposits s) ->
  Deposit.id row ∉ Deposit.id <$> found ->
  row ∈ deposits s ->
  row ∈ deposits (store_of (forEach found step s)).
Proof.
  intros Hnodup Hin Hfresh Hrow.
  apply (pass_induction decimalPlus (fun s1 => row ∈ deposits s1)
           (fun y => Deposit.id row <> Deposit.id y)).
  - intros y s1 Hy Hrow1 _. apply confirmDeposit_frame; assumption.
  - exact Hrow.
  - exact Hnodup.
  - intros y Hy. split; [| apply Hin, Hy].
    intros Heq. apply Hfresh. rewrite Heq. apply list_elem_of_fmap_2, Hy.
Qed.

(** With the required count at hand, a step writes the progress of its
    deposit whether or not a credit follows. *)
Lemma step_deposits (d : Deposit.t) (s : Store) :
  deposits (store_of (step d s))
  = updated (Deposit.id d) (currentBlock - default 0 (Deposit.blockNumber d))
      (statusFor (currentBlock - default 0 (Deposit.blockNumber d)) r) <$> deposits s.
Proof.
  rewrite confirmDeposit_ok. cbv zeta.
  destruct (_ && _); [| reflexivity].
  match goal with
  | |- context [updateWalletBalance decimalPlus d ?s1] =>
      destruct (updateWalletBalance_deposits decimalPlus d s1) as (-> & _)
  end.
  reflexivity.
Qed.

Lemma step_writes_progress (d : Deposit.t) (s : Store) :
  d ∈ deposits s ->
  Deposit.setProgress (currentBlock - default 0 (Deposit.blockNumber d))
    (statusFor (currentBlock - default 0 (Deposit.blockNumber d)) r) d
  ∈ deposits (store_of (step d s)).
Proof.
  intros Hd. rewrite step_deposits. eapply list_elem_of_fmap_2'; [exact Hd |].
  unfold updated. rewrite bool_decide_eq_true_2 by reflexivity. reflexivity.
Qed.

(** When no step throws, every deposit found has its progress written. *)
Lemma steps_update_all (found : list Deposit.t) :
  forall s,
    NoDup (Deposit.id <$> found) ->
    (forall d, d ∈ found -> d ∈ deposits s) ->
    result_of (forEach found step s) = Ok tt ->
    forall d, d ∈ found ->
      Deposit.setProgress (currentBlock - default 0 (Deposit.blockNumber d))
        (statusFor (currentBlock - default 0 (Deposit.blockNumber d)) r) d
      ∈ deposits (store_of (forEach found step s)).
Proof.
  induction found as [| x rest IH]; intros s Hnodup Hin Hok d Hd; [inversion Hd |].
  rewrite fmap_cons in Hnodup. apply NoDup_cons in Hnodup as [Hfresh Hnodup].
  pose proof (step_writes_progress x s (Hin x ltac:(constructor))) as Hx.
  assert (forall y, y ∈ rest -> y ∈ deposits (store_of (step x s))) as Hrest.
  { intros y Hy. apply confirmDeposit_frame; [apply Hin; constructor; exact Hy |].
    intros Heq. apply Hfresh. rewrite <- Heq. apply list_elem_of_fmap_2, Hy. }
  revert Hok. cbn [forEach]. unfold mbind, M_bind.
  destruct (step x s) as [[[] | e] s1]; simpl in *; [| discriminate]. intros Hok.
  apply elem_of_cons in Hd as [-> | Hd].
  - apply steps_keep_row; assumption.
  - apply IH; assumption.
Qed.
End Completed.

(** On Tron the updater runs after each block, and when no credit fails it
    updates every deposit it found, as C3 asks of every chain. *)
Lemma tron_pass_updates_all decimalPlus network currentBlock s d b :
  NoDup (Deposit.id <$> deposits s) ->
  result_of (forEach (findPendingDeposits "trx" network s)
               (confirmDeposit decimalPlus (await (evmRequired "trx" network)) currentBlock) s)
  = Ok tt ->
  d ∈ findPendingDeposits "trx" network s ->
  Deposit.blockNumber d = Some b ->
  exists r,
    evmRequired "trx" network = Ok r
    /\ Deposit.setProgress (currentBlock - b) (statusFor (currentBlock - b) r) d
       ∈ deposits (store_of (updateTronConfirmations decimalPlus network currentBlock s)).
Proof.
  intros Hnodup Hok Hd Hb.
  rewrite updateTronConfirmations_as_evm, updateEvmConfirmations_unfold. simpl.
  assert (exists r, evmRequired "trx" network = Ok r) as [r Hr] by (eexists; reflexivity).
  exists r. split; [exact Hr |]. rewrite Hr in Hok |- *.
  pose proof (steps_update_all decimalPlus r currentBlock (findPendingDeposits "trx" network s) s
                (found_NoDup _ _ _ Hnodup)
                (fun x Hx => proj1 (found_in _ _ _ _ Hx)) Hok d Hd) as Hall.
  rewrite Hb in Hall. exact Hall.
Qed.

(** ** Methods that always resolve *)

Lemma tryCatch_swallow (m : M unit) (s : Store) :
  result_of (tryCatch m (fun _ => mret tt) s) = Ok tt.
Proof. unfold tryCatch. destruct (m s) as [[[] | e] s']; reflexivity. Qed.

Lemma forEach_ok {X} (l : list X) (body : X -> M unit) :
  (forall x s, x ∈ l -> result_of (body x s) = Ok tt) ->
  forall s, result_of (forEach l body s) = Ok tt.
Proof.
  induction l as [| x l IH]; intros Hbody s.
  - reflexivity.
  - cbn [forEach]. unfold mbind, M_bind.
    pose proof (Hbody x s ltac:(constructor)) as Hx.
    destruct (body x s) as [[[] | e] s1]; simpl in Hx; [| discriminate].
    apply IH. intros y s' Hy. apply Hbody. constructor. exact Hy.
Qed.

Lemma processQueueForChain_ok chain network provider queue s :
  result_of (processQueueForChain chain network provider queue s) = Ok tt.
Proof.
  unfold processQueueForChain. apply forEach_ok. intros x s' _. apply tryCatch_swallow.
Qed.

Lemma processQueueForChain_snoc chain network provider queue blockNumber s :
  store_of (processQueueForChain chain network provider (queue ++ [blockNumber])%list s)
  = store_of (tryCatch (processEvmBlock chain network blockNumber provider) (fun _ => mret tt)
                (store_of (processQueueForChain chain network provider queue s))).
Proof.
  pose proof (processQueueForChain_ok chain network provider queue s) as Hok.
  unfold processQueueForChain in *. rewrite forEach_app.
  destruct (forEach queue _ s) as [[[] | e] s1]; simpl in Hok; [| discriminate].
  cbn [forEach]. unfold mbind, M_bind. simpl.
  destruct (tryCatch _ _ s1) as [[[] | e] s2] eqn:E; reflexivity.
Qed.

(** ** Start-up: the provider registry *)

Lemma foldl_invariant {A B} (I : A -> Prop) (f : A -> B -> A) (l : list B) :
  (forall a b, b ∈ l -> I a -> I (f a b)) -> forall a, I a -> I (foldl f a l).
Proof.
  induction l as [| b l IH]; intros Hf a Ha.
  - exact Ha.
  - simpl. apply IH.
    + intros a' b' Hb'. apply Hf. constructor. exact Hb'.
    + apply Hf; [constructor | exact Ha].
Qed.

Lemma allRegistered_empty : allRegistered ∅.
Proof. intros k p Hk. rewrite lookup_empty in Hk. discriminate. Qed.

Lemma allRegistered_insert k p providers :
  registered k p -> allRegistered providers -> allRegistered (<[k := p]> providers).
Proof.
  intros Hkp Hm k' p' Hk'. destruct (decide (k = k')) as [<- | Hne].
  - rewrite lookup_insert_eq in Hk'. injection Hk' as <-. exact Hkp.
  - rewrite lookup_insert_ne in Hk' by exact Hne. apply Hm, Hk'.
Qed.

Ltac registered_key H :=
  repeat (apply elem_of_cons in H as [H | H]; [simplify_eq |]);
  try (apply elem_of_nil in H; destruct H).

Lemma initializeProviders_allRegistered world config providers :
  allRegistered providers -> allRegistered (initializeProviders world config providers).
Proof.
  intros H0. unfold initializeProviders. cbv zeta.
  apply foldl_invariant.
  { intros m [network rpcUrl] Hb Hm. registered_key Hb;
      (destruct (World.serverInfo world _); [apply allRegistered_insert |]; try exact Hm;
       cbn; set_solver). }
  apply foldl_invariant.
  { intros m [network apiUrl] Hb Hm. registered_key Hb;
      (destruct (Text.truthy _); [| exact Hm];
       destruct (World.getCurrentBlock world _ _) as [[b |] | e];
       [apply allRegistered_insert | |]; try exact Hm; cbn; set_solver). }
  apply foldl_invariant.
  { intros m [network rpcUrl] Hb Hm. registered_key Hb;
      (destruct (bitcoinRpcCall world _ _ _); [apply allRegistered_insert |]; try exact Hm;
       cbn; set_solver). }
  apply foldl_invariant; [| exact H0].
  intros m [chain networks] Hb Hm. registered_key Hb;
    (apply foldl_invariant; [| exact Hm];
     intros m' [network [rpcUrl |]] Hb' Hm'; [| exact Hm'];
     registered_key Hb';
     (destruct (World.getBlockNumber world _ _); [apply allRegistered_insert |]; try exact Hm';
      cbn; set_solver)).
Qed.

Lemma onModuleInit_allRegistered world config :
  allRegistered (Registry.providers (onModuleInit world config)).
Proof. apply initializeProviders_allRegistered, allRegistered_empty. Qed.

Ltac wrong_kind H :=
  cbn in H; registered_key H.

(** X1 (initializeProviders): after start-up every entry of the provider map
    sits under one of the ten keys [eth_], [bsc_], [btc_], [trx_], [xrp_]
    followed by [mainnet] or [testnet], and holds the object built for
    that chain.  So what the service reads under [btc_<network>],
    [trx_<network>] and [xrp_<network>], and casts without a check, is a
    Bitcoin provider, a TronWeb instance and an XRPL client. *)
Theorem providers_hold_their_kind world config :
  let providers := Registry.providers (onModuleInit world config) in
  allRegistered providers
  /\ (forall network provider,
        providers !! ("btc_" +:+ network) = Some provider ->
        exists url username password, provider = Registry.Bitcoin url username password)
  /\ (forall network provider,
        providers !! ("trx_" +:+ network) = Some provider ->
        exists apiUrl apiKey, provider = Registry.Tron apiUrl apiKey)
  /\ (forall network provider,
        providers !! ("xrp_" +:+ network) = Some provider ->
        exists rpcUrl, provider = Registry.Xrp rpcUrl).
Proof.
  intros providers. pose proof (onModuleInit_allRegistered world config) as Hall.
  fold providers in Hall. split; [exact Hall |].
  split; [| split]; intros network provider Hp; apply Hall in Hp;
    destruct provider; try (exfalso; wrong_kind Hp; fail); eauto.
Qed.

Lemma monitorEvmChains_handler providers h :
  allRegistered providers ->
  h ∈ monitorEvmChains providers ->
  Registry.queueKey h ∈ ["eth_mainnet"; "eth_testnet"; "bsc_mainnet"; "bsc_testnet"]
  /\ providers !! Registry.queueKey h = Some (Registry.provider h)
  /\ exists websocket rpcUrl, Registry.provider h = Registry.Evm websocket rpcUrl.
Proof.
  intros Hall Hh. unfold monitorEvmChains in Hh.
  apply list_elem_of_omap in Hh as ([k p] & Hkp & Hf).
  apply elem_of_map_to_list in Hkp. pose proof (Hall k p Hkp) as Hreg.
  destruct p; cbn in Hreg; registered_key Hreg; vm_compute in Hf; simplify_eq;
    (split; [vm_compute; set_solver | split; [exact Hkp | eauto]]).
Qed.

(** X2 (onModuleInit, monitorEvmChains): every ['block'] handler that
    [monitorEvmChains] registers pushes to a queue that [onModuleInit] has
    created: its queue key is one of [eth_mainnet], [eth_testnet],
    [bsc_mainnet], [bsc_testnet], it is the key its provider is registered
    under, and the provider is an EVM provider. *)
Theorem handlers_have_queues world config :
  let service := onModuleInit world config in
  Forall (fun h =>
            is_Some (Registry.blockQueues service !! Registry.queueKey h)
            /\ Registry.providers service !! Registry.queueKey h = Some (Registry.provider h)
            /\ exists websocket rpcUrl, Registry.provider h = Registry.Evm websocket rpcUrl)
         (Registry.handlers service).
Proof.
  intros service. apply Forall_forall. intros h Hh.
  destruct (monitorEvmChains_handler _ h (onModuleInit_allRegistered world config) Hh)
    as (Hkey & Hprov & Hevm).
  split; [| split; assumption].
  unfold service, onModuleInit. cbn [Registry.blockQueues].
  registered_key Hkey; rewrite Hkey; vm_compute; eauto.
Qed.

(** X3 (testConnection): with the registry that start-up builds,
    [testConnection] can return only for the chain names [bsc], [bitcoin] and
    [trx], and then reports the network [mainnet].  For [ethereum] it looks
    up [ethereum_mainnet], a key that start-up never sets (Ethereum is
    registered under [eth_mainnet]), and throws whatever the nodes answer;
    every other name, [eth] and [xrp] included, throws "Unsupported chain". *)
Theorem testConnection_chains world0 config :
  let providers := Registry.providers (onModuleInit world0 config) in
  (forall world chain connection,
     testConnection world providers chain = Ok connection ->
     chain ∈ ["bsc"; "bitcoin"; "trx"] /\ connectionNetwork connection = "mainnet")
  /\ (forall world,
        testConnection world providers "ethereum"
        = Thrown (error "Cannot read properties of undefined"))
  /\ (forall world chain,
        chain ∉ ["ethereum"; "bsc"; "bitcoin"; "trx"] ->
        testConnection world providers chain = Thrown (error ("Unsupported chain: " +:+ chain))).
Proof.
  intros providers. pose proof (onModuleInit_allRegistered world0 config) as Hall.
  fold providers in Hall.
  assert (Hnone : providers !! ("ethereum" +:+ "_mainnet") = None).
  { destruct (providers !! ("ethereum" +:+ "_mainnet")) as [p |] eqn:E; [| reflexivity].
    apply Hall in E. exfalso. destruct p; wrong_kind E. }
  split; [| split].
  - intros world chain connection H. unfold testConnection in H.
    destruct (bool_decide (chain = "ethereum")) eqn:Eeth.
    { apply bool_decide_eq_true in Eeth. subst chain. cbn [orb] in H.
      rewrite Hnone in H. discriminate. }
    destruct (bool_decide (chain = "bsc")) eqn:Ebsc.
    { apply bool_decide_eq_true in Ebsc. subst chain. cbn [orb] in H.
      split; [set_solver |].
      destruct (providers !! ("bsc" +:+ "_mainnet")) as [[] |]; try discriminate.
      destruct (World.getBlockNumber _ _ _); simplify_eq. reflexivity. }
    cbn [orb] in H. destruct (bool_decide (chain = "bitcoin")) eqn:Ebtc.
    { apply bool_decide_eq_true in Ebtc. subst chain. split; [set_solver |].
      destruct (bitcoinRpcCall _ _ _ _); simplify_eq. reflexivity. }
    destruct (bool_decide (chain = "trx")) eqn:Etrx; [| discriminate].
    apply bool_decide_eq_true in Etrx. subst chain. split; [set_solver |].
    destruct (providers !! "trx_mainnet") as [[] |]; try discriminate.
    destruct (World.getCurrentBlock _ _ _) as [[b |] | e]; simplify_eq. reflexivity.
  - intros world. unfold testConnection.
    rewrite bool_decide_eq_true_2 by reflexivity. cbn [orb]. rewrite Hnone. reflexivity.
  - intros world chain Hchain. unfold testConnection.
    rewrite !bool_decide_eq_false_2 by set_solver. reflexivity.
Qed.

Lemma testConnection_chains_witness :
  testConnection Nodes.up (Registry.providers (onModuleInit Nodes.up Nodes.bscConfig)) "bsc"
  = Ok (mkConnection (Rpc.JNumber 7) "mainnet")
  /\ "bsc" ∈ ["bsc"; "bitcoin"; "trx"].
Proof.
  assert (H : testConnection Nodes.up
                (Registry.providers (onModuleInit Nodes.up Nodes.bscConfig)) "bsc"
              = Ok (mkConnection (Rpc.JNumber 7) "mainnet")) by (vm_compute; reflexivity).
  split; [exact H |].
  destruct (testConnection_chains Nodes.up Nodes.bscConfig) as (Hok & _ & _).
  exact (proj1 (Hok Nodes.up "bsc" _ H)).
Defined.

(** ** The block queue of an EVM chain *)

Section QueueDiscipline.
Variables (chain network : string) (provider : Evm.Provider) (s0 : Store).

Lemma whileLoop_disciplined evs q :
  (Queue.processed q ++ Registry.queue (Queue.blockQueue q))%list = Queue.arrivals evs ->
  Registry.isProcessing (Queue.blockQueue q) = true ->
  Queue.store q
  = store_of (processQueueForChain chain network provider (Queue.processed q) s0) ->
  disciplined chain network provider s0 evs (Queue.whileLoop q).
Proof.
  intros Harr Hflag Hstore. unfold disciplined, Queue.whileLoop.
  destruct q as [[flag queue] aw done st]. cbn in *. subst flag.
  destruct queue as [| b rest]; cbn.
  - rewrite app_nil_r in *. split; [exact Harr |]. split; [| split; [reflexivity | exact Hstore]].
    split; [discriminate | intros [x Hx]; discriminate].
  - split; [exact Harr |]. split; [| split; [discriminate | exact Hstore]].
    split; eauto.
Qed.

Lemma step_disciplined evs q ev :
  disciplined chain network provider s0 evs q ->
  disciplined chain network provider s0 (evs ++ [ev]) (Queue.step chain network provider q ev).
Proof.
  unfold disciplined. intros (Harr & Hflag & Hidle & Hstore).
  assert (Hsnoc : Queue.arrivals (evs ++ [ev])
                  = (Queue.arrivals evs
                       ++ match ev with Queue.Block n => [n] | Queue.Resumed => [] end)%list).
  { unfold Queue.arrivals. rewrite omap_app. destruct ev; reflexivity. }
  destruct q as [[flag queue] aw done st]. cbn in Harr, Hflag, Hidle, Hstore.
  destruct ev as [n |]; cbn [Queue.step].
  - unfold Queue.onBlock, Queue.processQueueForChain. cbn. destruct flag.
    + cbn. split; [| split; [exact Hflag | split; [discriminate | exact Hstore]]].
      rewrite Hsnoc, <- Harr, <- !app_assoc. reflexivity.
    + apply whileLoop_disciplined; cbn; [| reflexivity | exact Hstore].
      rewrite Hsnoc, <- Harr, (Hidle eq_refl).
      destruct aw as [b |].
      * destruct Hflag as [_ Hflag]. discriminate Hflag. eauto.
      * cbn. rewrite app_nil_r. reflexivity.
  - unfold Queue.resume. cbn. destruct aw as [b |].
    + apply whileLoop_disciplined; cbn.
      * rewrite Hsnoc, app_nil_r, <- Harr, <- app_assoc. reflexivity.
      * apply Hflag. eauto.
      * rewrite Hstore. symmetry. exact (processQueueForChain_snoc _ _ _ _ _ _).
    + cbn. rewrite Hsnoc, app_nil_r. auto.
Qed.

Lemma run_disciplined evs :
  disciplined chain network provider s0 evs
    (foldl (Queue.step chain network provider) (Queue.idle s0) evs).
Proof.
  induction evs as [| ev evs IH] using rev_ind.
  - unfold disciplined. cbn. split; [reflexivity |]. split; [| auto].
    split; [discriminate | intros [x Hx]; discriminate].
  - rewrite foldl_app. cbn [foldl]. apply step_disciplined, IH.
Qed.

End QueueDiscipline.

(** X4 (processQueueForChain, the 'block' handler of monitorEvmChains):
    whatever the order in which block events arrive and block processings
    end, the blocks processed so far, the block being processed and the
    blocks still queued are, in this order, the block numbers that arrived:
    every block is processed once, in the order of arrival, and by one loop
    at a time ([isProcessing] is set exactly while a block is being
    processed).  When the flag is clear the queue is empty, and the store is
    the one a single loop over the processed blocks leaves. *)
Theorem queue_first_in_first_out chain network provider s0 evs :
  let q := foldl (Queue.step chain network provider) (Queue.idle s0) evs in
  (Queue.processed q ++ option_list (Queue.awaiting q)
     ++ Registry.queue (Queue.blockQueue q))%list = Queue.arrivals evs
  /\ (Registry.isProcessing (Queue.blockQueue q) = true <-> is_Some (Queue.awaiting q))
  /\ (Registry.isProcessing (Queue.blockQueue q) = false ->
      Registry.queue (Queue.blockQueue q) = [])
  /\ Queue.store q
     = store_of (processQueueForChain chain network provider (Queue.processed q) s0)
  /\ result_of (processQueueForChain chain network provider (Queue.processed q) s0) = Ok tt.
Proof.
  intros q. destruct (run_disciplined chain network provider s0 evs) as (H1 & H2 & H3 & H4).
  repeat split; try assumption; try apply H2. apply processQueueForChain_ok.
Qed.

(** ** Retried calls *)

Lemma retryLoop_decides {A} (call : nat -> Result (option A)) (retries : nat) :
  forall remaining i,
    (i + remaining = retries)%nat -> (0 < remaining)%nat ->
    exists k,
      (i <= k < retries)%nat
      /\ retryLoop call retries i remaining = call k
      /\ (forall j, (i <= j < k)%nat -> exists e, call j = Thrown e)
      /\ ((exists e, call k = Thrown e) -> k = (retries - 1)%nat).
Proof.
  induction remaining as [| remaining IH]; intros i Hsum Hpos; [lia |].
  cbn [retryLoop]. destruct (call i) as [a | e] eqn:Ei.
  - exists i. split; [lia |]. split; [congruence |]. split; [intros j Hj; lia |].
    intros [e He]. congruence.
  - destruct (bool_decide (i = (retries - 1)%nat)) eqn:Elast.
    + apply bool_decide_eq_true in Elast. exists i. split; [lia |]. split; [congruence |].
      split; [intros j Hj; lia | intros _; exact Elast].
    + apply bool_decide_eq_false in Elast.
      destruct (IH (S i)) as (k & Hk & Hcall & Hbefore & Hlast); [lia | lia |].
      exists k. split; [lia |]. split; [exact Hcall |]. split; [| exact Hlast].
      intros j Hj. destruct (decide (j = i)) as [-> | Hne]; [eauto |].
      apply Hbefore. lia.
Qed.

(** X5 (getEvmTransactionWithRetry, getTronBlockWithRetry): a retried
    call returns what the first attempt that does not throw returns, [null]
    included (a transaction or block the node does not know is not asked
    for again); when every attempt throws, the error of the last one is
    thrown.  At most [retries] attempts are made (three for a transaction),
    and with at least one attempt the [return null] after the loop is never
    reached; with none it is all that runs. *)
Theorem retry_takes_first_answer provider txHash tronWeb height maxRetries s :
  (exists i, (i < 3)%nat
     /\ getEvmTransactionWithRetry provider txHash s = (Evm.getTransaction provider txHash i, s)
     /\ (forall j, (j < i)%nat -> exists e, Evm.getTransaction provider txHash j = Thrown e)
     /\ ((exists e, Evm.getTransaction provider txHash i = Thrown e) -> i = 2%nat))
  /\ (exists i, (i < S maxRetries)%nat
        /\ getTronBlockWithRetry tronWeb height (S maxRetries) s
           = (Tron.getBlock tronWeb height i, s)
        /\ (forall j, (j < i)%nat -> exists e, Tron.getBlock tronWeb height j = Thrown e)
        /\ ((exists e, Tron.getBlock tronWeb height i = Thrown e) -> i = maxRetries))
  /\ getTronBlockWithRetry tronWeb height 0 s = (Ok None, s).
Proof.
  split; [| split].
  - destruct (retryLoop_decides (Evm.getTransaction provider txHash) 3 3 0)
      as (k & Hk & Hcall & Hbefore & Hlast); [lia | lia |].
    exists k. split; [lia |]. split.
    { unfold getEvmTransactionWithRetry, await. rewrite Hcall. reflexivity. }
    split; [intros j Hj; apply Hbefore; lia | exact Hlast].
  - destruct (retryLoop_decides (Tron.getBlock tronWeb height) (S maxRetries) (S maxRetries) 0)
      as (k & Hk & Hcall & Hbefore & Hlast); [lia | lia |].
    exists k. split; [lia |]. split.
    { unfold getTronBlockWithRetry, await. rewrite Hcall. reflexivity. }
    split; [intros j Hj; apply Hbefore; lia |].
    intros He. rewrite (Hlast He). lia.
  - reflexivity.
Qed.

(** ** Where the checkpoint is after a loop over heights *)

Section Lands.
Context {X C : Type}.
Variables (cp : Store -> C) (at_ : X -> C) (lands : X -> bool) (body : X -> M unit).
Hypothesis body_ok : forall x s, result_of (body x s) = Ok tt.
Hypothesis body_lands : forall x s, lands x = true -> cp (store_of (body x s)) = at_ x.
Hypothesis body_skips : forall x s, lands x = false -> cp (store_of (body x s)) = cp s.

Lemma forEach_lands (l : list X) (s : Store) :
  result_of (forEach l body s) = Ok tt
  /\ cp (store_of (forEach l body s))
     = match last (filter (fun x => lands x = true) l) with
       | Some x => at_ x
       | None => cp s
       end.
Proof.
  induction l as [| x l IH] using rev_ind.
  - split; reflexivity.
  - destruct IH as [Hok Hcp]. rewrite forEach_app.
    destruct (forEach l body s) as [[[] | e] s1]; simpl in Hok, Hcp; [| discriminate].
    cbn [forEach]. unfold mbind, M_bind.
    pose proof (body_ok x s1) as Hx.
    pose proof (body_lands x s1) as Hl. pose proof (body_skips x s1) as Hs.
    destruct (body x s1) as [[[] | e] s2]; simpl in Hx, Hl, Hs; [| discriminate].
    split; [reflexivity |]. simpl.
    rewrite filter_app, last_app.
    destruct (lands x) eqn:Ex.
    + rewrite filter_cons_True by exact Ex. simpl. apply Hl. reflexivity.
    + rewrite filter_cons_False by (rewrite Ex; discriminate). simpl.
      rewrite Hs by reflexivity. exact Hcp.
Qed.

End Lands.

Lemma tryCatch_ok (m : M unit) (h : Error -> M unit) (s : Store) :
  (forall e s', result_of (h e s') = Ok tt) -> result_of (tryCatch m h s) = Ok tt.
Proof. intros Hh. unfold tryCatch. destruct (m s) as [[[] | e] s']; [reflexivity | apply Hh]. Qed.

Lemma run_ok (m : M unit) (s : Store) :
  result_of (m s) = Ok tt -> m s = (Ok tt, store_of (m s)).
Proof. destruct (m s) as [r s']. simpl. intros ->. reflexivity. Qed.

Lemma last_seqZ (m n : Z) : 0 < n -> last (seqZ m n) = Some (m + n - 1).
Proof.
  intros Hn. replace n with (Z.of_nat (S (Z.to_nat (n - 1)))) by lia.
  rewrite seqZ_S, last_snoc. f_equal. lia.
Qed.

Lemma filter_all {A} (l : list A) : filter (fun _ => true = true) l = l.
Proof.
  induction l as [| x l IH]; [reflexivity |].
  rewrite filter_cons_True by reflexivity. f_equal. exact IH.
Qed.

(** *** EVM: one block, then the queue *)

Section EvmBlock.
Variables (chain network : string) (provider : Evm.Provider).

Lemma processEvmBlock_failed blockNumber e s :
  Evm.getBlock provider blockNumber = Thrown e ->
  processEvmBlock chain network blockNumber provider s = (Thrown e, s).
Proof. intros H. unfold processEvmBlock. rewrite H. reflexivity. Qed.

Lemma processEvmBlock_missing blockNumber s :
  Evm.getBlock provider blockNumber = Ok None ->
  processEvmBlock chain network blockNumber provider s = (Ok tt, s).
Proof. intros H. unfold processEvmBlock. rewrite H. reflexivity. Qed.

Lemma processEvmBlock_found blockNumber block s :
  Evm.getBlock provider blockNumber = Ok (Some block) ->
  result_of (processEvmBlock chain network blockNumber provider s) = Ok tt
  /\ checkpoint chain network (store_of (processEvmBlock chain network blockNumber provider s))
     = Some blockNumber.
Proof.
  intros H. unfold processEvmBlock. rewrite H.
  erewrite !(tryCatch_congr _ _ _ s) by (erewrite bind_ok by reflexivity; reflexivity).
  cbv beta iota.
  match goal with
  | |- context [forEach ?l ?b] => set (loop := forEach l b)
  end.
  assert (Hloop : loop s = (Ok tt, store_of (loop s))).
  { apply run_ok, forEach_ok. intros x s' _. apply tryCatch_swallow. }
  unfold tryCatch, mbind, M_bind, await. rewrite Hloop.
  rewrite saveLastProcessedBlock_run, getLastProcessedBlock_run.
  split; [reflexivity |].
  rewrite <- (checkpoint_saved chain network blockNumber (store_of (loop s))).
  rewrite saveLastProcessedBlock_run. reflexivity.
Qed.

Lemma drain_checkpoint queue s :
  result_of (processQueueForChain chain network provider queue s) = Ok tt
  /\ checkpoint chain network (store_of (processQueueForChain chain network provider queue s))
     = lastFound (evmBlockFound provider) queue (checkpoint chain network s).
Proof.
  unfold processQueueForChain, lastFound.
  apply (forEach_lands (checkpoint chain network) Some (evmBlockFound provider)).
  - intros x s'. apply tryCatch_swallow.
  - intros x s' Hx. unfold evmBlockFound in Hx.
    destruct (Evm.getBlock provider x) as [[block |] | e] eqn:E; try discriminate.
    destruct (processEvmBlock_found x block s' E) as [Hok Hcp].
    unfold tryCatch. destruct (processEvmBlock chain network x provider s') as [[[] | e] s1];
      simpl in Hok; [exact Hcp | discriminate].
  - intros x s' Hx. unfold evmBlockFound in Hx.
    destruct (Evm.getBlock provider x) as [[block |] | e] eqn:E; try discriminate.
    + unfold tryCatch. rewrite (processEvmBlock_missing x s' E). reflexivity.
    + unfold tryCatch. rewrite (processEvmBlock_failed x e s' E). reflexivity.
Qed.

End EvmBlock.

(** X6 (processEvmBlock, processQueueForChain): a loop over the queued
    block numbers always resolves and only adds pending rows; it leaves the
    EVM checkpoint at the last queued number for which the node had a block,
    whatever happened to the transactions of that block, and where it was if
    there is none.  The checkpoint follows the order of arrival, not the
    height: numbers that arrive out of order move it back.  A block that the
    node does not have ([null]) is skipped with no effect; a failing
    [getBlock] makes [processEvmBlock] throw with the store untouched. *)
Theorem evm_checkpoint_follows_queue chain network provider queue s :
  let s' := store_of (processQueueForChain chain network provider queue s) in
  result_of (processQueueForChain chain network provider queue s) = Ok tt
  /\ checkpoint chain network s'
     = lastFound (evmBlockFound provider) queue (checkpoint chain network s)
  /\ appended s s'
  /\ (forall blockNumber,
        Evm.getBlock provider blockNumber = Ok None ->
        processEvmBlock chain network blockNumber provider s = (Ok tt, s))
  /\ (forall blockNumber e,
        Evm.getBlock provider blockNumber = Thrown e ->
        processEvmBlock chain network blockNumber provider s = (Thrown e, s)).
Proof.
  intros s'. destruct (drain_checkpoint chain network provider queue s) as [Hok Hcp].
  split; [exact Hok |]. split; [exact Hcp |].
  split; [apply processQueueForChain_appended |].
  split; [intros n; apply processEvmBlock_missing | intros n e; apply processEvmBlock_failed].
Qed.

Example evm_checkpoint_moves_back :
  checkpoint "eth" "mainnet"
    (store_of (processQueueForChain "eth" "mainnet" Scenario.ethProvider [1001; 1000]
                 Scenario.evmStore))
  = Some 1000.
Proof. vm_compute. reflexivity. Qed.

(** *** Tron and XRP ticks *)

Lemma processTronBlock_ok quotientToString providers network block s :
  result_of (processTronBlock quotientToString providers network block s) = Ok tt.
Proof. unfold processTronBlock. apply tryCatch_swallow. Qed.

Lemma updateTronConfirmations_ok decimalPlus network currentBlock s :
  result_of (updateTronConfirmations decimalPlus network currentBlock s) = Ok tt.
Proof. unfold updateTronConfirmations. apply tryCatch_swallow. Qed.

Lemma processXrpLedger_ok providers chain network ledgerIndex s :
  result_of (processXrpLedger providers chain network ledgerIndex s) = Ok tt.
Proof. unfold processXrpLedger. apply tryCatch_swallow. Qed.

Section TronTick.
Variable decimalPlus : string -> string -> option string.
Variable quotientToString : Z -> Z -> string.
Variable providers : Providers.
Variables (network : string) (tronWeb : Tron.TronWeb).

Lemma tronBlockAt_ok height s :
  result_of (tronBlockAt decimalPlus quotientToString providers network tronWeb height s) = Ok tt.
Proof.
  unfold tronBlockAt. apply tryCatch_ok. intros e s'.
  destruct (bool_decide _); reflexivity.
Qed.

Lemma tronBlockAt_fetched height s :
  tronBlockFetched tronWeb height = true ->
  checkpoint "trx" network
    (store_of (tronBlockAt decimalPlus quotientToString providers network tronWeb height s))
  = Some height.
Proof.
  unfold tronBlockFetched. intros Hf.
  destruct (retryLoop (Tron.getBlock tronWeb height) 3 0 3) as [[block |] | e] eqn:E;
    try discriminate.
  unfold tronBlockAt.
  erewrite (tryCatch_congr _ _ _ s).
  2: { erewrite bind_ok by (unfold getTronBlockWithRetry, await; rewrite E; reflexivity).
       reflexivity. }
  cbv beta iota.
  pose proof (run_ok _ s (processTronBlock_ok quotientToString providers network block s)) as Hp.
  set (s1 := store_of (processTronBlock quotientToString providers network block s)) in *.
  pose proof (run_ok _ s1 (updateTronConfirmations_ok decimalPlus network height s1)) as Hu.
  set (s2 := store_of (updateTronConfirmations decimalPlus network height s1)) in *.
  unfold tryCatch, mbind, M_bind. rewrite Hp, Hu, saveLastProcessedBlock_run.
  rewrite <- (checkpoint_saved "trx" network height s2), saveLastProcessedBlock_run.
  reflexivity.
Qed.

Lemma tronBlockAt_skipped height s :
  tronBlockFetched tronWeb height = false ->
  store_of (tronBlockAt decimalPlus quotientToString providers network tronWeb height s) = s.
Proof.
  unfold tronBlockFetched. intros Hf.
  destruct (retryLoop (Tron.getBlock tronWeb height) 3 0 3) as [[block |] | e] eqn:E;
    try discriminate;
    unfold tronBlockAt, tryCatch, mbind, M_bind, getTronBlockWithRetry, await; rewrite E.
  - reflexivity.
  - destruct (bool_decide _); reflexivity.
Qed.

Lemma tronHeights_seqZ (last tip : Z) :
  tronHeights last tip = seqZ (last + 1) (Z.min 6 (tip - last)).
Proof. unfold tronHeights. rewrite range_one. f_equal. lia. Qed.

Lemma checkTronBlocks_lands current last s :
  Tron.getCurrentBlock tronWeb = Ok current ->
  checkpoint "trx" network s = Some last ->
  checkpoint "trx" network
    (store_of (checkTronBlocks decimalPlus quotientToString providers network tronWeb s))
  = lastFound (tronBlockFetched tronWeb) (tronHeights last (Tron.number current)) (Some last).
Proof.
  intros Hcurrent Hlast.
  rewrite (checkTronBlocks_unfold _ _ _ _ _ _ _ _ Hcurrent Hlast).
  destruct (forEach_lands (checkpoint "trx" network) Some (tronBlockFetched tronWeb)
              (tronBlockAt decimalPlus quotientToString providers network tronWeb)
              tronBlockAt_ok tronBlockAt_fetched
              (fun x s' Hx => f_equal _ (tronBlockAt_skipped x s' Hx))
              (tronHeights last (Tron.number current)) s) as [Hok Hcp].
  unfold tryCatch.
  destruct (forEach _ _ s) as [[[] | e] s1]; simpl in Hok; [| discriminate].
  rewrite Hcp, Hlast. reflexivity.
Qed.

End TronTick.

Lemma lastFound_tronHeights found from tip :
  exists h, lastFound found (tronHeights from tip) (Some from) = Some h /\ from <= h <= from + 6.
Proof.
  unfold lastFound. destruct (last _) as [h |] eqn:Hh.
  - exists h. split; [reflexivity |].
    apply last_Some in Hh as [l' Hl'].
    assert (h ∈ filter (fun x => found x = true) (tronHeights from tip)) as Hin
      by (rewrite Hl'; apply elem_of_app; right; constructor).
    apply list_elem_of_filter in Hin as [_ Hin].
    rewrite tronHeights_seqZ in Hin. apply elem_of_seqZ in Hin. lia.
  - exists from. split; [reflexivity | lia].
Qed.

(** X7 (checkTronBlocks): a Tron tick always resolves.  It goes through
    the heights from the checkpoint + 1 to the checkpoint + 6, or to the tip
    if that is lower, and leaves the checkpoint at the last of them whose
    block could be fetched within three attempts, whatever happened while
    the block was processed or the confirmations were updated; if no block
    could be fetched the checkpoint stays.  A height whose block could not be
    fetched changes nothing in the store.  If the current block cannot be
    read the tick does nothing. *)
Theorem tron_tick_checkpoint decimalPlus quotientToString providers network tronWeb s :
  result_of (checkTronBlocks decimalPlus quotientToString providers network tronWeb s) = Ok tt
  /\ (forall current last,
        Tron.getCurrentBlock tronWeb = Ok current ->
        checkpoint "trx" network s = Some last ->
        tronHeights last (Tron.number current)
          = seqZ (last + 1) (Z.min 6 (Tron.number current - last))
        /\ checkpoint "trx" network
             (store_of (checkTronBlocks decimalPlus quotientToString providers network tronWeb s))
           = lastFound (tronBlockFetched tronWeb) (tronHeights last (Tron.number current))
               (Some last)
        /\ exists h,
             lastFound (tronBlockFetched tronWeb) (tronHeights last (Tron.number current))
               (Some last) = Some h
             /\ last <= h <= last + 6)
  /\ (forall height s1,
        tronBlockFetched tronWeb height = false ->
        store_of (tronBlockAt decimalPlus quotientToString providers network tronWeb height s1)
        = s1)
  /\ (forall e,
        Tron.getCurrentBlock tronWeb = Thrown e ->
        checkTronBlocks decimalPlus quotientToString providers network tronWeb s = (Ok tt, s)).
Proof.
  split; [unfold checkTronBlocks; apply tryCatch_swallow |].
  split; [| split].
  - intros current last Hcurrent Hlast. split; [apply tronHeights_seqZ |].
    split; [apply checkTronBlocks_lands; assumption |].
    apply lastFound_tronHeights.
  - intros height s1. apply tronBlockAt_skipped.
  - intros e He. unfold checkTronBlocks. rewrite He. reflexivity.
Qed.

Example tron_tick_six_heights :
  checkpoint "trx" "mainnet"
    (store_of (checkTronBlocks Reference.decimalPlus Reference.quotientToString
                 Scenario.noProviders "mainnet" (Scenario.quietTron 100)
                 (Scenario.checkpointAt "last_processed_block_trx_mainnet" 0)))
  = Some 6.
Proof. vm_compute. reflexivity. Qed.

Section XrpTick.
Variable providers : Providers.
Variable network : string.

Lemma xrpLedgerAt_ok ledgerIndex s :
  result_of (xrpLedgerAt providers network ledgerIndex s) = Ok tt.
Proof.
  unfold xrpLedgerAt, mbind, M_bind.
  rewrite (run_ok _ s (processXrpLedger_ok providers "xrp" network ledgerIndex s)).
  rewrite saveLastProcessedBlock_run. reflexivity.
Qed.

Lemma xrpLedgerAt_lands ledgerIndex s :
  checkpoint "xrp" network (store_of (xrpLedgerAt providers network ledgerIndex s))
  = Some ledgerIndex.
Proof.
  unfold xrpLedgerAt, mbind, M_bind.
  rewrite (run_ok _ s (processXrpLedger_ok providers "xrp" network ledgerIndex s)).
  apply checkpoint_saved.
Qed.

Lemma checkXrpBlocks_tip client tip last s :
  xrp providers network = Some client ->
  Xrp.validatedLedger client = Ok tip ->
  checkpoint "xrp" network s = Some last ->
  checkpoint "xrp" network (store_of (checkXrpBlocks providers network s))
  = Some (Z.max last tip).
Proof.
  intros Hclient Htip Hlast.
  rewrite (checkXrpBlocks_unfold _ _ _ _ _ _ Hclient Htip Hlast).
  destruct (forEach_lands (checkpoint "xrp" network) Some (fun _ => true)
              (xrpLedgerAt providers network)
              xrpLedgerAt_ok (fun x s' _ => xrpLedgerAt_lands x s')
              (fun x s' (H : true = false) => False_ind _ (Bool.diff_true_false H))
              (range (last + 1) tip 1) s) as [Hok Hcp].
  unfold tryCatch.
  destruct (forEach _ _ s) as [[[] | e] s1]; simpl in Hok; [| discriminate].
  unfold store_of in *. cbn [snd] in *. rewrite Hcp, filter_all, range_one.
  destruct (decide (last < tip)) as [Hlt | Hge].
  - rewrite last_seqZ by lia. f_equal. lia.
  - rewrite seqZ_nil by lia. simpl. rewrite Hlast. f_equal. lia.
Qed.

End XrpTick.

(** X8 (checkXrpBlocks, processXrpLedger): an XRP tick always resolves and
    only adds pending rows.  When the client is there and answers
    [server_info], the tick goes through the whole gap at once and leaves
    the checkpoint at the validated ledger, if that is above the
    checkpoint, whatever the [ledger] requests answered: a ledger that
    could not be read or whose transactions failed is passed all the same.
    With no client, or with a failing [server_info], the tick does nothing. *)
Theorem xrp_tick_reaches_tip providers network s :
  result_of (checkXrpBlocks providers network s) = Ok tt
  /\ appended s (store_of (checkXrpBlocks providers network s))
  /\ (forall client tip last,
        xrp providers network = Some client ->
        Xrp.validatedLedger client = Ok tip ->
        checkpoint "xrp" network s = Some last ->
        checkpoint "xrp" network (store_of (checkXrpBlocks providers network s))
        = Some (Z.max last tip))
  /\ (xrp providers network = None -> checkXrpBlocks providers network s = (Ok tt, s))
  /\ (forall client e,
        xrp providers network = Some client ->
        Xrp.validatedLedger client = Thrown e ->
        checkXrpBlocks providers network s = (Ok tt, s)).
Proof.
  split; [unfold checkXrpBlocks; apply tryCatch_swallow |].
  split; [apply checkXrpBlocks_appended |].
  split; [intros client tip last; apply checkXrpBlocks_tip |].
  split.
  - intros H. unfold checkXrpBlocks. rewrite H. reflexivity.
  - intros client e Hc He. unfold checkXrpBlocks. rewrite Hc, He. reflexivity.
Qed.

Example xrp_tick_passes_failed_ledgers :
  checkpoint "xrp" "mainnet"
    (store_of (checkXrpBlocks (Scenario.xrpOnly (Scenario.failingXrp 25)) "mainnet"
                 (Scenario.checkpointAt "last_processed_block_xrp_mainnet" 10)))
  = Some 25.
Proof. vm_compute. reflexivity. Qed.

(** *** A checkpoint that cannot be read *)

Section Unreadable.
Variable decimalPlus : string -> string -> option string.
Variable quotientToString : Z -> Z -> string.
Variable providers : Providers.
Variable network : string.

Lemma checkBitcoinBlocks_unreadable s :
  checkpoint "bitcoin" network s = None ->
  store_of (checkBitcoinBlocks providers network s) = s.
Proof.
  intros Hcp. unfold checkBitcoinBlocks.
  destruct (btc providers network) as [provider |]; [| reflexivity].
  destruct (Bitcoin.getblockcount provider) as [tip | e] eqn:Htip; [| reflexivity].
  erewrite tryCatch_congr.
  2: { erewrite bind_ok by reflexivity.
       erewrite bind_ok by apply getLastProcessedBlock_run.
       rewrite Hcp. reflexivity. }
  reflexivity.
Qed.

Lemma checkTronBlocks_unreadable tronWeb s :
  checkpoint "trx" network s = None ->
  checkTronBlocks decimalPlus quotientToString providers network tronWeb s = (Ok tt, s).
Proof.
  intros Hcp. unfold checkTronBlocks.
  destruct (Tron.getCurrentBlock tronWeb) as [current | e] eqn:Hcurrent; [| reflexivity].
  erewrite tryCatch_congr.
  2: { erewrite bind_ok by reflexivity.
       erewrite bind_ok by apply getLastProcessedBlock_run.
       rewrite Hcp. reflexivity. }
  reflexivity.
Qed.

Lemma checkXrpBlocks_unreadable s :
  checkpoint "xrp" network s = None ->
  checkXrpBlocks providers network s = (Ok tt, s).
Proof.
  intros Hcp. unfold checkXrpBlocks.
  destruct (xrp providers network) as [client |]; [| reflexivity].
  destruct (Xrp.validatedLedger client) as [tip | e] eqn:Htip; [| reflexivity].
  erewrite tryCatch_congr.
  2: { erewrite bind_ok by reflexivity.
       erewrite bind_ok by apply getLastProcessedBlock_run.
       rewrite Hcp. reflexivity. }
  reflexivity.
Qed.

End Unreadable.

(** X9 (getLastProcessedBlock, checkBitcoinBlocks, checkTronBlocks,
    checkXrpBlocks): when the stored checkpoint of a chain does not read as a
    number ([parseInt] gives [NaN]: the value does not start with a digit
    after white space and sign), the tick of that chain goes through no
    height and leaves the store as it is, so every later tick does the same;
    the Tron and XRP ticks resolve as if nothing were to do. *)
Theorem unreadable_checkpoint_stops_ticks decimalPlus quotientToString providers network
    tronWeb s :
  (checkpoint "bitcoin" network s = None ->
   store_of (checkBitcoinBlocks providers network s) = s)
  /\ (checkpoint "trx" network s = None ->
      checkTronBlocks decimalPlus quotientToString providers network tronWeb s = (Ok tt, s))
  /\ (checkpoint "xrp" network s = None ->
      checkXrpBlocks providers network s = (Ok tt, s)).
Proof.
  split; [apply checkBitcoinBlocks_unreadable |].
  split; [apply checkTronBlocks_unreadable | apply checkXrpBlocks_unreadable].
Qed.

Lemma unreadable_checkpoint_stops_ticks_witness :
  checkpoint "xrp" "mainnet" Cases.unreadable = None
  /\ checkXrpBlocks (Scenario.xrpOnly (Scenario.failingXrp 25)) "mainnet" Cases.unreadable
     = (Ok tt, Cases.unreadable).
Proof.
  assert (H : checkpoint "xrp" "mainnet" Cases.unreadable = None) by (vm_compute; reflexivity).
  split; [exact H |].
  destruct (unreadable_checkpoint_stops_ticks Reference.decimalPlus Reference.quotientToString
              (Scenario.xrpOnly (Scenario.failingXrp 25)) "mainnet" (Scenario.quietTron 1)
              Cases.unreadable)
    as (_ & _ & Hxrp).
  exact (Hxrp H).
Defined.

(** ** The balance row a credit goes to *)

Lemma findBalance_target userId symbol bs i :
  findBalance userId symbol bs = Some i <-> exists b, creditTarget userId symbol bs i b.
Proof.
  revert i. induction bs as [| b bs IH]; intros i; cbn [findBalance].
  - split; [discriminate |]. intros (b & Hb & _). discriminate.
  - fold (spotBalanceOf userId symbol b). destruct (bool_decide _) eqn:E.
    + apply bool_decide_eq_true in E. split.
      * intros [= <-]. exists b. split; [reflexivity |]. split; [exact E |]. intros j b' Hj. lia.
      * intros (b' & Hb' & Hspot & Hfirst). destruct i as [| i]; [reflexivity |].
        exfalso. apply (Hfirst O b); [lia | reflexivity | exact E].
    + apply bool_decide_eq_false in E. split.
      * destruct (findBalance userId symbol bs) as [k |] eqn:Ek; [| discriminate].
        intros [= <-]. destruct (proj1 (IH k) eq_refl) as (b' & Hb' & Hspot & Hfirst).
        exists b'. split; [exact Hb' |]. split; [exact Hspot |].
        intros [| j] b0 Hj Hb0; [injection Hb0 as <-; exact E |].
        apply (Hfirst j); [lia | exact Hb0].
      * intros (b' & Hb' & Hspot & Hfirst). destruct i as [| i].
        { injection Hb' as <-. contradiction. }
        assert (findBalance userId symbol bs = Some i) as ->; [| reflexivity].
        apply IH. exists b'. split; [exact Hb' |]. split; [exact Hspot |].
        intros j b0 Hj. apply (Hfirst (S j)). lia.
Qed.

Lemma updateWalletBalance_creditable decimalPlus d s token i balance sum :
  creditable decimalPlus d s token i balance sum ->
  updateWalletBalance decimalPlus d s
  = (Ok tt,
     setWalletBalances
       (<[i := WalletBalance.setBalance balance sum]> (walletBalances s))
       (mkCredit (Deposit.id d) (Deposit.userId d) (balanceSymbol token) (Deposit.amount d)
          :: ledger s)
       s).
Proof.
  intros (Htoken & Htarget & Hsum).
  assert (findBalance (Deposit.userId d) (balanceSymbol token) (walletBalances s) = Some i)
    as Hfind by (apply findBalance_target; eauto).
  destruct Htarget as (Hb & _ & _).
  unfold updateWalletBalance, transaction, mbind, M_bind, gets, throw, modify.
  rewrite Htoken, Hfind, Hb, Hsum. reflexivity.
Qed.

(** X10 (updateWalletBalance): the ledger transaction goes through exactly
    when the token of the deposit exists, the user has a balance row of type
    [spot] whose [baseSymbol] is the token's [baseSymbol], or its [symbol] when
    that is missing or empty, and decimal.js accepts the two operands.  It then
    replaces the balance of the first such row by the sum and changes no other
    row and no other table; rows of another type are never credited.  In
    every other case it throws and the store is as it was. *)
Theorem credit_goes_to_first_spot_row decimalPlus d s :
  (exists e,
     updateWalletBalance decimalPlus d s = (Thrown e, s)
     /\ forall token i balance sum, ~ creditable decimalPlus d s token i balance sum)
  \/ (exists token i balance sum,
        creditable decimalPlus d s token i balance sum
        /\ updateWalletBalance decimalPlus d s
           = (Ok tt,
              setWalletBalances
                (<[i := WalletBalance.setBalance balance sum]> (walletBalances s))
                (mkCredit (Deposit.id d) (Deposit.userId d) (balanceSymbol token)
                          (Deposit.amount d) :: ledger s)
                s)).
Proof.
  destruct (updateWalletBalance_cases decimalPlus d s)
    as [[e He] | (token & i & balance & sum & Htoken & Hfind & Hb & Hsum & Hrun)].
  - left. exists e. split; [exact He |]. intros token i balance sum Hc.
    rewrite (updateWalletBalance_creditable _ _ _ _ _ _ _ Hc) in He. discriminate.
  - right. exists token, i, balance, sum. split; [| exact Hrun].
    split; [exact Htoken |]. split; [| exact Hsum].
    apply findBalance_target in Hfind as (b' & Hb' & Hrest).
    assert (b' = balance) as <- by congruence. split; assumption.
Qed.

Example credit_skips_funding_row :
  let bs := [WalletBalance.mk "alice" "TRX" "funding" "7";
             WalletBalance.mk "alice" "TRX" "spot" "1"] in
  let s := mkStore (deposits Scenario.tronStore) 4 true bs [Scenario.trxToken] [] ∅ [] in
  WalletBalance.balance
    <$> walletBalances
          (store_of (updateWalletBalance Reference.decimalPlus
                       (Scenario.trxDeposit 1 "alice" "w-alice" "tx-a" "2.5") s))
  = ["7"; "3.5"].
Proof. vm_compute. reflexivity. Qed.

(** ** What a confirmation pass leaves alone *)

Lemma progressOnly_id found d d' : progressOnly found d d' -> Deposit.id d' = Deposit.id d.
Proof. intros [-> | (_ & c & st & _ & ->)]; reflexivity. Qed.

Lemma progressOnly_ids found l l' :
  Forall2 (progressOnly found) l l' -> Deposit.id <$> l' = Deposit.id <$> l.
Proof.
  induction 1 as [| d d' l l' Hd _ IH]; [reflexivity |].
  rewrite !fmap_cons, IH, (progressOnly_id _ _ _ Hd). reflexivity.
Qed.

Lemma passFrame_refl found s : passFrame found s s.
Proof.
  split; [| repeat split]. apply Forall2_same_length_lookup. split; [reflexivity |].
  intros i x y Hx Hy. left. congruence.
Qed.

Section PassFrame.
Variable decimalPlus : string -> string -> option string.

(** The store a step leaves, apart from the balance rows and the ledger. *)
Lemma confirmDeposit_tables required currentBlock d s :
  let s' := store_of (confirmDeposit decimalPlus (await required) currentBlock d s) in
  (deposits s' = deposits s
   \/ exists c st, st <> pending /\ deposits s' = updated (Deposit.id d) c st <$> deposits s)
  /\ depositSeq s' = depositSeq s
  /\ systemSettings s' = systemSettings s
  /\ tokens s' = tokens s
  /\ wallets s' = wallets s
  /\ length (walletBalances s') = length (walletBalances s).
Proof.
  destruct required as [r | e]; [| split; [left |]; repeat split].
  cbv zeta. rewrite confirmDeposit_ok. cbv zeta.
  set (c := currentBlock - default 0 (Deposit.blockNumber d)).
  set (s1 := setDeposits _ _ s).
  assert (statusFor c r <> pending) as Hst
    by (unfold statusFor; destruct (Js.geq c r); discriminate).
  destruct (_ && _).
  - destruct (updateWalletBalance_cases decimalPlus d s1)
      as [[e He] | (token & i & balance & sum & _ & _ & _ & _ & Hrun)].
    + rewrite He. split; [right; eauto |]. repeat split.
    + rewrite Hrun. split; [right; eauto |]. cbn. rewrite length_insert. repeat split.
  - split; [right; eauto |]. repeat split.
Qed.

Lemma confirmDeposit_passFrame found required currentBlock s d s1 :
  NoDup (Deposit.id <$> deposits s) ->
  (forall x, x ∈ found -> x ∈ deposits s) ->
  d ∈ found -> passFrame found s s1 -> d ∈ deposits s1 ->
  passFrame found s (store_of (confirmDeposit decimalPlus (await required) currentBlock d s1)).
Proof.
  intros Hnodup Hfound Hd (Hrows & Hseq & Hset & Htok & Hwal & Hlen) Hd1.
  destruct (confirmDeposit_tables required currentBlock d s1)
    as (Hdeps & Hseq' & Hset' & Htok' & Hwal' & Hlen').
  split; [| repeat split; congruence].
  destruct Hdeps as [-> | (c & st & Hst & ->)]; [exact Hrows |].
  pose proof (progressOnly_ids _ _ _ Hrows) as Hids.
  apply Forall2_fmap_r. apply Forall2_same_length_lookup.
  split; [eapply Forall2_length, Hrows |].
  intros i x x1 Hx Hx1.
  pose proof (Forall2_lookup_lr _ _ _ _ _ _ Hrows Hx Hx1) as Hxx1.
  unfold compose, updated. cbv beta.
  destruct (bool_decide (Deposit.id x1 = Deposit.id d)) eqn:E; [| exact Hxx1].
  apply bool_decide_eq_true in E.
  assert (x1 = d) as ->.
  { apply (same_id_same_row (deposits s1)); [rewrite Hids; exact Hnodup | | exact Hd1 | exact E].
    eapply list_elem_of_lookup_2, Hx1. }
  assert (x = d) as ->.
  { apply (same_id_same_row (deposits s)); [exact Hnodup | | apply Hfound, Hd |].
    - eapply list_elem_of_lookup_2, Hx.
    - symmetry. apply (progressOnly_id _ _ _ Hxx1). }
  right. split; [exact Hd | eauto].
Qed.

Lemma updateEvmConfirmations_passFrame chain network currentBlock s :
  NoDup (Deposit.id <$> deposits s) ->
  passFrame (findPendingDeposits chain network s) s
    (store_of (updateEvmConfirmations decimalPlus chain network currentBlock s)).
Proof.
  intros Hnodup. rewrite updateEvmConfirmations_unfold. simpl.
  apply (pass_induction decimalPlus
           (passFrame (findPendingDeposits chain network s) s)
           (fun d => d ∈ findPendingDeposits chain network s)).
  - intros d s1 Hd Hs1 Hd1. apply confirmDeposit_passFrame; try assumption.
    intros x Hx. apply (found_in _ _ _ _ Hx).
  - apply passFrame_refl.
  - apply found_NoDup, Hnodup.
  - intros d Hd. split; [exact Hd | apply (found_in _ _ _ _ Hd)].
Qed.

End PassFrame.

(** X11 (updateEvmConfirmations, updateTronConfirmations): a confirmation
    pass always resolves and neither adds nor removes a deposit row.  A row
    is left as it was unless the pass found it (same chain and network,
    status pending or confirming, a block number), and of a row it found only
    [confirmations] and [status] can change: amount, user, wallet, token,
    transaction hash, block number and metadata stay.  The pass writes no
    checkpoint, token or wallet, and the number of balance rows stays. *)
Theorem pass_changes_progress_only decimalPlus chain network currentBlock s :
  NoDup (Deposit.id <$> deposits s) ->
  result_of (updateEvmConfirmations decimalPlus chain network currentBlock s) = Ok tt
  /\ passFrame (findPendingDeposits chain network s) s
       (store_of (updateEvmConfirmations decimalPlus chain network currentBlock s))
  /\ passFrame (findPendingDeposits "trx" network s) s
       (store_of (updateTronConfirmations decimalPlus network currentBlock s)).
Proof.
  intros Hnodup. split; [unfold updateEvmConfirmations; apply tryCatch_swallow |].
  split; [apply updateEvmConfirmations_passFrame, Hnodup |].
  rewrite updateTronConfirmations_as_evm. apply updateEvmConfirmations_passFrame, Hnodup.
Qed.

Lemma pass_changes_progress_only_witness :
  passFrame (findPendingDeposits "trx" "testnet" Scenario.tronStore) Scenario.tronStore
    (store_of (updateTronConfirmations Reference.decimalPlus "testnet" 11 Scenario.tronStore)).
Proof.
  apply (pass_changes_progress_only Reference.decimalPlus "trx" "testnet" 11 Scenario.tronStore).
  compute_done.
Defined.

(** ** Chains and networks missing from the confirmation table *)

Section Unlisted.
Variable decimalPlus : string -> string -> option string.

Lemma confirmDeposit_unlisted currentBlock d s :
  confirmDeposit decimalPlus (await (Ok None)) currentBlock d s
  = (Ok tt,
     setDeposits (updated (Deposit.id d) (currentBlock - default 0 (Deposit.blockNumber d))
                    confirming <$> deposits s) (depositSeq s) s).
Proof. rewrite confirmDeposit_ok. reflexivity. Qed.

Lemma pass_unlisted_network chain network currentBlock s :
  evmRequired chain network = Ok None ->
  NoDup (Deposit.id <$> deposits s) ->
  let s' := store_of (updateEvmConfirmations decimalPlus chain network currentBlock s) in
  (forall d, d ∈ findPendingDeposits chain network s ->
     Deposit.setProgress (currentBlock - default 0 (Deposit.blockNumber d)) confirming d
     ∈ deposits s')
  /\ ledger s' = ledger s /\ walletBalances s' = walletBalances s.
Proof.
  intros Hr Hnodup s'. subst s'. rewrite updateEvmConfirmations_unfold, Hr. simpl.
  set (step := confirmDeposit decimalPlus (await (Ok None)) currentBlock).
  set (found := findPendingDeposits chain network s).
  split.
  - intros d Hd.
    apply (steps_update_all decimalPlus None currentBlock found s).
    + apply found_NoDup, Hnodup.
    + intros x Hx. apply (found_in _ _ _ _ Hx).
    + apply forEach_ok. intros x s1 _. unfold step. rewrite confirmDeposit_unlisted. reflexivity.
    + exact Hd.
  - assert (preserves (fun s1 => ledger s1 = ledger s /\ walletBalances s1 = walletBalances s)
              (forEach found step)) as Hkeeps.
    { apply preserves_forEach. intros x _ s1 Hs1. unfold step.
      rewrite confirmDeposit_unlisted. exact Hs1. }
    apply Hkeeps. split; reflexivity.
Qed.

Lemma pass_unlisted_chain chain network currentBlock e s :
  evmRequired chain network = Thrown e ->
  updateEvmConfirmations decimalPlus chain network currentBlock s = (Ok tt, s).
Proof.
  intros Hr. rewrite updateEvmConfirmations_unfold, Hr. f_equal.
  destruct (findPendingDeposits chain network s) as [| d rest]; reflexivity.
Qed.

End Unlisted.

Lemma evmRequired_unlisted_network chain network :
  chain ∈ ["eth"; "bsc"; "bitcoin"; "btc"; "trx"; "xrp"] ->
  network ∉ ["mainnet"; "testnet"] ->
  evmRequired chain network = Ok None.
Proof.
  intros Hchain Hnetwork.
  assert (network <> "mainnet" /\ network <> "testnet") as [H1 H2]
    by (split; intros ->; apply Hnetwork; compute_done).
  assert (is_Some (CONFIRMATION_BLOCKS (default chain (CHAIN_KEYS chain)))) as [row Hrow].
  { registered_key Hchain; vm_compute; eauto. }
  unfold evmRequired. rewrite Hrow. f_equal.
  revert Hrow. generalize (default chain (CHAIN_KEYS chain)). intros k.
  unfold CONFIRMATION_BLOCKS. cbv zeta.
  repeat (destruct (bool_decide (k = _));
          [intros [= <-]; rewrite !bool_decide_eq_false_2 by assumption; reflexivity |]).
  discriminate.
Qed.

Lemma evmRequired_unlisted_chain chain network :
  chain ∉ ["eth"; "bsc"; "bitcoin"; "btc"; "trx"; "xrp"] ->
  evmRequired chain network = Thrown (error "Cannot read properties of undefined").
Proof.
  intros Hchain. unfold evmRequired, CHAIN_KEYS.
  rewrite !bool_decide_eq_false_2 by (intros ->; apply Hchain; compute_done).
  cbn [default]. unfold CONFIRMATION_BLOCKS. cbv beta zeta.
  rewrite !bool_decide_eq_false_2 by (intros ->; apply Hchain; compute_done). reflexivity.
Qed.

(** X12 (updateEvmConfirmations, updateTronConfirmations, CONFIRMATION_BLOCKS):
    what a pass does when the table has no count to compare with.  For a
    chain the table knows and a network other than [mainnet] and [testnet]
    the count is [undefined] and no comparison with it holds: every deposit
    found is written as confirming with its difference, however large, none
    is confirmed and no balance changes.  For a chain the table does not
    know, reading the count throws inside the pass, which then leaves the
    store as it was. *)
Theorem pass_without_required_count decimalPlus chain network currentBlock s :
  (chain ∈ ["eth"; "bsc"; "bitcoin"; "btc"; "trx"; "xrp"] ->
   network ∉ ["mainnet"; "testnet"] ->
   NoDup (Deposit.id <$> deposits s) ->
   let s' := store_of (updateEvmConfirmations decimalPlus chain network currentBlock s) in
   (forall d, d ∈ findPendingDeposits chain network s ->
      Deposit.setProgress (currentBlock - default 0 (Deposit.blockNumber d)) confirming d
      ∈ deposits s')
   /\ ledger s' = ledger s /\ walletBalances s' = walletBalances s)
  /\ (network ∉ ["mainnet"; "testnet"] ->
      NoDup (Deposit.id <$> deposits s) ->
      let s' := store_of (updateTronConfirmations decimalPlus network currentBlock s) in
      (forall d, d ∈ findPendingDeposits "trx" network s ->
         Deposit.setProgress (currentBlock - default 0 (Deposit.blockNumber d)) confirming d
         ∈ deposits s')
      /\ ledger s' = ledger s /\ walletBalances s' = walletBalances s)
  /\ (chain ∉ ["eth"; "bsc"; "bitcoin"; "btc"; "trx"; "xrp"] ->
      updateEvmConfirmations decimalPlus chain network currentBlock s = (Ok tt, s)).
Proof.
  split; [| split].
  - intros Hchain Hnetwork. apply pass_unlisted_network.
    apply evmRequired_unlisted_network; assumption.
  - intros Hnetwork. rewrite updateTronConfirmations_as_evm. apply pass_unlisted_network.
    apply evmRequired_unlisted_network; [compute_done | assumption].
  - intros Hchain. eapply pass_unlisted_chain, evmRequired_unlisted_chain, Hchain.
Qed.

Lemma pass_without_required_count_witness :
  updateEvmConfirmations Reference.decimalPlus "doge" "mainnet" 100 Scenario.tronStore
  = (Ok tt, Scenario.tronStore).
Proof.
  destruct (pass_without_required_count Reference.decimalPlus "doge" "mainnet" 100
              Scenario.tronStore) as (_ & _ & Hchain).
  apply Hchain. compute_done.
Defined.

(** ** Invariants kept by the four methods that insert rows *)

Section Leaves.
Variable P : Store -> Prop.
Variable decimalPlus : string -> string -> option string.
Variable quotientToString : Z -> Z -> string.
Variable providers : Providers.

Hypothesis P_evmTransaction :
  forall chain network tx, preserves P (processEvmTransaction chain network tx).
Hypothesis P_bitcoinTransaction :
  forall chain network tx, preserves P (processBitcoinTransaction chain network tx).
Hypothesis P_tronBlock :
  forall network block, preserves P (processTronBlock quotientToString providers network block).
Hypothesis P_xrpTransaction :
  forall chain network tx, preserves P (processXrpTransaction chain network tx).
Hypothesis P_checkpoint :
  forall chain network n, preserves P (saveLastProcessedBlock chain network n).
Hypothesis P_evm :
  forall chain network h, preserves P (updateEvmConfirmations decimalPlus chain network h).

Lemma leaves_tron_updater network h :
  preserves P (updateTronConfirmations decimalPlus network h).
Proof. rewrite updateTronConfirmations_as_evm. apply P_evm. Qed.

Lemma leaves_getLastProcessedBlock chain network :
  preserves P (getLastProcessedBlock chain network).
Proof. unfold getLastProcessedBlock. preserve. Qed.

Local Hint Resolve P_evmTransaction P_bitcoinTransaction P_tronBlock P_xrpTransaction
  P_checkpoint P_evm leaves_tron_updater leaves_getLastProcessedBlock : preserves.

Lemma leaves_processEvmBlock chain network blockNumber provider :
  preserves P (processEvmBlock chain network blockNumber provider).
Proof. unfold processEvmBlock, getEvmTransactionWithRetry. preserve. Qed.
Local Hint Resolve leaves_processEvmBlock : preserves.

Lemma leaves_processQueueForChain chain network provider queue :
  preserves P (processQueueForChain chain network provider queue).
Proof. unfold processQueueForChain. preserve. Qed.

Lemma leaves_processBitcoinBlock chain network block :
  preserves P (processBitcoinBlock chain network block).
Proof. unfold processBitcoinBlock. preserve. Qed.
Local Hint Resolve leaves_processBitcoinBlock : preserves.

Lemma leaves_checkBitcoinBlocks network : preserves P (checkBitcoinBlocks providers network).
Proof. unfold checkBitcoinBlocks. preserve. Qed.

Lemma leaves_checkTronBlocks network tronWeb :
  preserves P (checkTronBlocks decimalPlus quotientToString providers network tronWeb).
Proof. unfold checkTronBlocks, getTronBlockWithRetry. preserve. Qed.

Lemma leaves_processXrpLedger chain network ledgerIndex :
  preserves P (processXrpLedger providers chain network ledgerIndex).
Proof. unfold processXrpLedger. preserve. Qed.
Local Hint Resolve leaves_processXrpLedger : preserves.

Lemma leaves_checkXrpBlocks network : preserves P (checkXrpBlocks providers network).
Proof. unfold checkXrpBlocks. preserve. Qed.

Local Hint Resolve leaves_processQueueForChain leaves_checkBitcoinBlocks
  leaves_checkTronBlocks leaves_checkXrpBlocks : preserves.

Lemma leaves_exec (c : Call) : preserves P (exec decimalPlus quotientToString providers c).
Proof. destruct c; cbn [exec]; eauto with preserves. Qed.

Lemma leaves_run (calls : list Call) (s : Store) :
  P s -> P (run decimalPlus quotientToString providers calls s).
Proof.
  revert s. induction calls as [| c calls IH]; intros s Hs; [exact Hs |].
  cbn [run foldl]. apply IH. apply leaves_exec, Hs.
Qed.

End Leaves.

(** ** Values returned under an invariant *)

Section Yields.
Context {A : Type}.
Variable P : Store -> Prop.

Lemma yields_ret (a : A) (Q : A -> Prop) : Q a -> yields P (mret a) Q.
Proof. intros Ha s Hs. split; [exact Hs |]. intros a' [= <-]. exact Ha. Qed.

Lemma yields_throw e (Q : A -> Prop) : yields P (@throw A e) Q.
Proof. intros s Hs. split; [exact Hs | discriminate]. Qed.

Lemma yields_gets (f : Store -> A) (Q : A -> Prop) :
  (forall s, P s -> Q (f s)) -> yields P (gets f) Q.
Proof. intros Hf s Hs. split; [exact Hs |]. intros a [= <-]. apply Hf, Hs. Qed.

Lemma yields_tryCatch (m : M A) (h : Error -> M A) (Q : A -> Prop) :
  yields P m Q -> (forall e, yields P (h e) Q) -> yields P (tryCatch m h) Q.
Proof.
  intros Hm Hh s Hs. destruct (Hm s Hs) as [Hs1 Hq]. unfold tryCatch.
  destruct (m s) as [[a | e] s1]; simpl in *.
  - split; [exact Hs1 |]. intros a' [= <-]. apply Hq. reflexivity.
  - apply Hh, Hs1.
Qed.

Lemma yields_bind {B} (m : M A) (k : A -> M B) (Q : A -> Prop) (R : B -> Prop) :
  yields P m Q -> (forall a, Q a -> yields P (k a) R) -> yields P (m ≫= k) R.
Proof.
  intros Hm Hk s Hs. destruct (Hm s Hs) as [Hs1 Hq]. unfold mbind, M_bind.
  destruct (m s) as [[a | e] s1]; simpl in *.
  - apply (Hk a); [apply Hq; reflexivity | exact Hs1].
  - split; [exact Hs1 | discriminate].
Qed.

Lemma yields_weaken (m : M A) (Q Q' : A -> Prop) :
  yields P m Q -> (forall a, Q a -> Q' a) -> yields P m Q'.
Proof.
  intros Hm HQ s Hs. destruct (Hm s Hs) as [Hs1 Hq]. split; [exact Hs1 |].
  intros a Ha. apply HQ, Hq, Ha.
Qed.

Lemma yields_preserves (m : M A) (Q : A -> Prop) : yields P m Q -> preserves P m.
Proof. intros Hm s Hs. apply (Hm s Hs). Qed.

End Yields.

Lemma yields_forEach {X} P (l : list X) (body : X -> M unit) :
  (forall x, x ∈ l -> yields P (body x) (fun _ => True)) ->
  yields P (forEach l body) (fun _ => True).
Proof.
  intros Hbody s Hs. split; [| intros; exact I].
  apply preserves_forEach; [| exact Hs].
  intros x Hx. eapply yields_preserves, Hbody, Hx.
Qed.

Lemma head_elem_of {A} (l : list A) (x : A) : head l = Some x -> x ∈ l.
Proof. destruct l; intros [= <-]. constructor. Qed.

Lemma last_elem_of {A} (l : list A) (x : A) : last l = Some x -> x ∈ l.
Proof. intros H. apply last_Some in H as [l' ->]. apply elem_of_app. right. constructor. Qed.

(** ** Rows backed by a wallet and a token *)

Section Backed.
Variables (ws : list Wallet.t) (ts : list Token.t).

Local Abbreviation inv := (backedBy ws ts).

Lemma saveDeposit_backed row :
  rowBacked ws ts row -> yields inv (saveDeposit row) (fun _ => True).
Proof.
  intros Hrow s (Hw & Ht & Hrows). split; [| intros; exact I].
  unfold saveDeposit. destruct (_ && _); [repeat split; assumption |].
  split; [exact Hw |]. split; [exact Ht |]. cbn.
  apply Forall_app. split; [exact Hrows |]. constructor; [exact Hrow | constructor].
Qed.

Lemma findWallets_backed chain network :
  yields inv (findWallets chain network)
    (fun found => forall w, w ∈ found ->
       w ∈ ws /\ Wallet.blockchain w = chain /\ Wallet.network w = network).
Proof.
  apply yields_gets. intros s (Hw & _ & _) w Hin.
  apply list_elem_of_filter in Hin as [[Hc Hn] Hin]. rewrite <- Hw. auto.
Qed.

Lemma findOneToken_backed (where_ : Token.t -> Prop) `{!forall t, Decision (where_ t)} :
  yields inv (findOneToken where_)
    (fun found => forall t, found = Some t -> t ∈ ts /\ where_ t).
Proof.
  apply yields_gets. intros s (_ & Ht & _) t Hhead.
  apply head_elem_of, list_elem_of_filter in Hhead as [Hwhere Hin]. rewrite <- Ht. auto.
Qed.

Lemma saveLastProcessedBlock_backed chain network n :
  preserves inv (saveLastProcessedBlock chain network n).
Proof. intros s Hs. rewrite saveLastProcessedBlock_run. exact Hs. Qed.

Lemma rowBacked_updated i c st d : rowBacked ws ts d -> rowBacked ws ts (updated i c st d).
Proof. unfold updated. destruct (bool_decide _); intros H; exact H. Qed.

Lemma updateDeposit_backed i c st : preserves inv (updateDeposit i c st).
Proof.
  intros s (Hw & Ht & Hrows). split; [exact Hw |]. split; [exact Ht |]. cbn.
  apply Forall_fmap. eapply Forall_impl; [exact Hrows |].
  intros d Hd. apply (rowBacked_updated i c st d Hd).
Qed.

Lemma updateWalletBalance_backed decimalPlus d :
  preserves inv (updateWalletBalance decimalPlus d).
Proof.
  intros s Hs.
  destruct (updateWalletBalance_cases decimalPlus d s)
    as [[e He] | (token & i & balance & sum & _ & _ & _ & _ & Hrun)].
  - rewrite He. exact Hs.
  - rewrite Hrun. exact Hs.
Qed.

Lemma processEvmTransaction_backed chain network tx :
  preserves inv (processEvmTransaction chain network tx).
Proof.
  eapply yields_preserves with (Q := fun _ => True). unfold processEvmTransaction.
  apply yields_tryCatch; [| intros; apply yields_ret; exact I].
  eapply yields_bind; [apply findWallets_backed |]. intros found Hfound. cbv zeta.
  destruct (Js.toLowerCase <$> Evm.to tx) as [toAddress |]; [| apply yields_ret; exact I].
  destruct (bool_decide (toAddress = "")); [apply yields_ret; exact I |].
  destruct (last _) as [wallet |] eqn:Hwallet; [| apply yields_ret; exact I].
  apply last_elem_of, list_elem_of_filter in Hwallet as [_ Hwallet].
  destruct (Hfound wallet Hwallet) as (Hin & Hchain & Hnetwork).
  eapply yields_bind with
    (Q := fun token => forall t, token = Some t -> t ∈ ts).
  { unfold getTokenForTransaction.
    apply yields_tryCatch; [| intros; apply yields_ret; discriminate].
    destruct (Evm.to tx) as [to |]; [| apply yields_ret; discriminate].
    destruct (bool_decide (to = "")); [apply yields_ret; discriminate |].
    destruct (_ || _);
      (eapply yields_weaken; [apply findOneToken_backed |]);
      intros o Ho t ->; apply (Ho t eq_refl). }
  intros [token |] Htoken; [| apply yields_ret; exact I].
  eapply yields_bind with (Q := fun _ => True).
  { unfold getTransactionAmount.
    apply yields_tryCatch; [| intros; apply yields_ret; exact I].
    destruct (bool_decide _); [apply yields_ret; exact I |].
    eapply yields_bind with (Q := fun _ => True).
    { intros s Hs. split; [exact Hs | intros; exact I]. }
    intros receipt _. destruct (receipt ≫= _); apply yields_ret; exact I. }
  intros [amount |] _; [| apply yields_ret; exact I].
  destruct (bool_decide (amount = "")); [apply yields_ret; exact I |].
  apply saveDeposit_backed. split.
  - exists wallet. auto.
  - exists token. split; [apply Htoken; reflexivity | auto].
Qed.

Lemma getBitcoinTokenId_backed :
  yields inv getBitcoinTokenId
    (fun tokenId => exists t, t ∈ ts /\ Token.id t = tokenId
                              /\ Token.networkVersion t = "NATIVE").
Proof.
  unfold getBitcoinTokenId. eapply yields_bind; [apply findOneToken_backed |].
  intros [token |] Htoken; [| apply yields_throw].
  apply yields_ret. destruct (Htoken token eq_refl) as (Hin & _ & Hnative). eauto.
Qed.

Lemma getXrpTokenId_backed :
  yields inv getXrpTokenId
    (fun tokenId => exists t, t ∈ ts /\ Token.id t = tokenId
                              /\ Token.networkVersion t = "NATIVE").
Proof.
  unfold getXrpTokenId. eapply yields_bind; [apply findOneToken_backed |].
  intros [token |] Htoken; [| apply yields_throw].
  apply yields_ret. destruct (Htoken token eq_refl) as (Hin & _ & Hnative). eauto.
Qed.

Lemma processBitcoinTransaction_backed chain network tx :
  preserves inv (processBitcoinTransaction chain network tx).
Proof.
  eapply yields_preserves with (Q := fun _ => True). unfold processBitcoinTransaction.
  apply yields_tryCatch; [| intros; apply yields_throw].
  eapply yields_bind; [apply findWallets_backed |]. intros found Hfound.
  apply yields_forEach. intros output _. apply yields_forEach. intros address _.
  destruct (bool_decide _); [| apply yields_ret; exact I].
  destruct (head _) as [wallet |] eqn:Hwallet; [| apply yields_ret; exact I].
  apply head_elem_of, list_elem_of_filter in Hwallet as [_ Hwallet].
  destruct (Hfound wallet Hwallet) as (Hin & Hchain & Hnetwork).
  eapply yields_bind; [apply getBitcoinTokenId_backed |].
  intros tokenId (t & Ht & Hid & Hnative).
  apply saveDeposit_backed. split; [exists wallet | exists t]; auto.
Qed.

Lemma getTronToken_backed contractType assetName :
  yields inv (getTronToken contractType assetName)
    (fun token => forall t, token = Some t -> t ∈ ts).
Proof.
  unfold getTronToken. destruct (bool_decide _).
  - eapply yields_weaken; [apply findOneToken_backed |].
    intros o Ho t ->. apply (Ho t eq_refl).
  - destruct assetName as [name |]; [| apply yields_ret; discriminate].
    destruct (_ && _); [| apply yields_ret; discriminate].
    eapply yields_weaken; [apply findOneToken_backed |].
    intros o Ho t ->. apply (Ho t eq_refl).
Qed.

Lemma processTronBlock_backed quotientToString providers network block :
  preserves inv (processTronBlock quotientToString providers network block).
Proof.
  eapply yields_preserves with (Q := fun _ => True). unfold processTronBlock.
  apply yields_tryCatch; [| intros; apply yields_ret; exact I].
  eapply yields_bind; [apply findWallets_backed |]. intros found Hfound. cbv zeta.
  apply yields_forEach. intros tx _.
  destruct (Tron.contract0 tx) as [contract |]; [| apply yields_ret; exact I].
  destruct (_ || _); [| apply yields_ret; exact I].
  destruct (trx providers network) as [tronWeb |]; [| apply yields_throw].
  destruct (bool_decide _); [| apply yields_ret; exact I].
  destruct (head _) as [wallet |] eqn:Hwallet; [| apply yields_ret; exact I].
  apply head_elem_of, list_elem_of_filter in Hwallet as [_ Hwallet].
  destruct (Hfound wallet Hwallet) as (Hin & Hchain & Hnetwork).
  eapply yields_bind; [apply getTronToken_backed |].
  intros [token |] Htoken; [| apply yields_ret; exact I].
  apply saveDeposit_backed. split; [exists wallet | exists token]; auto.
Qed.

Lemma processXrpTransaction_backed chain network tx :
  preserves inv (processXrpTransaction chain network tx).
Proof.
  eapply yields_preserves with (Q := fun _ => True). unfold processXrpTransaction.
  apply yields_tryCatch; [| intros; apply yields_ret; exact I].
  destruct (negb _); [apply yields_ret; exact I |].
  eapply yields_bind; [apply findWallets_backed |]. intros found Hfound.
  destruct (bool_decide _); [| apply yields_ret; exact I].
  destruct (head _) as [wallet |] eqn:Hwallet; [| apply yields_ret; exact I].
  apply head_elem_of, list_elem_of_filter in Hwallet as [_ Hwallet].
  destruct (Hfound wallet Hwallet) as (Hin & Hchain & Hnetwork).
  eapply yields_bind; [apply getXrpTokenId_backed |].
  intros tokenId (t & Ht & Hid & Hnative).
  apply saveDeposit_backed. split; [exists wallet | exists t]; auto.
Qed.

Lemma updateEvmConfirmations_backed decimalPlus chain network h :
  preserves inv (updateEvmConfirmations decimalPlus chain network h).
Proof.
  apply updateEvmConfirmations_preserves;
    [apply updateDeposit_backed | intros d; apply updateWalletBalance_backed].
Qed.

Lemma run_backedBy decimalPlus quotientToString providers calls s :
  inv s -> inv (run decimalPlus quotientToString providers calls s).
Proof.
  apply leaves_run.
  - apply processEvmTransaction_backed.
  - apply processBitcoinTransaction_backed.
  - apply processTronBlock_backed.
  - apply processXrpTransaction_backed.
  - apply saveLastProcessedBlock_backed.
  - apply updateEvmConfirmations_backed.
Qed.

End Backed.

Lemma backed_token_found d s :
  backed s -> d ∈ deposits s ->
  is_Some (head (filter (fun t => Token.id t = Deposit.tokenId d) (tokens s))).
Proof.
  intros (_ & _ & Hrows) Hd.
  destruct (proj1 (Forall_forall _ _) Hrows d Hd) as (_ & t & Ht & Hid & _).
  destruct (head _) as [token |] eqn:Hhead; [eauto |].
  exfalso. apply head_None in Hhead.
  assert (t ∈ filter (fun t => Token.id t = Deposit.tokenId d) (tokens s)) as Hin
    by (apply list_elem_of_filter; auto).
  rewrite Hhead in Hin. inversion Hin.
Qed.

(** X13 (processEvmTransaction, processBitcoinTransaction, processTronBlock,
    processXrpTransaction): the service only records deposits for the wallets
    it monitors.  Every row it inserts carries the id and the user of a
    wallet of the wallets table whose chain and network are those of the
    row, and the id and network version of a token of the tokens table; the
    confirmation passes keep these columns.  So, from a store whose rows are
    backed in this way, every run of the service leaves wallets and tokens as
    they were and every row backed, and a credit never fails for a missing
    token: the token of a stored deposit is always found. *)
Theorem deposits_stay_backed decimalPlus quotientToString providers calls s :
  backed s ->
  let s' := run decimalPlus quotientToString providers calls s in
  backed s'
  /\ wallets s' = wallets s /\ tokens s' = tokens s
  /\ forall d, d ∈ deposits s' ->
       is_Some (head (filter (fun t => Token.id t = Deposit.tokenId d) (tokens s'))).
Proof.
  intros Hs s'.
  pose proof (run_backedBy (wallets s) (tokens s) decimalPlus quotientToString providers
                calls s Hs) as Hrun.
  fold s' in Hrun. pose proof Hrun as (Hw & Ht & Hrows).
  assert (backed s') as Hbacked by (unfold backed; rewrite Hw, Ht; exact Hrun).
  split; [exact Hbacked |]. split; [exact Hw |]. split; [exact Ht |].
  intros d Hd. apply backed_token_found; assumption.
Qed.

Lemma deposits_stay_backed_witness :
  backed
    (run Reference.decimalPlus Reference.quotientToString
       (Scenario.tronOnly (Scenario.payingTron 100))
       [CheckTronBlocks "testnet" (Scenario.payingTron 100);
        CheckTronBlocks "testnet" (Scenario.payingTron 100)]
       Scenario.tronStoreEmpty).
Proof.
  apply (deposits_stay_backed Reference.decimalPlus Reference.quotientToString
           (Scenario.tronOnly (Scenario.payingTron 100))
           [CheckTronBlocks "testnet" (Scenario.payingTron 100);
            CheckTronBlocks "testnet" (Scenario.payingTron 100)]
           Scenario.tronStoreEmpty).
  split; [reflexivity |]. split; [reflexivity |]. constructor.
Defined.

(** ** The row of an EVM transaction *)

Lemma saveDeposit_cases row s :
  (exists e, saveDeposit row s = (Thrown e, s)) \/ saveDeposit row s = (Ok tt, inserted row s).
Proof. unfold saveDeposit. destruct (_ && _); [left; eauto | right; reflexivity]. Qed.

Lemma getTokenForTransaction_run chain tx s :
  exists token,
    getTokenForTransaction chain tx s = (Ok token, s)
    /\ forall t, token = Some t ->
         exists to, Evm.to tx = Some to /\ t ∈ tokens s /\ evmTokenOf chain tx to t.
Proof.
  unfold getTokenForTransaction, evmTokenOf, tryCatch, findOneToken, gets.
  destruct (Evm.to tx) as [to |]; [| exists None; split; [reflexivity | discriminate]].
  destruct (bool_decide (to = "")); [exists None; split; [reflexivity | discriminate] |].
  destruct (_ || _); eexists; (split; [reflexivity |]); intros t Ht;
    apply head_elem_of, list_elem_of_filter in Ht as [(Hc & Hv & Ha) Hin];
    exists to; auto.
Qed.

Lemma getTransactionAmount_run tx token s :
  exists amount,
    getTransactionAmount tx token s = (Ok amount, s)
    /\ forall a, amount = Some a -> evmAmountOf tx token a.
Proof.
  unfold getTransactionAmount, evmAmountOf, tryCatch, mbind, M_bind, await.
  destruct (bool_decide _).
  - eexists. split; [reflexivity |]. intros a [= <-]. reflexivity.
  - destruct (Evm.wait tx) as [[receipt |] | e]; cbn.
    + destruct (findTransfer _) as [value |] eqn:Hlog; eexists; (split; [reflexivity |]);
        [intros a [= <-]; eauto | discriminate].
    + eexists. split; [reflexivity | discriminate].
    + eexists. split; [reflexivity | discriminate].
Qed.

Lemma processEvmTransaction_rows chain network tx s :
  processEvmTransaction chain network tx s = (Ok tt, s)
  \/ exists to wallet token amount,
       Evm.to tx = Some to
       /\ last (filter (fun w => Js.toLowerCase (Wallet.address w) = Js.toLowerCase to)
                  (filter (fun w => Wallet.blockchain w = chain /\ Wallet.network w = network)
                          (wallets s))) = Some wallet
       /\ wallet ∈ wallets s /\ Wallet.blockchain wallet = chain
       /\ Wallet.network wallet = network
       /\ Js.toLowerCase (Wallet.address wallet) = Js.toLowerCase to
       /\ token ∈ tokens s /\ evmTokenOf chain tx to token
       /\ evmAmountOf tx token amount
       /\ processEvmTransaction chain network tx s
          = (Ok tt, inserted (evmDeposit chain network tx wallet token amount) s).
Proof.
  remember (processEvmTransaction chain network tx s) as r eqn:Hr.
  unfold processEvmTransaction, tryCatch, findWallets, gets in Hr.
  unfold mbind at 1 in Hr. unfold M_bind at 1 in Hr. cbv zeta in Hr.
  destruct (Evm.to tx) as [to |] eqn:Hto; [| left; exact Hr].
  cbn [fmap option_fmap option_map] in Hr.
  destruct (bool_decide (Js.toLowerCase to = "")); [left; exact Hr |].
  destruct (last _) as [wallet |] eqn:Hlast; [| left; exact Hr].
  pose proof Hlast as Hwallet.
  apply last_elem_of, list_elem_of_filter in Hwallet as [Haddr Hwallet].
  apply list_elem_of_filter in Hwallet as [[Hchain Hnetwork] Hwallet].
  destruct (getTokenForTransaction_run chain tx s) as (token & Htoken & Hspec).
  unfold mbind at 1 in Hr. unfold M_bind at 1 in Hr. rewrite Htoken in Hr.
  destruct token as [token |]; [| left; exact Hr].
  destruct (Hspec token eq_refl) as (to' & Hto' & Hin & Htok).
  rewrite Hto in Hto'. injection Hto' as <-.
  destruct (getTransactionAmount_run tx token s) as (amount & Hamount & Haspec).
  unfold mbind at 1 in Hr. unfold M_bind at 1 in Hr. rewrite Hamount in Hr.
  destruct amount as [amount |]; [| left; exact Hr].
  destruct (bool_decide (amount = "")); [left; exact Hr |].
  fold (evmDeposit chain network tx wallet token amount) in Hr.
  destruct (saveDeposit_cases (evmDeposit chain network tx wallet token amount) s)
    as [[e He] | Hsaved]; rewrite ?He, ?Hsaved in Hr; [left; exact Hr |].
  right. exists to, wallet, token, amount.
  split; [reflexivity |]. do 7 (split; [assumption |]).
  split; [exact (Haspec amount eq_refl) | exact Hr].
Qed.


Example zero_value_transfer_recorded :
  let tx := Evm.mkTx "0xt3" (Some "0xABC") "0x1" "0x" 0 (Some 1000) (Some "0xb1000")
              (Ok None) in
  (fun d => (Deposit.walletId d, Deposit.amount d, Deposit.status d))
    <$> deposits (store_of (processEvmTransaction "eth" "mainnet" tx Scenario.evmStore))
  = [("w-eth", "0.0", pending)].
Proof. vm_compute. reflexivity. Qed.

(** ** Rows added by pull-mode blocks *)

Section Grows.
Variables (R : Deposit.t -> Prop) (s0 : Store).

Local Abbreviation inv := (grows R s0).

Lemma grows_refl : inv s0.
Proof. exists []. rewrite app_nil_r. repeat split. constructor. Qed.

Lemma saveDeposit_grows row : R row -> yields inv (saveDeposit row) (fun _ => True).
Proof.
  intros Hrow s (added & Hd & Hadded & Hrest). split; [| intros; exact I].
  destruct (saveDeposit_cases row s) as [[e He] | Hsaved].
  - rewrite He. exists added. auto.
  - rewrite Hsaved. exists (added ++ [Deposit.withId (depositSeq s) row])%list.
    split; [cbn; rewrite Hd, app_assoc; reflexivity |].
    split; [| exact Hrest].
    apply Forall_app. split; [exact Hadded |]. constructor; [| constructor].
    exists row. split; [exact Hrow | reflexivity].
Qed.

Lemma findWallets_grows chain network :
  yields inv (findWallets chain network)
    (fun found => forall w, w ∈ found ->
       w ∈ wallets s0 /\ Wallet.blockchain w = chain /\ Wallet.network w = network).
Proof.
  apply yields_gets. intros s (added & _ & _ & Hw & _) w Hin.
  apply list_elem_of_filter in Hin as [[Hc Hn] Hin]. rewrite <- Hw. auto.
Qed.

Lemma findOneToken_grows (where_ : Token.t -> Prop) `{!forall t, Decision (where_ t)} :
  yields inv (findOneToken where_)
    (fun found => forall t, found = Some t -> t ∈ tokens s0 /\ where_ t).
Proof.
  apply yields_gets. intros s (added & _ & _ & _ & Ht & _) t Hhead.
  apply head_elem_of, list_elem_of_filter in Hhead as [Hwhere Hin]. rewrite <- Ht. auto.
Qed.

Lemma getTronToken_grows (contract : Tron.Contract) :
  yields inv (getTronToken (Tron.type contract) (Tron.asset_name contract))
    (fun found => forall t, found = Some t -> t ∈ tokens s0 /\ tronTokenOf contract t).
Proof.
  unfold getTronToken, tronTokenOf.
  destruct (bool_decide (Tron.type contract = "TransferContract")) eqn:Hplain.
  - apply bool_decide_eq_true in Hplain.
    eapply yields_weaken; [apply findOneToken_grows |].
    intros o Ho t ->. destruct (Ho t eq_refl) as (Hin & Hc & Hv & Ha). auto 6.
  - destruct (Tron.asset_name contract) as [name |]; [| apply yields_ret; discriminate].
    destruct (bool_decide (Tron.type contract = "TransferAssetContract")) eqn:Hasset;
      [| apply yields_ret; discriminate].
    apply bool_decide_eq_true in Hasset.
    destruct (negb _); [| apply yields_ret; discriminate]. cbn [andb].
    eapply yields_weaken; [apply findOneToken_grows |].
    intros o Ho t ->. destruct (Ho t eq_refl) as (Hin & Hc & Hv & Hsym & Ha).
    rewrite Hsym. auto 8.
Qed.

End Grows.

Lemma processTronBlock_grows quotientToString providers network block tronWeb s :
  trx providers network = Some tronWeb ->
  grows (tronEntity quotientToString tronWeb network block s) s
    (store_of (processTronBlock quotientToString providers network block s)).
Proof.
  intros Htron.
  set (R := tronEntity quotientToString tronWeb network block s).
  assert (yields (grows R s) (processTronBlock quotientToString providers network block)
            (fun _ => True)) as Hy; [| apply Hy, grows_refl].
  unfold processTronBlock. rewrite Htron.
  apply yields_tryCatch; [| intros; apply yields_ret; exact I].
  eapply yields_bind; [apply findWallets_grows |]. intros found Hfound. cbv zeta.
  apply yields_forEach. intros tx Htx.
  destruct (Tron.contract0 tx) as [contract |] eqn:Hcontract; [| apply yields_ret; exact I].
  destruct (_ || _); [| apply yields_ret; exact I].
  destruct (bool_decide (_ ∈ _)); [| apply yields_ret; exact I].
  destruct (head _) as [wallet |] eqn:Hwallet; [| apply yields_ret; exact I].
  apply head_elem_of, list_elem_of_filter in Hwallet as [Haddr Hwallet].
  destruct (Hfound wallet Hwallet) as (Hin & Hchain & Hnetwork).
  eapply yields_bind; [apply getTronToken_grows |].
  intros [token |] Htoken; [| apply yields_ret; exact I].
  destruct (Htoken token eq_refl) as [Hint Htok].
  apply saveDeposit_grows. exists tx, contract, wallet, token.
  repeat split; try assumption; apply Htok.
Qed.

Lemma processBitcoinTransaction_grows chain network tx s :
  grows (bitcoinEntity chain network tx s) s
    (store_of (processBitcoinTransaction chain network tx s)).
Proof.
  set (R := bitcoinEntity chain network tx s).
  assert (yields (grows R s) (processBitcoinTransaction chain network tx) (fun _ => True))
    as Hy; [| apply Hy, grows_refl].
  unfold processBitcoinTransaction.
  apply yields_tryCatch; [| intros; apply yields_throw].
  eapply yields_bind; [apply findWallets_grows |]. intros found Hfound.
  apply yields_forEach. intros output Houtput. apply yields_forEach. intros address Haddress.
  destruct (bool_decide _); [| apply yields_ret; exact I].
  destruct (head _) as [wallet |] eqn:Hwallet; [| apply yields_ret; exact I].
  apply head_elem_of, list_elem_of_filter in Hwallet as [Haddr Hwallet].
  destruct (Hfound wallet Hwallet) as (Hin & Hchain & Hnetwork).
  unfold getBitcoinTokenId.
  eapply yields_bind.
  { eapply yields_bind; [apply findOneToken_grows |].
    intros [token |] Htoken; [| apply yields_throw].
    apply (yields_ret _ (Token.id token)
             (fun tokenId => exists t, t ∈ tokens s /\ Token.symbol t = "BTC"
                                       /\ Token.networkVersion t = "NATIVE"
                                       /\ Token.id t = tokenId)).
    destruct (Htoken token eq_refl) as (Hint & Hsym & Hv). eauto. }
  intros tokenId (token & Hint & Hsym & Hv & <-).
  apply saveDeposit_grows. exists output, address, wallet, token.
  repeat split; assumption.
Qed.

(** X15 (processTronBlock, getTronToken): a Tron block always resolves and
    only adds rows, each for a transaction of the block whose first contract
    is a [TransferContract] or a [TransferAssetContract] to the address, as
    [fromHex] gives it and letter for letter, of a monitored wallet of [trx]
    and the network.  The token is the active native token for the first
    type, the active TRC20 token whose symbol is the asset name for the
    second; the amount is the raw amount divided by ten to the token's
    decimals as JavaScript prints it; the block number is that of the
    block.  A transaction with any other first contract, such as a call of
    a token contract, adds nothing. *)
Theorem tron_block_rows quotientToString providers network block tronWeb s :
  trx providers network = Some tronWeb ->
  result_of (processTronBlock quotientToString providers network block s) = Ok tt
  /\ grows (tronEntity quotientToString tronWeb network block s) s
       (store_of (processTronBlock quotientToString providers network block s)).
Proof.
  intros Htron. split; [apply processTronBlock_ok |].
  apply processTronBlock_grows, Htron.
Qed.

Lemma tron_block_rows_witness :
  grows
    (tronEntity Reference.quotientToString (Scenario.payingTron 100) "testnet"
       (Tron.mkBlock 1 "id"
          (Some [Tron.mkTx "tx-a"
                   (Some (Tron.mkContract "TransferContract" "TAlice" "TSender" 2500000 None))]))
       Scenario.tronStoreEmpty)
    Scenario.tronStoreEmpty
    (store_of (processTronBlock Reference.quotientToString
                 (Scenario.tronOnly (Scenario.payingTron 100)) "testnet"
                 (Tron.mkBlock 1 "id"
                    (Some [Tron.mkTx "tx-a"
                             (Some (Tron.mkContract "TransferContract" "TAlice" "TSender"
                                      2500000 None))]))
                 Scenario.tronStoreEmpty)).
Proof.
  apply (tron_block_rows Reference.quotientToString
           (Scenario.tronOnly (Scenario.payingTron 100)) "testnet" _
           (Scenario.payingTron 100) Scenario.tronStoreEmpty).
  reflexivity.
Defined.

Example token_contract_call_not_recorded :
  let call := Tron.mkTx "tx-t"
                (Some (Tron.mkContract "TriggerSmartContract" "TAlice" "TSender" 5000000 None)) in
  processTronBlock Reference.quotientToString (Scenario.tronOnly (Scenario.payingTron 100))
    "testnet" (Tron.mkBlock 1 "id" (Some [call])) Scenario.tronStoreEmpty
  = (Ok tt, Scenario.tronStoreEmpty).
Proof. vm_compute. reflexivity. Qed.

(** X16 (processBitcoinTransaction, getBitcoinTokenId): whether it returns
    or throws, a Bitcoin transaction only adds rows, each for an address
    listed in [scriptPubKey.addresses] of an output that is, letter for
    letter, the address of a monitored wallet of the chain and network.  The
    row carries that wallet and its user, a token with symbol BTC and network
    version NATIVE, the value of the output as the node prints it, and the
    block height of the transaction.  An output with no [addresses] list
    adds nothing, and rows added before a throw stay. *)
Theorem bitcoin_transaction_rows chain network tx s :
  grows (bitcoinEntity chain network tx s) s
    (store_of (processBitcoinTransaction chain network tx s))
  /\ ((forall output, output ∈ Bitcoin.vout tx -> Bitcoin.addresses output = None) ->
      deposits (store_of (processBitcoinTransaction chain network tx s)) = deposits s).
Proof.
  pose proof (processBitcoinTransaction_grows chain network tx s) as Hgrows.
  split; [exact Hgrows |]. intros Hnone.
  destruct Hgrows as (added & Hd & Hadded & _). rewrite Hd.
  destruct added as [| row added]; [apply app_nil_r |]. exfalso.
  apply Forall_cons in Hadded as [(entity & (output & address & w & t & Ho & Ha & _) & _) _].
  rewrite (Hnone output Ho) in Ha. inversion Ha.
Qed.

(** ** The row of an XRP transaction *)

Lemma processXrpTransaction_rows chain network tx s :
  processXrpTransaction chain network tx s = (Ok tt, s)
  \/ exists wallet token,
       Xrp.TransactionType tx = "Payment"
       /\ wallet ∈ wallets s /\ Wallet.blockchain wallet = chain
       /\ Wallet.network wallet = network
       /\ Wallet.address wallet = Xrp.Destination tx
       /\ token ∈ tokens s /\ Token.symbol token = "XRP"
       /\ Token.networkVersion token = "NATIVE"
       /\ processXrpTransaction chain network tx s
          = (Ok tt, inserted (xrpDeposit chain network tx wallet token) s).
Proof.
  remember (processXrpTransaction chain network tx s) as r eqn:Hr.
  unfold processXrpTransaction, tryCatch, findWallets, gets in Hr.
  destruct (bool_decide (Xrp.TransactionType tx = "Payment")) eqn:Hpay;
    cbn [negb] in Hr; [| left; exact Hr].
  apply bool_decide_eq_true in Hpay.
  unfold mbind at 1 in Hr. unfold M_bind at 1 in Hr.
  destruct (bool_decide (_ ∈ _)); [| left; exact Hr].
  destruct (head _) as [wallet |] eqn:Hwallet; [| left; exact Hr].
  apply head_elem_of, list_elem_of_filter in Hwallet as [Haddr Hwallet].
  apply list_elem_of_filter in Hwallet as [[Hchain Hnetwork] Hwallet].
  unfold getXrpTokenId, findOneToken, gets in Hr.
  unfold mbind, M_bind in Hr.
  destruct (head _) as [token |] eqn:Htoken; [| left; exact Hr].
  apply head_elem_of, list_elem_of_filter in Htoken as [[Hsym Hv] Htoken].
  unfold mret, M_ret in Hr. cbv beta iota in Hr.
  fold (xrpDeposit chain network tx wallet token) in Hr.
  destruct (saveDeposit_cases (xrpDeposit chain network tx wallet token) s)
    as [[e He] | Hsaved]; rewrite ?He, ?Hsaved in Hr; [left; exact Hr |].
  right. exists wallet, token. do 8 (split; [assumption |]). exact Hr.
Qed.

(** X22 (processXrpTransaction, getXrpTokenId): an XRP transaction always
    resolves and adds at most one row, and only if its type is [Payment] and
    its [Destination] is, letter for letter, the address of a monitored
    wallet of the chain and network.  The row carries that wallet and its
    user, a token with symbol XRP and network version NATIVE, the [Amount]
    of the transaction as it came, its [ledger_index] as block number and
    its [Account] as sender.  Any other transaction type adds nothing; in
    every other case, a rejected insert included, the store is as it was. *)
Theorem xrp_transaction_adds_one_row chain network tx s :
  processXrpTransaction chain network tx s = (Ok tt, s)
  \/ exists wallet token,
       Xrp.TransactionType tx = "Payment"
       /\ wallet ∈ wallets s /\ Wallet.blockchain wallet = chain
       /\ Wallet.network wallet = network
       /\ Wallet.address wallet = Xrp.Destination tx
       /\ token ∈ tokens s /\ Token.symbol token = "XRP"
       /\ Token.networkVersion token = "NATIVE"
       /\ processXrpTransaction chain network tx s
          = (Ok tt, inserted (xrpDeposit chain network tx wallet token) s).
Proof. apply processXrpTransaction_rows. Qed.

(** ** A native token that is not registered *)

Lemma forEach_stops {X} (l : list X) (body : X -> M unit) (throws : X -> bool) e0 s :
  (forall x, body x s = if throws x then (Thrown e0, s) else (Ok tt, s)) ->
  forEach l body s = if existsb throws l then (Thrown e0, s) else (Ok tt, s).
Proof.
  intros Hbody. induction l as [| x l IH]; [reflexivity |].
  cbn [forEach existsb]. unfold mbind, M_bind. rewrite Hbody.
  destruct (throws x); [reflexivity | exact IH].
Qed.

Lemma noNativeToken_head symbol s :
  noNativeToken symbol s ->
  head (filter (fun t => Token.symbol t = symbol /\ Token.networkVersion t = "NATIVE")
               (tokens s)) = None.
Proof.
  intros Hnone. destruct (head _) as [t |] eqn:Hhead; [| reflexivity].
  apply head_elem_of, list_elem_of_filter in Hhead as [Ht Hin].
  destruct (Hnone t Hin Ht).
Qed.

Lemma getBitcoinTokenId_missing s :
  noNativeToken "BTC" s ->
  getBitcoinTokenId s = (Thrown (error "Bitcoin token not found in database"), s).
Proof.
  intros Hnone. unfold getBitcoinTokenId, findOneToken, mbind, M_bind, gets.
  rewrite (noNativeToken_head _ _ Hnone). reflexivity.
Qed.

Lemma getXrpTokenId_missing s :
  noNativeToken "XRP" s ->
  getXrpTokenId s = (Thrown (error "XRP token not found in database"), s).
Proof.
  intros Hnone. unfold getXrpTokenId, findOneToken, mbind, M_bind, gets.
  rewrite (noNativeToken_head _ _ Hnone). reflexivity.
Qed.

Lemma processBitcoinTransaction_missing chain network tx s :
  noNativeToken "BTC" s ->
  processBitcoinTransaction chain network tx s
  = if paysMonitored chain network tx s
    then (Thrown (error "Bitcoin token not found in database"), s)
    else (Ok tt, s).
Proof.
  intros Hnone. unfold processBitcoinTransaction, paysMonitored, tryCatch, findWallets.
  unfold mbind at 1. unfold M_bind at 1. unfold gets at 1.
  set (found := filter _ (wallets s)).
  rewrite (forEach_stops (Bitcoin.vout tx) _
             (fun output =>
                existsb (fun address => bool_decide (address ∈ Wallet.address <$> found))
                        (default [] (Bitcoin.addresses output)))
             (error "Bitcoin token not found in database") s).
  { destruct (existsb _ _); reflexivity. }
  intros output. apply forEach_stops. intros address.
  destruct (bool_decide (address ∈ Wallet.address <$> found)) eqn:Hmon; [| reflexivity].
  apply bool_decide_eq_true, list_elem_of_fmap in Hmon as (w & -> & Hw).
  destruct (head _) as [wallet |] eqn:Hwallet.
  - unfold mbind, M_bind. rewrite (getBitcoinTokenId_missing s Hnone). reflexivity.
  - apply head_None in Hwallet.
    assert (w ∈ filter (fun w0 => Wallet.address w0 = Wallet.address w) found) as Hin
      by (apply list_elem_of_filter; auto).
    rewrite Hwallet in Hin. inversion Hin.
Qed.

Lemma processBitcoinBlock_missing chain network block txs s :
  noNativeToken "BTC" s ->
  Bitcoin.tx block = Some txs ->
  existsb (fun tx => paysMonitored chain network tx s) txs = true ->
  processBitcoinBlock chain network block s
  = (Thrown (error "Bitcoin token not found in database"), s).
Proof.
  intros Hnone Htxs Hpays. unfold processBitcoinBlock, tryCatch. rewrite Htxs.
  unfold mbind at 1. unfold M_bind at 1.
  rewrite (forEach_stops txs _ (fun tx => paysMonitored chain network tx s)
             (error "Bitcoin token not found in database") s).
  - rewrite Hpays. reflexivity.
  - intros tx. apply processBitcoinTransaction_missing, Hnone.
Qed.

Lemma processXrpTransaction_missing chain network tx s :
  noNativeToken "XRP" s -> processXrpTransaction chain network tx s = (Ok tt, s).
Proof.
  intros Hnone. unfold processXrpTransaction, tryCatch, findWallets, gets.
  destruct (negb _); [reflexivity |].
  unfold mbind at 1. unfold M_bind at 1.
  destruct (bool_decide _); [| reflexivity].
  destruct (head _) as [wallet |]; [| reflexivity].
  unfold mbind, M_bind. rewrite (getXrpTokenId_missing s Hnone). reflexivity.
Qed.

Section XrpDropped.
Variable providers : Providers.
Variables (network : string) (s0 : Store).
Hypothesis missing : noNativeToken "XRP" s0.

Local Abbreviation same := (fun s => tokens s = tokens s0 /\ deposits s = deposits s0).

Lemma processXrpTransaction_same chain tx : preserves same (processXrpTransaction chain network tx).
Proof.
  intros s [Ht Hd]. rewrite processXrpTransaction_missing; [split; assumption |].
  unfold noNativeToken. rewrite Ht. exact missing.
Qed.

Lemma saveLastProcessedBlock_same chain n : preserves same (saveLastProcessedBlock chain network n).
Proof. intros s Hs. rewrite saveLastProcessedBlock_run. exact Hs. Qed.

Lemma checkXrpBlocks_same : preserves same (checkXrpBlocks providers network).
Proof.
  pose proof processXrpTransaction_same. pose proof saveLastProcessedBlock_same.
  unfold checkXrpBlocks, processXrpLedger, getLastProcessedBlock. preserve.
Qed.

End XrpDropped.

(** X17 (getBitcoinTokenId, processBitcoinBlock, getXrpTokenId,
    processXrpTransaction, checkXrpBlocks): what a missing native token row
    does.  With no BTC row, a Bitcoin block with an output to a monitored
    address makes [processBitcoinBlock] throw "Bitcoin token not found in
    database" with the store untouched: nothing is recorded and the
    checkpoint is not written, so the block comes again.  With no XRP row,
    the same error is caught inside [processXrpTransaction]: every payment is
    passed without a row while the tick moves the checkpoint to the
    validated ledger, so these payments are not looked at again. *)
Theorem missing_native_token chain network providers s :
  (noNativeToken "BTC" s ->
   (forall tx,
      processBitcoinTransaction chain network tx s
      = if paysMonitored chain network tx s
        then (Thrown (error "Bitcoin token not found in database"), s)
        else (Ok tt, s))
   /\ (forall block txs,
         Bitcoin.tx block = Some txs ->
         existsb (fun tx => paysMonitored chain network tx s) txs = true ->
         processBitcoinBlock chain network block s
         = (Thrown (error "Bitcoin token not found in database"), s)))
  /\ (noNativeToken "XRP" s ->
      (forall tx, processXrpTransaction chain network tx s = (Ok tt, s))
      /\ deposits (store_of (checkXrpBlocks providers network s)) = deposits s
      /\ (forall client tip last,
            xrp providers network = Some client ->
            Xrp.validatedLedger client = Ok tip ->
            checkpoint "xrp" network s = Some last ->
            checkpoint "xrp" network (store_of (checkXrpBlocks providers network s))
            = Some (Z.max last tip))).
Proof.
  split.
  - intros Hnone. split.
    + intros tx. apply processBitcoinTransaction_missing, Hnone.
    + intros block txs. apply processBitcoinBlock_missing, Hnone.
  - intros Hnone. split; [| split].
    + intros tx. apply processXrpTransaction_missing, Hnone.
    + apply (checkXrpBlocks_same providers network s Hnone s). split; reflexivity.
    + intros client tip last. apply checkXrpBlocks_tip.
Qed.

Lemma missing_native_token_witness :
  deposits (store_of (checkXrpBlocks (Scenario.xrpOnly Cases.payingXrp) "mainnet"
                        Cases.xrpStoreNoToken)) = []
  /\ checkpoint "xrp" "mainnet"
       (store_of (checkXrpBlocks (Scenario.xrpOnly Cases.payingXrp) "mainnet"
                    Cases.xrpStoreNoToken)) = Some 11.
Proof.
  destruct (missing_native_token "xrp" "mainnet" (Scenario.xrpOnly Cases.payingXrp)
              Cases.xrpStoreNoToken) as [_ Hxrp].
  destruct Hxrp as (_ & Hdeposits & Htip); [intros t Ht; inversion Ht |].
  split; [exact Hdeposits |].
  exact (Htip Cases.payingXrp 11 10 eq_refl eq_refl eq_refl).
Defined.

(** ** A Bitcoin block and its checkpoint *)

Lemma processBitcoinTransactions_settings chain network txs s :
  systemSettings (store_of (forEach txs (processBitcoinTransaction chain network) s))
  = systemSettings s.
Proof.
  assert (preserves (fun s1 => systemSettings s1 = systemSettings s)
            (forEach txs (processBitcoinTransaction chain network))) as Hkeeps.
  { apply preserves_forEach. intros tx _. apply processBitcoinTransaction_preserves.
    intros. apply saveDeposit_settingsOnly. intros s1 s2 H12 H1. congruence. }
  apply Hkeeps. reflexivity.
Qed.

Lemma processBitcoinBlock_cases chain network block txs s :
  Bitcoin.tx block = Some txs ->
  match forEach txs (processBitcoinTransaction chain network) s with
  | (Ok _, s1) =>
      result_of (processBitcoinBlock chain network block s) = Ok tt
      /\ checkpoint chain network (store_of (processBitcoinBlock chain network block s))
         = Some (Bitcoin.height block)
      /\ deposits (store_of (processBitcoinBlock chain network block s)) = deposits s1
  | (Thrown e, s1) => processBitcoinBlock chain network block s = (Thrown e, s1)
  end.
Proof.
  intros Htxs. unfold processBitcoinBlock. rewrite Htxs. unfold tryCatch, mbind, M_bind.
  destruct (forEach txs _ s) as [[[] | e] s1]; [| reflexivity].
  rewrite saveLastProcessedBlock_run, getLastProcessedBlock_run.
  split; [reflexivity |]. split; [| reflexivity].
  rewrite <- (checkpoint_saved chain network (Bitcoin.height block) s1).
  rewrite saveLastProcessedBlock_run. reflexivity.
Qed.

(** X18 (processBitcoinBlock): a Bitcoin block is checkpointed only when
    every transaction of it went through.  If one throws, the block throws
    the same error and the checkpoint is as it was, while the rows inserted
    for the transactions before it stay; if none throws, the block resolves
    and the checkpoint is the height recorded in the block.  A block with no
    transaction list is passed with no effect and no checkpoint. *)
Theorem bitcoin_block_all_or_no_checkpoint chain network block s :
  let r := processBitcoinBlock chain network block s in
  (Bitcoin.tx block = None -> r = (Ok tt, s))
  /\ (forall e, result_of r = Thrown e ->
        systemSettings (store_of r) = systemSettings s
        /\ exists txs,
             Bitcoin.tx block = Some txs
             /\ forEach txs (processBitcoinTransaction chain network) s = (Thrown e, store_of r))
  /\ (forall txs, Bitcoin.tx block = Some txs -> result_of r = Ok tt ->
        result_of (forEach txs (processBitcoinTransaction chain network) s) = Ok tt
        /\ checkpoint chain network (store_of r) = Some (Bitcoin.height block)).
Proof.
  intros r. subst r. split; [| split].
  - intros Hnone. unfold processBitcoinBlock. rewrite Hnone. reflexivity.
  - intros e He. destruct (Bitcoin.tx block) as [txs |] eqn:Htxs.
    + pose proof (processBitcoinBlock_cases chain network block txs s Htxs) as Hcases.
      pose proof (processBitcoinTransactions_settings chain network txs s) as Hset.
      destruct (forEach txs _ s) as [[[] | e'] s1] eqn:Hloop.
      * destruct Hcases as [Hok _]. rewrite Hok in He. discriminate.
      * rewrite Hcases in He |- *. injection He as ->.
        split; [exact Hset |]. exists txs. split; [reflexivity | exact Hloop].
    + unfold processBitcoinBlock in He. rewrite Htxs in He. discriminate.
  - intros txs Htxs Hok.
    pose proof (processBitcoinBlock_cases chain network block txs s Htxs) as Hcases.
    destruct (forEach txs _ s) as [[[] | e'] s1].
    + split; [reflexivity | apply Hcases].
    + rewrite Hcases in Hok. discriminate.
Qed.

(** ** Start-up without a Tron API key *)

Lemma noTron_insert k p providers :
  (forall apiUrl apiKey, p <> Registry.Tron apiUrl apiKey) ->
  noTron providers -> noTron (<[k := p]> providers).
Proof.
  intros Hp Hm k' p' Hk'. destruct (decide (k = k')) as [<- | Hne].
  - rewrite lookup_insert_eq in Hk'. injection Hk' as <-. exact Hp.
  - rewrite lookup_insert_ne in Hk' by exact Hne. apply (Hm k' p' Hk').
Qed.

Lemma initializeProviders_noTron world config providers :
  Text.truthy (config "TRON_API_KEY") = None ->
  noTron providers -> noTron (initializeProviders world config providers).
Proof.
  intros Hkey H0. unfold initializeProviders. cbv zeta.
  apply foldl_invariant.
  { intros m [network rpcUrl] _ Hm.
    destruct (World.serverInfo world _); [apply noTron_insert |]; try exact Hm.
    discriminate. }
  apply foldl_invariant.
  { intros m [network apiUrl] _ Hm. rewrite Hkey. exact Hm. }
  apply foldl_invariant.
  { intros m [network rpcUrl] _ Hm.
    destruct (bitcoinRpcCall world _ _ _); [apply noTron_insert |]; try exact Hm.
    discriminate. }
  apply foldl_invariant; [| exact H0].
  intros m [chain networks] _ Hm. apply foldl_invariant; [| exact Hm].
  intros m' [network [rpcUrl |]] _ Hm'; [| exact Hm'].
  destruct (World.getBlockNumber world _ _); [apply noTron_insert |]; try exact Hm'.
  discriminate.
Qed.

(** X19 (initializeProviders, monitorTron): without a [TRON_API_KEY] in the
    configuration, or with an empty one, start-up registers no Tron provider
    for either network, whatever the nodes answer, and sets no Tron timer:
    Tron is not monitored, and nothing registers a provider later. *)
Theorem tron_needs_api_key world config :
  Text.truthy (config "TRON_API_KEY") = None ->
  let service := onModuleInit world config in
  (forall network, Registry.providers service !! ("trx_" +:+ network) = None)
  /\ (forall network tronWeb, Registry.CheckTron network tronWeb ∉ Registry.timers service).
Proof.
  intros Hkey service.
  assert (noTron (Registry.providers service)) as Hno.
  { apply initializeProviders_noTron; [exact Hkey |].
    intros k p Hk. rewrite lookup_empty in Hk. discriminate. }
  assert (forall network, Registry.providers service !! ("trx_" +:+ network) = None) as Hnone.
  { intros network.
    destruct (Registry.providers service !! ("trx_" +:+ network)) as [p |] eqn:Hp;
      [| reflexivity].
    exfalso. pose proof (onModuleInit_allRegistered world config _ _ Hp) as Hreg.
    destruct p; try (wrong_kind Hreg; fail).
    exact (Hno _ _ Hp _ _ eq_refl). }
  split; [exact Hnone |].
  intros network tronWeb Hin. unfold service, onModuleInit in Hin. cbn [Registry.timers] in Hin.
  apply elem_of_app in Hin as [Hin | Hin].
  { unfold monitorBitcoin in Hin. apply list_elem_of_fmap in Hin as (n & Hn & _).
    discriminate. }
  apply elem_of_app in Hin as [Hin | Hin].
  - unfold monitorTron in Hin. apply list_elem_of_omap in Hin as (n & _ & Hn).
    fold service in Hn. change (initializeProviders world config ∅)
      with (Registry.providers service) in Hn.
    rewrite Hnone in Hn. discriminate.
  - unfold monitorXrp in Hin. apply list_elem_of_omap in Hin as (n & _ & Hn).
    destruct (_ !! _); discriminate.
Qed.

Lemma tron_needs_api_key_witness :
  Registry.providers (onModuleInit Nodes.up Nodes.bscConfig) !! ("trx_" +:+ "mainnet") = None.
Proof.
  apply (tron_needs_api_key Nodes.up Nodes.bscConfig). reflexivity.
Defined.

(** ** The chain keys *)

Lemma getChainKey_cases blockchain :
  (blockchain ∈ ["eth"; "bsc"; "bitcoin"; "trx"; "xrp"]
   /\ CHAIN_KEYS blockchain = Some (specChainKey blockchain))
  \/ (CHAIN_KEYS blockchain = None /\ blockchain <> "bitcoin").
Proof.
  unfold CHAIN_KEYS, specChainKey.
  destruct (decide (blockchain = "eth")) as [-> | H1]; [left; split; [compute_done | reflexivity] |].
  destruct (decide (blockchain = "bsc")) as [-> | H2]; [left; split; [compute_done | reflexivity] |].
  destruct (decide (blockchain = "bitcoin")) as [-> | H3];
    [left; split; [compute_done | reflexivity] |].
  destruct (decide (blockchain = "trx")) as [-> | H4]; [left; split; [compute_done | reflexivity] |].
  destruct (decide (blockchain = "xrp")) as [-> | H5]; [left; split; [compute_done | reflexivity] |].
  right. rewrite !bool_decide_eq_false_2 by assumption. auto.
Qed.


(** ** Rows persist *)

Lemma laterRow_refl d : laterRow d d.
Proof. split; [destruct d; reflexivity | reflexivity]. Qed.

Lemma laterRow_progress d d1 c st :
  laterRow d d1 -> (rank (Deposit.status d1) <= rank st)%nat ->
  laterRow d (Deposit.setProgress c st d1).
Proof.
  intros [Hd1 Hrank] Hst. split; [| cbn; lia].
  rewrite Hd1. destruct d. reflexivity.
Qed.

Section Persist.
Variable decimalPlus : string -> string -> option string.
Variable s0 : Store.

Local Abbreviation inv := (fun s => wfIds s /\ persists s0 s).

Lemma saveDeposit_persists row : preserves inv (saveDeposit row).
Proof.
  intros s [Hwf Hrows].
  destruct (saveDeposit_cases row s) as [[e He] | Hsaved]; [rewrite He; auto |].
  rewrite Hsaved. split; [apply wfIds_saved, Hwf |].
  intros d Hd. destruct (Hrows d Hd) as (d' & Hd' & Hlater).
  exists d'. split; [| exact Hlater]. cbn. apply elem_of_app. left. exact Hd'.
Qed.

Lemma saveLastProcessedBlock_persists chain network n :
  preserves inv (saveLastProcessedBlock chain network n).
Proof. intros s Hs. rewrite saveLastProcessedBlock_run. exact Hs. Qed.

Lemma updateEvmConfirmations_persists chain network h :
  preserves inv (updateEvmConfirmations decimalPlus chain network h).
Proof.
  intros s1 [Hwf Hrows].
  pose proof (updateEvmConfirmations_passFrame decimalPlus chain network h s1 (proj1 Hwf))
    as (Hframe & _).
  split.
  - apply pass_keeps; [| exact (proj1 Hwf) | exact Hwf].
    intros d s' _ Hs' _. apply confirmDeposit_wfIds, Hs'.
  - intros d Hd. destruct (Hrows d Hd) as (d1 & Hd1 & Hlater).
    apply list_elem_of_lookup in Hd1 as [i Hi].
    destruct (Forall2_lookup_l _ _ _ _ _ Hframe Hi) as (d2 & Hd2 & Hprogress).
    exists d2. split; [eapply list_elem_of_lookup_2, Hd2 |].
    destruct Hprogress as [-> | (Hfound & c & st & Hst & ->)]; [exact Hlater |].
    apply laterRow_progress; [exact Hlater |].
    apply found_in in Hfound as [_ Hstatus].
    destruct (Deposit.status d1), st; cbn; try lia; congruence.
Qed.

Lemma run_persists quotientToString providers calls s :
  inv s -> inv (run decimalPlus quotientToString providers calls s).
Proof.
  apply run_preserves.
  - intros. apply saveDeposit_persists.
  - apply saveLastProcessedBlock_persists.
  - apply updateEvmConfirmations_persists.
Qed.

End Persist.



Example confirmations_go_down_status_stays :
  (fun d => (Deposit.userId d, Deposit.status d, Deposit.confirmations d))
    <$> deposits
          (run Reference.decimalPlus Reference.quotientToString Scenario.noProviders
             [UpdateTronConfirmations "testnet" 9; UpdateTronConfirmations "testnet" 5]
             Scenario.tronStore)
  = [("alice", confirming, 4); ("bob", confirming, 4); ("carol", confirming, 4)].
Proof. vm_compute. reflexivity. Qed.
